(** * Segmented capture and stitching pipeline of the screenshot extension

    A shallow embedding of the background script of the extension (class
    [ScreenshotCapture], latest revision of the file), with the tile
    geometry, the rate-limited capture, the capture loop with its
    validation, the compositor's canvas geometry and the single-flight
    flag, followed by the properties the specification states about them.

    Numbers.  The page metrics are DOM integers ([scrollWidth],
    [innerWidth], ...), so they are modelled as [Z]; below 2^53 the
    double-precision [Math.floor(a / b)] of two integers is the integer
    floor of the quotient, and [%] is the truncated remainder.  The values
    a division by zero yields ([Infinity], [-Infinity], [NaN]) are kept, in
    [jsnum].  Fractions (the compositor's scale, the capture quality) are
    doubles: each is modelled by the rational it stands for, and every
    operation on them rounds its exact result to the nearest double, as
    IEEE 754 has it ([Double]). *)

From Stdlib Require Import ZArith QArith Qround Qminmax Qpower Qabs.
From Stdlib Require Import Lia Lqa List String Ascii Bool.
From Stdlib Require Import Permutation.
From Stdlib Require Import Sorted.
Import ListNotations.

Local Open Scope Z_scope.

(** ** JavaScript numbers of the tile planner *)

Module JS.

(** An integer-valued JavaScript number, or one of the three values that
    are not finite. *)
Inductive jsnum : Type :=
| Fin (z : Z)
| PInf
| NInf
| NaN.

(** [Math.floor(a / b)] on integers [a], [b] ([b] is [+0] when zero). *)
Definition floor_div (a b : Z) : jsnum :=
  if b =? 0 then
    (if 0 <? a then PInf else if a <? 0 then NInf else NaN)
  else Fin (a / b).

(** [Math.ceil(a / b)], used by the specification's formula only. *)
Definition ceil_div (a b : Z) : jsnum :=
  if b =? 0 then
    (if 0 <? a then PInf else if a <? 0 then NInf else NaN)
  else Fin (- ((- a) / b)).

(** [a % b]: the remainder has the sign of the dividend. *)
Definition rem (a b : Z) : jsnum :=
  if b =? 0 then NaN else Fin (Z.rem a b).

(** [v > 0]; every comparison with [NaN] is false. *)
Definition gt0 (v : jsnum) : bool :=
  match v with
  | Fin z => 0 <? z
  | PInf => true
  | NInf | NaN => false
  end.

(** [a + b]. *)
Definition add (a b : jsnum) : jsnum :=
  match a, b with
  | NaN, _ | _, NaN => NaN
  | PInf, NInf | NInf, PInf => NaN
  | PInf, _ | _, PInf => PInf
  | NInf, _ | _, NInf => NInf
  | Fin x, Fin y => Fin (x + y)
  end.

(** [a * b]. *)
Definition mul (a b : jsnum) : jsnum :=
  match a, b with
  | NaN, _ | _, NaN => NaN
  | Fin x, Fin y => Fin (x * y)
  | Fin x, PInf | PInf, Fin x =>
      if 0 <? x then PInf else if x <? 0 then NInf else NaN
  | Fin x, NInf | NInf, Fin x =>
      if 0 <? x then NInf else if x <? 0 then PInf else NaN
  | PInf, PInf | NInf, NInf => PInf
  | PInf, NInf | NInf, PInf => NInf
  end.

(** [Math.max(a, b)]. *)
Definition max (a b : jsnum) : jsnum :=
  match a, b with
  | NaN, _ | _, NaN => NaN
  | PInf, _ | _, PInf => PInf
  | NInf, v | v, NInf => v
  | Fin x, Fin y => Fin (Z.max x y)
  end.

(** [i < bound] for an integer loop counter [i]. *)
Definition lt (i : Z) (bound : jsnum) : bool :=
  match bound with
  | Fin n => i <? n
  | PInf => true
  | NInf | NaN => false
  end.

(** [n !== bound] for an integer [n] (an array length). *)
Definition neq (n : Z) (bound : jsnum) : bool :=
  match bound with
  | Fin m => negb (n =? m)
  | _ => true
  end.

End JS.

Import JS.

(** ** JavaScript numbers that are fractions *)

(** A finite double is modelled by the rational number it stands for.  The
    doubles are the numbers [m * 2^e] with [|m| < 2^53] and [-1074 <= e];
    the result of an arithmetic operation is the double nearest to the
    exact result, the one with the even [m] when two are as near.  The
    numbers of the compositor and of the capture quality stay far below
    [2^1024], so no operation overflows to [Infinity]. *)
Module Double.

(** [2^e]. *)
Definition pow2 (e : Z) : Q := (2 ^ e)%Q.

(** The exponent of the binade of a positive number: [2^e <= q < 2^(e+1)].
    The sizes of numerator and denominator give it up to one. *)
Definition exponent (q : Q) : Z :=
  let e := Z.log2 (Qnum q) - Z.log2 (Z.pos (Qden q)) in
  if Qle_bool (pow2 e) q then e else e - 1.

(** The integer nearest to [q], the even one of two that are as near. *)
Definition roundEven (q : Q) : Z :=
  let f := Qfloor q in
  match (q - inject_Z f ?= 1 # 2)%Q with
  | Lt => f
  | Gt => f + 1
  | Eq => if Z.even f then f else f + 1
  end.

(** The distance between the doubles of the binade of a positive [q]: a
    significand has 53 bits, and the subnormal numbers are [2^-1074]
    apart. *)
Definition ulp (q : Q) : Q := pow2 (Z.max (exponent q - 52) (-1074)).

Definition nearestPos (q : Q) : Q :=
  Qred (inject_Z (roundEven (q / ulp q)) * ulp q).

(** The double nearest to [q]: what a decimal literal or the text of a form
    field ([parseFloat]) denotes, and what an operation of exact result [q]
    returns. *)
Definition nearest (q : Q) : Q :=
  match (q ?= 0)%Q with
  | Eq => 0%Q
  | Gt => nearestPos q
  | Lt => (- nearestPos (- q))%Q
  end.

(** [a * b] and [a / b] on doubles. *)
Definition mul (a b : Q) : Q := nearest (a * b).
Definition div (a b : Q) : Q := nearest (a / b).

End Double.

(** ** Page metrics and tile geometry *)

(** The object [getPageDimensions] returns.  [devicePixelRatio] is carried
    by the page but never read by the background script. *)
Record PageMetrics : Type := mkMetrics {
  scrollWidth : Z;
  scrollHeight : Z;
  viewportWidth : Z;
  viewportHeight : Z
}.

(** [Math.max(1, Math.floor(scroll / viewport) + (scroll % viewport > 0 ? 1 : 0))]:
    the number of segments along one axis. *)
Definition segments (scroll viewport : Z) : jsnum :=
  JS.max (Fin 1)
         (JS.add (floor_div scroll viewport)
                 (Fin (if gt0 (rem scroll viewport) then 1 else 0))).

(** [Math.min(i * viewport, Math.max(0, scroll - viewport))]: the scroll
    position of segment [i] along one axis. *)
Definition scrollPos (i scroll viewport : Z) : Z :=
  Z.min (i * viewport) (Z.max 0 (scroll - viewport)).

(** [Math.min(viewport, scroll - scrollPos)]: the size recorded for the
    segment. *)
Definition actualSize (i scroll viewport : Z) : Z :=
  Z.min viewport (scroll - scrollPos i scroll viewport).

Definition segmentsX (m : PageMetrics) : jsnum :=
  segments (scrollWidth m) (viewportWidth m).
Definition segmentsY (m : PageMetrics) : jsnum :=
  segments (scrollHeight m) (viewportHeight m).
Definition totalSegments (m : PageMetrics) : jsnum :=
  JS.mul (segmentsX m) (segmentsY m).

(** One planned cell of the grid: its indices, the scroll position the page
    is sent to, and the size recorded for the captured segment. *)
Record Cell : Type := mkCell {
  gridX : Z;
  gridY : Z;
  scrollX : Z;
  scrollY : Z;
  actualWidth : Z;
  actualHeight : Z
}.

Definition cell (m : PageMetrics) (x y : Z) : Cell :=
  {| gridX := x;
     gridY := y;
     scrollX := scrollPos x (scrollWidth m) (viewportWidth m);
     scrollY := scrollPos y (scrollHeight m) (viewportHeight m);
     actualWidth := actualSize x (scrollWidth m) (viewportWidth m);
     actualHeight := actualSize y (scrollHeight m) (viewportHeight m) |}.

(** The indices [0, 1, ..., n-1] of a [for (let i = 0; i < n; i++)] loop. *)
Definition indices (n : Z) : list Z :=
  map Z.of_nat (seq 0 (Z.to_nat n)).

(** The segments along one axis, as (scroll position, size) pairs; [None]
    when the segment count is not a finite number. *)
Definition axisPlan (scroll viewport : Z) : option (list (Z * Z)) :=
  match segments scroll viewport with
  | Fin n =>
      Some (map (fun i => (scrollPos i scroll viewport,
                           actualSize i scroll viewport)) (indices n))
  | _ => None
  end.

(** The grid in the order the capture loop visits it: [y] outer, [x] inner. *)
Definition gridPlan (m : PageMetrics) : option (list Cell) :=
  match segmentsX m, segmentsY m with
  | Fin nx, Fin ny =>
      Some (flat_map (fun y => map (fun x => cell m x y) (indices nx))
                     (indices ny))
  | _, _ => None
  end.

(** The pixels a segment shows along one axis. *)
Definition covers (seg : Z * Z) (p : Z) : Prop :=
  fst seg <= p < fst seg + snd seg.

(** The pixels of the page a cell shows. *)
Definition shows (c : Cell) (px py : Z) : Prop :=
  covers (scrollX c, actualWidth c) px /\ covers (scrollY c, actualHeight c) py.

(** The cells tile a page of the given extent exactly: every pixel of the
    page is shown by some cell (no gap) and by no two cells (no overlap). *)
Definition tilesExactly (cells : list Cell) (width height : Z) : Prop :=
  (forall px py, 0 <= px < width -> 0 <= py < height ->
     exists c, In c cells /\ shows c px py)
  /\ (forall i j ci cj px py,
        nth_error cells i = Some ci -> nth_error cells j = Some cj ->
        shows ci px py -> shows cj px py -> i = j).

(** ** The planner as the specification words it *)

(** [max(1, ceil(scroll / viewport))]. *)
Definition spec_columns (scroll viewport : Z) : jsnum :=
  JS.max (Fin 1) (ceil_div scroll viewport).

(** [min(col * viewport, max(0, scroll - viewport))]. *)
Definition spec_offset (col scroll viewport : Z) : Z :=
  Z.min (col * viewport) (Z.max 0 (scroll - viewport)).

(** [min(viewport, scroll - offset)]. *)
Definition spec_actual (viewport scroll offset : Z) : Z :=
  Z.min viewport (scroll - offset).

(** ** Options, errors, the host and the trace of effects *)

(** The options the background script reads.  [quality] is the decimal
    fraction of the popup's form, which the popup parses to a double
    ([parseFloat]); [format] is ["png"], ["jpeg"] or ["pdf"]. *)
Record Options : Type := mkOptions {
  quality : Q;
  format : string;
  captureSpeed : string
}.

(** [Math.round(v)] of a double [v]: the nearest integer, halves upwards
    (the result is exact, it is not computed by an addition of doubles). *)
Definition round (v : Q) : Z := Qfloor (v + (1 # 2))%Q.

(** [Math.round(options.quality * 100)]: the quality is a double, and so
    is the product that is rounded. *)
Definition captureQuality (options : Options) : Z :=
  round (Double.mul (Double.nearest (quality options)) 100).

(** One captured segment, as pushed on [images] ([timestamp], which
    nothing reads, is left out). *)
Module Image.
Record t : Type := mk {
  dataUrl : string;
  x : Z;
  y : Z;
  width : Z;
  height : Z
}.
End Image.

(** Why the checks after the capture loop reject the captured set. *)
Inductive Incomplete : Type :=
| NoImages                      (* 'No images were captured during the screenshot process' *)
| BadImageData (i : nat)        (* `Invalid image data at index ${i}` *)
| BadImageDimensions (i : nat). (* `Invalid image dimensions at index ${i}` *)

(** What the function injected by [combineImages] / [createPDF] reports in
    the [error] field of its result. *)
Inductive ContentError : Type :=
| NoImagesProvided              (* 'No images provided ...' *)
| InvalidImageData (i : nat)    (* `Invalid image data at index ${i}` *)
| NoCanvasContext               (* 'Failed to get canvas 2D context' *)
| PageTooLarge (totalWidth totalHeight : Z)
                                (* `Page too large to process. Canvas size: ...` *)
| TileDecodeFailed (i : nat).   (* `Failed to load image ${i + 1}` / `Timeout loading image ${i + 1}` *)

(** The errors a capture run throws, named as the specification names them
    where it has a name; the message of each is the one in the source. *)
Inductive error : Type :=
| CaptureInProgress             (* 'Screenshot capture already in progress' *)
| DimensionsInaccessible        (* 'Unable to access page dimensions. ...' *)
| DimensionsMissing             (* 'Failed to retrieve page dimensions' *)
| InvalidTileData (x y : Z)     (* `Invalid screenshot data received for segment (${x}, ${y})` *)
| IncompleteCapture (why : Incomplete)
| CaptureExhausted              (* 'Failed to capture screenshot after multiple retries' *)
| HostError (message : string)  (* the error a chrome.* call rejected with, rethrown as it is *)
| NoContentResult               (* '... no result returned' *)
| InvalidContentResult          (* 'Content script returned invalid result ...' *)
| CombineFailed (cause : ContentError)   (* `Failed to combine images: ${error}` *)
| PdfFailed (cause : ContentError)       (* `Failed to process images for PDF: ${error}` *)
| PdfTabFailed (message : string).       (* `Failed to open PDF tab: ${message}` *)

(** How one call of [chrome.tabs.captureVisibleTab] ends: the promise
    resolves with a data URL (the empty string stands for a falsy value),
    or rejects with an error of the given message. *)
Inductive response : Type :=
| Resolved (dataUrl : string)
| Rejected (message : string).

(** How the injected query for the page dimensions ends. *)
Inductive DimsResponse : Type :=
| DimsRejected
| DimsNoResult
| DimsResult (m : PageMetrics).

(** The answers of the host to everything but [captureVisibleTab]: the
    script injections, the canvas of the page and the download. *)
Record Host : Type := mkHost {
  dimensions : DimsResponse;
  (** [chrome.tabs.query] or the injection of the compositing function
      rejects with this message *)
  injectionRejects : option string;
  (** the injection returns no result *)
  injectionEmpty : bool;
  (** [canvas.getContext('2d')] is not null *)
  canvasContext : bool;
  (** the image of this index loads (neither [onerror] nor the 10 s timeout) *)
  decodes : nat -> bool;
  (** what [canvas.toDataURL] returns *)
  encoded : string;
  (** [chrome.downloads.download] rejects with this message *)
  downloadRejects : option string;
  (** opening the print tab ([generateAndDownloadPDF]) fails with this
      message *)
  pdfTabRejects : option string
}.

(** The effects of a run that the properties below observe.  The
    notifications to the popup ([updateProgress], [updateStatus]) are fire
    and forget and are not recorded. *)
Inductive event : Type :=
| EvCapture (format : string) (quality : Z)
    (* chrome.tabs.captureVisibleTab(null, {format, quality}) *)
| EvWait (ms : Z)
    (* await new Promise(resolve => setTimeout(resolve, ms)) *)
| EvScroll (x y : Z)
    (* the injected window.scrollTo(x, y) *)
| EvCanvas (width height : Z)
    (* canvas.width = width; canvas.height = height *)
| EvDraw (dx dy dWidth dHeight : Q)
    (* ctx.drawImage(img, dx, dy, dWidth, dHeight) *)
| EvEncode (mime : string) (quality : Q)
    (* canvas.toDataURL(mime, quality) *)
| EvDownload (url extension : string).
    (* chrome.downloads.download({url, filename: `screenshot_<time>.${extension}`}) *)

(** The state a run reads and writes: the flag of the [ScreenshotCapture]
    object, the answers [captureVisibleTab] is still to give, in call
    order, and the effects so far, oldest first. *)
Record World : Type := mkWorld {
  isCapturing : bool;
  captures : list response;
  trace : list event
}.

(** ** Asynchronous computations *)

(** A computation returns, throws, or is still waiting when the recorded
    answers of the host run out. *)
Inductive outcome (A : Type) : Type :=
| Returned (a : A)
| Threw (e : error)
| Pending.
Arguments Returned {A} a.
Arguments Threw {A} e.
Arguments Pending {A}.

Definition M (A : Type) : Type := World -> outcome A * World.

Definition ret {A} (a : A) : M A := fun w => (Returned a, w).

Definition bind {A B} (c : M A) (k : A -> M B) : M B :=
  fun w =>
    match c w with
    | (Returned a, w') => k a w'
    | (Threw e, w') => (Threw e, w')
    | (Pending, w') => (Pending, w')
    end.

Definition throw {A} (e : error) : M A := fun w => (Threw e, w).

(** [try { c } catch (error) { handler(error) }]. *)
Definition try_catch {A} (c : M A) (handler : error -> M A) : M A :=
  fun w =>
    match c w with
    | (Threw e, w') => handler e w'
    | r => r
    end.

(** [try { c } finally { cleanup }]: the cleanup runs when [c] returns and
    when it throws, and not while [c] is still waiting. *)
Definition try_finally {A} (c : M A) (cleanup : M unit) : M A :=
  fun w =>
    match c w with
    | (Pending, w') => (Pending, w')
    | (r, w') =>
        match cleanup w' with
        | (Returned _, w'') => (r, w'')
        | (Threw e, w'') => (Threw e, w'')
        | (Pending, w'') => (Pending, w'')
        end
    end.

Declare Scope js_scope.
Delimit Scope js_scope with js.
Notation "x <- c ;; k" := (bind c (fun x => k))
  (at level 61, c at next level, right associativity) : js_scope.
Notation "c ;; k" := (bind c (fun _ => k))
  (at level 61, right associativity) : js_scope.
Local Open Scope js_scope.

Definition emit (e : event) : M unit :=
  fun w => (Returned tt,
            {| isCapturing := isCapturing w;
               captures := captures w;
               trace := trace w ++ [e] |}).

(** [await new Promise(resolve => setTimeout(resolve, ms))]. *)
Definition sleep (ms : Z) : M unit := emit (EvWait ms).

Definition setCapturing (b : bool) : M unit :=
  fun w => (Returned tt,
            {| isCapturing := b; captures := captures w; trace := trace w |}).

Definition getCapturing : M bool := fun w => (Returned (isCapturing w), w).

(** A monadic left fold, for the loops whose bound is a finite number. *)
Fixpoint foldM {S I} (body : I -> S -> M S) (l : list I) (s : S) : M S :=
  match l with
  | [] => ret s
  | i :: l' => s' <- body i s ;; foldM body l' s'
  end.

(** A loop whose bound is [Infinity]: it ends only if the body throws; it
    is unrolled as far as the recorded answers reach (a body that awaits a
    capture uses one up at every turn). *)
Fixpoint forever {S} (fuel : nat) (i : Z) (body : Z -> S -> M S) (s : S) : M S :=
  match fuel with
  | O => fun w => (Pending, w)
  | Datatypes.S fuel' => s' <- body i s ;; forever fuel' (i + 1) body s'
  end.

(** [for (let i = 0; i < bound; i++) body]. *)
Definition for_upto {S} (bound : jsnum) (body : Z -> S -> M S) (s : S) : M S :=
  match bound with
  | Fin n => foldM body (indices n) s
  | PInf => fun w => forever (Datatypes.S (List.length (captures w))) 0 body s w
  | NInf | NaN => ret s
  end.

(** ** captureScreenshotWithRetry *)

(** The text Chrome's quota error carries. *)
Definition rateLimitMarker : string :=
  "MAX_CAPTURE_VISIBLE_TAB_CALLS_PER_SECOND".

(** [hay.includes(needle)]. *)
Fixpoint includes (needle hay : string) : bool :=
  prefix needle hay
  || match hay with
     | EmptyString => false
     | String _ rest => includes needle rest
     end.

(** A string is falsy exactly when it is empty. *)
Definition truthy (s : string) : bool := negb (s =? "")%string.

(** [!s || !s.startsWith('data:image/')] negated: the test a captured
    segment has to pass. *)
Definition isImageData (s : string) : bool :=
  truthy s && prefix "data:image/" s.

(** [Math.min(1000 * retryCount, 3000)]. *)
Definition waitTime (retryCount : Z) : Z := Z.min (1000 * retryCount) 3000.

(** The [while (!screenshot && retryCount < maxRetries)] loop, entered with
    [screenshot] falsy.  Every turn issues one capture and takes the next
    recorded answer; the result is the outcome, the answers left and the
    trace. *)
Fixpoint retryLoop (q maxRetries : Z) (script : list response)
         (retryCount : Z) (tr : list event)
  : outcome string * list response * list event :=
  if retryCount <? maxRetries then
    match script with
    | [] => (Pending, [], tr ++ [EvCapture "png" q])
    | Resolved screenshot :: rest =>
        if truthy screenshot
        then (Returned screenshot, rest, tr ++ [EvCapture "png" q])
        else retryLoop q maxRetries rest retryCount (tr ++ [EvCapture "png" q])
    | Rejected message :: rest =>
        let retryCount := retryCount + 1 in
        if includes rateLimitMarker message
        then retryLoop q maxRetries rest retryCount
               (tr ++ [EvCapture "png" q; EvWait (waitTime retryCount)])
        else (Threw (HostError message), rest, tr ++ [EvCapture "png" q])
    end
  else (Threw CaptureExhausted, script, tr).

Definition defaultMaxRetries : Z := 3.

Definition captureScreenshotWithRetry (options : Options) (maxRetries : Z)
  : M string :=
  fun w =>
    let '(o, rest, tr) :=
      retryLoop (captureQuality options) maxRetries (captures w) 0 (trace w) in
    (o, {| isCapturing := isCapturing w; captures := rest; trace := tr |}).

(** ** captureFullPage *)

(** The [switch (options.captureSpeed)] over the default of 500 ms. *)
Definition rateLimitDelay (speed : string) : Z :=
  if (speed =? "slow")%string then 1000
  else if (speed =? "medium")%string then 500
  else if (speed =? "fast")%string then 200
  else 500.

(** The injected query for the page dimensions and the two tests on its
    answer. *)
Definition getDimensions (host : Host) : M PageMetrics :=
  match dimensions host with
  | DimsRejected => throw DimensionsInaccessible
  | DimsNoResult => throw DimensionsMissing
  | DimsResult m => ret m
  end.

(** [images.find(img => img.x === x && img.y === y)], as a test. *)
Definition hasSegment (images : list Image.t) (x y : Z) : bool :=
  existsb (fun img => (Image.x img =? x) && (Image.y img =? y)) images.

(** One turn of the inner loop, on the locals [images] and [segmentIndex].
    A rejected scroll injection is logged and ignored by the source, so the
    scroll is recorded and the turn goes on; the [catch] around the capture
    reports the error it caught and throws it again. *)
Definition captureSegment (options : Options) (m : PageMetrics)
           (y x : Z) (st : list Image.t * Z) : M (list Image.t * Z) :=
  let '(images, segmentIndex) := st in
  let c := cell m x y in
  emit (EvScroll (scrollX c) (scrollY c)) ;;
  sleep 500 ;;
  try_catch
    (sleep 200 ;;
     screenshot <- captureScreenshotWithRetry options defaultMaxRetries ;;
     if negb (isImageData screenshot) then throw (InvalidTileData x y)
     else if hasSegment images x y then ret (images, segmentIndex)
     else
       let images :=
         images ++ [Image.mk screenshot x y (actualWidth c) (actualHeight c)] in
       let segmentIndex := segmentIndex + 1 in
       (if JS.lt segmentIndex (totalSegments m)
        then sleep (rateLimitDelay (captureSpeed options))
        else ret tt) ;;
       ret (images, segmentIndex))
    (fun error => throw error).

(** The two nested [for] loops. *)
Definition captureLoop (options : Options) (m : PageMetrics)
  : M (list Image.t * Z) :=
  for_upto (segmentsY m)
    (fun y st => for_upto (segmentsX m) (captureSegment options m y) st)
    ([], 0).

(** The index of the first image whose data is missing or is not an image
    ([!img.dataUrl || !img.dataUrl.startsWith('data:image/')]), counting
    from [i]. *)
Fixpoint firstBadData (i : nat) (images : list Image.t) : option nat :=
  match images with
  | [] => None
  | img :: rest =>
      if negb (isImageData (Image.dataUrl img)) then Some i
      else firstBadData (Datatypes.S i) rest
  end.

(** The loop over the captured images.  Its [typeof] tests on [x], [y],
    [width] and [height] hold of every [Image.t], whose fields are numbers,
    so [BadImageDimensions] is never produced. *)
Definition checkImages (images : list Image.t) : option Incomplete :=
  match firstBadData 0 images with
  | Some i => Some (BadImageData i)
  | None => None
  end.

(** The comparator of [images.sort]: negative or zero when [a] may stay
    before [b]. *)
Definition compareImages (a b : Image.t) : Z :=
  if negb (Image.y a =? Image.y b) then Image.y a - Image.y b
  else Image.x a - Image.x b.

Fixpoint insertImage (a : Image.t) (l : list Image.t) : list Image.t :=
  match l with
  | [] => [a]
  | b :: l' =>
      if compareImages a b <=? 0 then a :: b :: l'
      else b :: insertImage a l'
  end.

(** [images.sort(...)]: a stable sort by [(y, x)]; an image stays before
    the later images it compares equal to. *)
Definition sortImages (images : list Image.t) : list Image.t :=
  fold_right insertImage [] images.

(** What [console.warn] prints when the count of captured segments is not
    the expected one. *)
Inductive warning : Type :=
| CountMismatch (expected : jsnum) (captured : Z).

(** The warning of the final validation, if it is printed. *)
Definition countWarning (expected : jsnum) (images : list Image.t)
  : option warning :=
  let n := Z.of_nat (List.length images) in
  if JS.neq n expected then Some (CountMismatch expected n) else None.

(** The code after the loops: the checks that throw, the count check that
    warns, and the sort. *)
Definition validateImages (expected : jsnum) (images : list Image.t)
  : M (list Image.t) :=
  match images with
  | [] => throw (IncompleteCapture NoImages)
  | _ =>
      match checkImages images with
      | Some why => throw (IncompleteCapture why)
      | None =>
          let _ := countWarning expected images in
          ret (sortImages images)
      end
  end.

Definition captureFullPage (host : Host) (options : Options)
  : M (list Image.t) :=
  m <- getDimensions host ;;
  st <- captureLoop options m ;;
  validateImages (JS.mul (segmentsX m) (segmentsY m)) (fst st).

Definition captureVisibleArea (options : Options) : M string :=
  captureScreenshotWithRetry options defaultMaxRetries.

(** ** The compositor *)

(** Most browsers support canvases of up to 32,767 pixels. *)
Definition MAX_CANVAS_SIZE : Z := 32767.

(** [MAX_CANVAS_SIZE / total]: a double, or [Infinity] when [total] is
    zero. *)
Inductive ratio : Type :=
| Ratio (q : Q)
| Infinite.

Definition scaleFor (total : Z) : ratio :=
  if total =? 0 then Infinite
  else Ratio (Double.div (inject_Z MAX_CANVAS_SIZE) (inject_Z total)).

(** The literal [0.1]. *)
Definition tenth : Q := Double.nearest (1 # 10).

(** [Math.min(scaleX, scaleY, 1)]. *)
Definition minScale (scaleX scaleY : ratio) : Q :=
  match scaleX, scaleY with
  | Ratio p, Ratio q => Qmin (Qmin p q) 1
  | Ratio p, Infinite | Infinite, Ratio p => Qmin p 1
  | Infinite, Infinite => 1%Q
  end.

(** [a < b] on fractions. *)
Definition Qltb (a b : Q) : bool := negb (Qle_bool b a).

(** [Math.max(...images.map(f))] for a list that starts with [first]. *)
Definition maxOf (f : Image.t -> Z) (first : Image.t) (rest : list Image.t) : Z :=
  fold_left Z.max (map f rest) (f first).

(** [(maxX + 1) * images[0].width] and [(maxY + 1) * images[0].height]. *)
Definition totalWidth (first : Image.t) (rest : list Image.t) : Z :=
  (maxOf Image.x first rest + 1) * Image.width first.
Definition totalHeight (first : Image.t) (rest : list Image.t) : Z :=
  (maxOf Image.y first rest + 1) * Image.height first.

(** The arguments of one [ctx.drawImage(img, dx, dy, dWidth, dHeight)]. *)
Record Draw : Type := mkDraw {
  dx : Q;
  dy : Q;
  dWidth : Q;
  dHeight : Q
}.

(** The canvas the compositor sets up and the draws it issues. *)
Record Layout : Type := mkLayout {
  scale : Q;
  canvasWidth : Z;
  canvasHeight : Z;
  draws : list Draw
}.

(** The scale: 1 unless a total exceeds the limit; [None] when the page is
    too large ([scale < 0.1]). *)
Definition canvasScale (tw th : Z) : option Q :=
  if (MAX_CANVAS_SIZE <? tw) || (MAX_CANVAS_SIZE <? th) then
    let scale := minScale (scaleFor tw) (scaleFor th) in
    if Qltb scale tenth then None else Some scale
  else Some 1%Q.

(** [imageData.x * imageData.width * scale] and the three other arguments
    of the draw; every product is a double. *)
Definition drawOf (scale : Q) (imageData : Image.t) : Draw :=
  {| dx := Double.mul (Double.mul (inject_Z (Image.x imageData))
                                  (inject_Z (Image.width imageData))) scale;
     dy := Double.mul (Double.mul (inject_Z (Image.y imageData))
                                  (inject_Z (Image.height imageData))) scale;
     dWidth := Double.mul (inject_Z (Image.width imageData)) scale;
     dHeight := Double.mul (inject_Z (Image.height imageData)) scale |}.

(** The canvas geometry of [combineImages] and [createPDF] (the two copies
    of the code are the same). *)
Definition canvasLayout (images : list Image.t) : ContentError + Layout :=
  match images with
  | [] => inl NoImagesProvided
  | first :: rest =>
      let tw := totalWidth first rest in
      let th := totalHeight first rest in
      match canvasScale tw th with
      | None => inl (PageTooLarge tw th)
      | Some scale =>
          inr {| scale := scale;
                 canvasWidth := Qfloor (Double.mul (inject_Z tw) scale);
                 canvasHeight := Qfloor (Double.mul (inject_Z th) scale);
                 draws := map (drawOf scale) images |}
      end
  end.

(** The index of the first image, counting from [i], that does not load. *)
Fixpoint firstUndecoded (host : Host) (i : nat) (images : list Image.t)
  : option nat :=
  match images with
  | [] => None
  | _ :: rest =>
      if decodes host i then firstUndecoded host (Datatypes.S i) rest
      else Some i
  end.

(** The draws of the images that load, the image of index [i] first; an
    image draws itself when it has loaded, and they are recorded in the
    order of their indices. *)
Fixpoint drawImages (host : Host) (i : nat) (ds : list Draw) : M unit :=
  match ds with
  | [] => ret tt
  | d :: rest =>
      (if decodes host i
       then emit (EvDraw (dx d) (dy d) (dWidth d) (dHeight d))
       else ret tt) ;;
      drawImages host (Datatypes.S i) rest
  end.

(** The function injected into the page: it catches its own errors and
    returns them in the [error] field of its result. *)
Definition composeInContent (host : Host) (mime : string) (options : Options)
           (images : list Image.t) : M (ContentError + string) :=
  match images with
  | [] => ret (inl NoImagesProvided)
  | _ =>
      match firstBadData 0 images with
      | Some i => ret (inl (InvalidImageData i))
      | None =>
          if negb (canvasContext host) then ret (inl NoCanvasContext)
          else
            match canvasLayout images with
            | inl e => ret (inl e)
            | inr layout =>
                emit (EvCanvas (canvasWidth layout) (canvasHeight layout)) ;;
                drawImages host 0 (draws layout) ;;
                match firstUndecoded host 0 images with
                | Some i => ret (inl (TileDecodeFailed i))
                | None =>
                    emit (EvEncode mime (quality options)) ;;
                    ret (inr (encoded host))
                end
            end
      end
  end.

(** What a run resolves with: [{success: true, filename}], where the file
    name is [screenshot_<time>.<extension>] or ['PDF']. *)
Inductive Result : Type :=
| Saved (extension : string)
| PdfTab.

(** The injection of the compositing function and the test for a result. *)
Definition inject (host : Host) (mime : string) (options : Options)
           (images : list Image.t) : M (ContentError + string) :=
  match injectionRejects host with
  | Some message => throw (HostError message)
  | None =>
      if injectionEmpty host then throw NoContentResult
      else composeInContent host mime options images
  end.

(** [chrome.downloads.download({url, filename, saveAs: true})]. *)
Definition download (host : Host) (url extension : string) : M unit :=
  emit (EvDownload url extension) ;;
  match downloadRejects host with
  | Some message => throw (HostError message)
  | None => ret tt
  end.

Definition combineImages (host : Host) (images : list Image.t)
           (options : Options) : M Result :=
  resultData <- inject host ("image/" ++ format options) options images ;;
  match resultData with
  | inl e => throw (CombineFailed e)
  | inr combinedImageDataUrl =>
      if negb (truthy combinedImageDataUrl) then throw InvalidContentResult
      else
        download host combinedImageDataUrl (format options) ;;
        ret (Saved (format options))
  end.

Definition generateAndDownloadPDF (host : Host) : M Result :=
  match pdfTabRejects host with
  | Some message => throw (PdfTabFailed message)
  | None => ret PdfTab
  end.

Definition createPDF (host : Host) (images : list Image.t)
           (options : Options) : M Result :=
  resultData <- inject host "image/png" options images ;;
  match resultData with
  | inl e => throw (PdfFailed e)
  | inr combinedImageDataUrl =>
      if negb (truthy combinedImageDataUrl) then throw InvalidContentResult
      else generateAndDownloadPDF host
  end.

Definition createSingleImagePDF (host : Host) (image : string)
           (options : Options) : M Result :=
  match injectionRejects host with
  | Some message => throw (HostError message)
  | None =>
      if injectionEmpty host then throw NoContentResult
      else generateAndDownloadPDF host
  end.

Definition saveSingleImage (host : Host) (image : string)
           (options : Options) : M Result :=
  download host image (format options) ;;
  ret (Saved (format options)).

Definition processImages (host : Host) (images : list Image.t)
           (options : Options) : M Result :=
  if (format options =? "pdf")%string then createPDF host images options
  else combineImages host images options.

Definition processSingleImage (host : Host) (image : string)
           (options : Options) : M Result :=
  if (format options =? "pdf")%string then createSingleImagePDF host image options
  else saveSingleImage host image options.

(** ** captureScreenshot and its flag *)

(** The test and the assignment that open [captureScreenshot]; no [await]
    separates them. *)
Definition enter : M unit :=
  busy <- getCapturing ;;
  if busy then throw CaptureInProgress else setCapturing true.

(** The [finally] block. *)
Definition release : M unit := setCapturing false.

(** [preparePage] catches the rejection of its injection and goes on. *)
Definition preparePage (host : Host) (options : Options) : M unit := ret tt.

(** The body of the [try] block. *)
Definition captureBody (host : Host) (options : Options) (fullPage : bool)
  : M Result :=
  preparePage host options ;;
  if fullPage then
    images <- captureFullPage host options ;;
    processImages host images options
  else
    image <- captureVisibleArea options ;;
    processSingleImage host image options.

Definition captureScreenshot (host : Host) (options : Options)
           (fullPage : bool) : M Result :=
  enter ;;
  try_finally (captureBody host options fullPage) release.

(** ** Invocations that overlap *)

(** The background script runs on one thread: an invocation of
    [captureScreenshot] runs from its call to its first [await], which lies
    inside the [try] block, without interruption; other invocations can
    start only while it waits.  An invocation is thus seen in two steps: the
    call, which runs [enter], and the end of its [try] block, returning or
    throwing, which runs [release]. *)
Module Calls.

Inductive phase : Type :=
| NotCalled
| Running
| Settled (o : outcome Result).

Record system : Type := mkSystem {
  world : World;
  calls : nat -> phase
}.

Inductive action : Type :=
| Call (i : nat)
| Finish (i : nat) (o : outcome Result).

Definition set (i : nat) (p : phase) (f : nat -> phase) : nat -> phase :=
  fun j => if Nat.eqb j i then p else f j.

Definition step (s : system) (a : action) : system :=
  match a with
  | Call i =>
      match calls s i with
      | NotCalled =>
          match enter (world s) with
          | (Returned _, w) => {| world := w; calls := set i Running (calls s) |}
          | (Threw e, w) => {| world := w; calls := set i (Settled (Threw e)) (calls s) |}
          | (Pending, _) => s
          end
      | _ => s
      end
  | Finish i o =>
      match calls s i, o with
      | Running, Pending => s
      | Running, _ =>
          {| world := snd (release (world s));
             calls := set i (Settled o) (calls s) |}
      | _, _ => s
      end
  end.

(** No capture is active and no invocation has been made. *)
Definition init (w : World) : system :=
  {| world := {| isCapturing := false; captures := captures w; trace := trace w |};
     calls := fun _ => NotCalled |}.

Definition run (s : system) (acts : list action) : system :=
  fold_left step acts s.

Definition reachable (s : system) : Prop :=
  exists w acts, s = run (init w) acts.

(** The flag is up exactly while some invocation is inside its [try]
    block, and at most one is. *)
Definition invariant (s : system) : Prop :=
  (isCapturing (world s) = true <-> exists i, calls s i = Running)
  /\ (forall i j, calls s i = Running -> calls s j = Running -> i = j).

End Calls.

Arguments Calls.set : simpl never.

(** ** Readings of a trace and sample inputs *)

(** The waits of a trace, in order. *)
Definition waitsOf (tr : list event) : list Z :=
  flat_map (fun e => match e with EvWait ms => [ms] | _ => [] end) tr.

(** The number of captures a trace issues. *)
Definition captureCount (tr : list event) : nat :=
  List.length (filter (fun e => match e with EvCapture _ _ => true | _ => false end) tr).

(** A computation only adds to the trace, and every event it adds
    satisfies [P]. *)
Definition adds (P : event -> Prop) {A} (c : M A) : Prop :=
  forall w, exists added,
    trace (snd (c w)) = trace w ++ added /\ Forall P added.

(** What the capture requests and the canvas encodings of a run with the
    given options look like: every capture asks for the format ["png"] at
    the quality [Math.round(options.quality * 100)], and the requested
    format appears only as the type the canvas is encoded to. *)
Definition requestsPng (options : Options) (e : event) : Prop :=
  match e with
  | EvCapture fmt q =>
      fmt = "png"%string
      /\ q = round (Double.mul (Double.nearest (quality options)) 100)
  | EvEncode mime q =>
      mime = (if (format options =? "pdf")%string then "image/png"
              else "image/" ++ format options)%string
      /\ q = quality options
  | _ => True
  end.

(** The grid position and the recorded size of a captured segment, and
    the same of a planned cell. *)
Definition geometry (img : Image.t) : Z * Z * Z * Z :=
  (Image.x img, Image.y img, Image.width img, Image.height img).
Definition planned (c : Cell) : Z * Z * Z * Z :=
  (gridX c, gridY c, actualWidth c, actualHeight c).

(** The segment was captured before the loops reach the cell [(x, y)]. *)
Definition before (x y : Z) (img : Image.t) : Prop :=
  Image.y img < y \/ (Image.y img = y /\ Image.x img < x).

(** The segment carries image data. *)
Definition hasImageData (img : Image.t) : Prop :=
  isImageData (Image.dataUrl img) = true.

(** The retry counts [r + 1, ..., r + k]. *)
Definition retryNumbers (r : Z) (k : nat) : list Z :=
  map (fun i => r + Z.of_nat i) (seq 1 k).

(** What [k] rate-limited captures in a row add to the trace, from a retry
    count of [r]: each capture and the wait that follows it. *)
Definition backoffTrace (q r : Z) (k : nat) : list event :=
  flat_map (fun n => [EvCapture "png" q; EvWait (waitTime n)]) (retryNumbers r k).

(** The rejection is the rate-limit signal. *)
Definition rateLimited (message : string) : Prop :=
  includes rateLimitMarker message = true.

(** A data URL as [captureVisibleTab] resolves with. *)
Definition pngData : string := "data:image/png;base64,iVBORw0KGgo=".

(** The rejection Chrome gives when the capture quota is exceeded. *)
Definition quotaMessage : string :=
  "This request exceeds the MAX_CAPTURE_VISIBLE_TAB_CALLS_PER_SECOND quota.".

(** A host on which nothing but the captures can fail. *)
Definition quietHost (d : DimsResponse) : Host :=
  {| dimensions := d;
     injectionRejects := None;
     injectionEmpty := false;
     canvasContext := true;
     decodes := fun _ => true;
     encoded := pngData;
     downloadRejects := None;
     pdfTabRejects := None |}.

(** The nine segments of a 3 by 3 grid of tiles of 20000 by 20000, in the
    order the capture loop delivers them. *)
Definition hugeGrid : list Image.t :=
  flat_map (fun y => map (fun x => Image.mk pngData x y 20000 20000) (indices 3))
           (indices 3).

(** No capture active, nothing traced yet, and the given answers to come. *)
Definition idle (script : list response) : World :=
  {| isCapturing := false; captures := script; trace := [] |}.

Definition sampleOptions : Options :=
  {| quality := 9 # 10; format := "jpeg"; captureSpeed := "medium" |}.

(** ** A capture loop that meets no failure *)


(** The segments the loop pushes when the captures of the given cells are
    answered, in order, with the given data. *)
Fixpoint capturedImages (cells : list Cell) (ds : list string) : list Image.t :=
  match cells, ds with
  | c :: cells', d :: ds' =>
      Image.mk d (gridX c) (gridY c) (actualWidth c) (actualHeight c)
      :: capturedImages cells' ds'
  | _, _ => []
  end.




(** The cells of row [y] in the columns [xs]. *)
Definition rowCells (m : PageMetrics) (y : Z) (xs : list Z) : list Cell :=
  map (fun x => cell m x y) xs.

(** The cells of the rows [ys], each of [nx] columns. *)
Definition rowsCells (m : PageMetrics) (nx : Z) (ys : list Z) : list Cell :=
  flat_map (fun y => rowCells m y (indices nx)) ys.

(** ** Readings of a run *)

(** The downloads of a trace, in order: the URL saved and the extension of
    the file name. *)
Definition downloadsOf (tr : list event) : list (string * string) :=
  flat_map (fun e => match e with EvDownload url ext => [(url, ext)] | _ => [] end) tr.

(** The event is not a download. *)
Definition noDownload (e : event) : Prop :=
  match e with
  | EvDownload _ _ => False
  | _ => True
  end.

(** What the downloads of a run have to do with its outcome: a run that
    resolves with a file name has saved exactly one file, of the extension
    of the requested format; a run that opens the print tab, a run that is
    still waiting and a run that throws have saved none, unless what threw
    is the download itself. *)
Definition outcomeDownloads (host : Host) (options : Options)
           (o : outcome Result) (saved : list (string * string)) : Prop :=
  match o with
  | Returned (Saved ext) =>
      ext = format options /\ exists url, saved = [(url, ext)]
  | Returned PdfTab => saved = []
  | Threw e =>
      saved = []
      \/ exists message url,
          downloadRejects host = Some message /\ e = HostError message
          /\ saved = [(url, format options)]
  | Pending => saved = []
  end.

(** The event does not set a canvas up beyond the limit. *)
Definition canvasFits (e : event) : Prop :=
  match e with
  | EvCanvas width height =>
      width <= MAX_CANVAS_SIZE /\ height <= MAX_CANVAS_SIZE
  | _ => True
  end.

(** [a] may stay before [b] in the sorted list: its row is above, or it is
    the same row and its column is not to the right. *)
Definition imageLe (a b : Image.t) : Prop :=
  Image.y a < Image.y b \/ (Image.y a = Image.y b /\ Image.x a <= Image.x b).

(** ** Progress and file names *)

(** [Math.round((segmentIndex / totalSegments) * 80) + 20], what the loop
    reports after a segment, for a total that is a finite number (in exact
    arithmetic). *)
Definition progressAfter (segmentIndex totalSegments : Z) : Z :=
  round (inject_Z segmentIndex / inject_Z totalSegments * 80)%Q + 20.

(** [s.replace(/:/g, '-')]. *)
Fixpoint replaceColons (s : string) : string :=
  match s with
  | EmptyString => EmptyString
  | String c rest =>
      String (if Ascii.eqb c ":" then "-"%char else c) (replaceColons rest)
  end.

(** [`screenshot_${iso.slice(0, 19).replace(/:/g, '-')}.${extension}`],
    where [iso] is what [new Date().toISOString()] returns. *)
Definition screenshotFilename (iso extension : string) : string :=
  ("screenshot_" ++ replaceColons (substring 0 19 iso) ++ "." ++ extension)%string.

(** The string contains a colon. *)
Fixpoint hasColon (s : string) : bool :=
  match s with
  | EmptyString => false
  | String c rest => Ascii.eqb c ":" || hasColon rest
  end.

(** ** The popup and the message listener of the background script *)

Module Popup.

(** The elements of the popup the script writes to. *)
Record UI : Type := mkUI {
  captureBtnDisabled : bool;         (* captureBtn.disabled *)
  captureVisibleBtnDisabled : bool;  (* captureVisibleBtn.disabled *)
  statusText : string;               (* status.textContent *)
  statusClass : string;              (* status.className *)
  statusDisplay : string;            (* status.style.display *)
  progressDisplay : string;          (* progress.style.display *)
  progressPercent : Z                (* progressBar.style.width, as `${percent}%` *)
}.

Definition showStatus (message type : string) (ui : UI) : UI :=
  {| captureBtnDisabled := captureBtnDisabled ui;
     captureVisibleBtnDisabled := captureVisibleBtnDisabled ui;
     statusText := message;
     statusClass := "status " ++ type;
     statusDisplay := "block";
     progressDisplay := progressDisplay ui;
     progressPercent := progressPercent ui |}.

Definition hideStatus (ui : UI) : UI :=
  {| captureBtnDisabled := captureBtnDisabled ui;
     captureVisibleBtnDisabled := captureVisibleBtnDisabled ui;
     statusText := statusText ui;
     statusClass := statusClass ui;
     statusDisplay := "none";
     progressDisplay := progressDisplay ui;
     progressPercent := progressPercent ui |}.

Definition showProgress (ui : UI) : UI :=
  {| captureBtnDisabled := captureBtnDisabled ui;
     captureVisibleBtnDisabled := captureVisibleBtnDisabled ui;
     statusText := statusText ui;
     statusClass := statusClass ui;
     statusDisplay := statusDisplay ui;
     progressDisplay := "block";
     progressPercent := 0 |}.

Definition updateProgress (percentage : Z) (ui : UI) : UI :=
  {| captureBtnDisabled := captureBtnDisabled ui;
     captureVisibleBtnDisabled := captureVisibleBtnDisabled ui;
     statusText := statusText ui;
     statusClass := statusClass ui;
     statusDisplay := statusDisplay ui;
     progressDisplay := progressDisplay ui;
     progressPercent := percentage |}.

Definition hideProgress (ui : UI) : UI :=
  {| captureBtnDisabled := captureBtnDisabled ui;
     captureVisibleBtnDisabled := captureVisibleBtnDisabled ui;
     statusText := statusText ui;
     statusClass := statusClass ui;
     statusDisplay := statusDisplay ui;
     progressDisplay := "none";
     progressPercent := progressPercent ui |}.

Definition setButtons (disabled : bool) (ui : UI) : UI :=
  {| captureBtnDisabled := disabled;
     captureVisibleBtnDisabled := disabled;
     statusText := statusText ui;
     statusClass := statusClass ui;
     statusDisplay := statusDisplay ui;
     progressDisplay := progressDisplay ui;
     progressPercent := progressPercent ui |}.

Definition disableButtons : UI -> UI := setButtons true.
Definition enableButtons : UI -> UI := setButtons false.

(** How [chrome.tabs.query] ends: with an active tab, with none, or
    rejected. *)
Inductive tabQuery : Type :=
| TabFound
| NoTab
| QueryRejected (message : string).

(** The notifications of the background script, handled by the popup's
    own message listener while the capture runs. *)
Inductive notice : Type :=
| UpdateProgress (progress : Z)
| UpdateStatus (message type : string).

Definition receive (ui : UI) (n : notice) : UI :=
  match n with
  | UpdateProgress progress => updateProgress progress ui
  | UpdateStatus message type => showStatus message type ui
  end.

(** How [chrome.runtime.sendMessage] ends: resolved with the response
    object ([error] is empty when the object has none), resolved with
    nothing, so that reading [response.success] throws a [TypeError] of the
    given message, or rejected. *)
Inductive answer : Type :=
| Answered (success : bool) (error : string)
| AnsweredNothing (typeError : string)
| SendRejected (message : string).

(** The [catch] block. *)
Definition failed (message : string) (ui : UI) : UI :=
  hideProgress (showStatus ("Error: " ++ message) "error" ui).

(** The popup's [captureScreenshot], from the click to the end of its
    [finally] block; [None] for the answer means that the background
    script never answers, and the result is then the popup as it waits. *)
Definition captureScreenshot (tab : tabQuery) (notices : list notice)
           (ans : option answer) (ui : UI) : UI :=
  let ui :=
    updateProgress 10
      (showStatus "Starting capture..." "info"
         (showProgress (hideStatus (disableButtons ui)))) in
  match tab with
  | QueryRejected message => enableButtons (failed message ui)
  | NoTab => enableButtons (failed "No active tab found" ui)
  | TabFound =>
      let ui :=
        updateProgress 20 (showStatus "Preparing page for capture..." "info" ui) in
      let ui := fold_left receive notices ui in
      match ans with
      | None => ui
      | Some (SendRejected message) => enableButtons (failed message ui)
      | Some (AnsweredNothing message) => enableButtons (failed message ui)
      | Some (Answered true _) =>
          enableButtons
            (updateProgress 100
               (showStatus "Screenshot captured successfully!" "success" ui))
      | Some (Answered false error) =>
          enableButtons
            (failed (if truthy error then error
                     else "Failed to capture screenshot") ui)
      end
  end.

End Popup.

(** The message listener of the background script, for the action
    ['captureScreenshot']: the result of the run is sent back as it is, an
    error as [{success: false, error: error.message}]; nothing is sent
    while the run has not ended.  [messageOf] gives the message of an
    error. *)
Definition respond (messageOf : error -> string) (o : outcome Result)
  : option Popup.answer :=
  match o with
  | Returned _ => Some (Popup.Answered true "")
  | Threw e => Some (Popup.Answered false (messageOf e))
  | Pending => None
  end.

(** ** The content script: preparing and restoring the page *)

Module Page.

(** An element of the page, as far as the helper looks at it.  [floating]
    says that the element matches the selector of [cleanupPage] for
    tooltips, popups, modals, dropdowns, notifications and elements of
    fixed position; [media] that it is a [video] or [audio] element.
    [node] is the identity of the element. *)
Record Element : Type := mkElement {
  node : nat;
  floating : bool;
  media : bool;
  autoplay : bool;
  display : string;   (* element.style.display *)
  opacity : string;   (* element.style.opacity *)
  paused : bool
}.

(** The page: its elements in document order, the children of
    [document.head] that are style elements (identity and [id]), the
    identity the next created element gets, and the two font settings of
    [document.body.style]. *)
Record Document : Type := mkDocument {
  elements : list Element;
  head : list (nat * string);
  nextNode : nat;
  webkitFontSmoothing : string;
  mozOsxFontSmoothing : string
}.

(** The fields of [PageScreenshotHelper]: the [Map] from elements to their
    saved [display], in insertion order, and the injected elements. *)
Record Helper : Type := mkHelper {
  originalStyles : list (nat * string);
  injectedElements : list nat
}.

(** [new PageScreenshotHelper()]. *)
Definition newHelper : Helper :=
  {| originalStyles := []; injectedElements := [] |}.

(** [map.set(key, value)]: the value of a key that is there is replaced
    where it stands, a new key goes to the end. *)
Fixpoint mapSet (key : nat) (value : string) (entries : list (nat * string))
  : list (nat * string) :=
  match entries with
  | [] => [(key, value)]
  | (k, v) :: rest =>
      if Nat.eqb k key then (key, value) :: rest
      else (k, v) :: mapSet key value rest
  end.

(** [map.get(key)]. *)
Fixpoint mapGet (key : nat) (entries : list (nat * string)) : option string :=
  match entries with
  | [] => None
  | (k, v) :: rest => if Nat.eqb k key then Some v else mapGet key rest
  end.

Definition setDisplay (value : string) (e : Element) : Element :=
  {| node := node e; floating := floating e; media := media e;
     autoplay := autoplay e; display := value; opacity := opacity e;
     paused := paused e |}.

Definition setOpacity (value : string) (e : Element) : Element :=
  {| node := node e; floating := floating e; media := media e;
     autoplay := autoplay e; display := display e; opacity := value;
     paused := paused e |}.

(** [element.pause()]. *)
Definition pause (e : Element) : Element :=
  {| node := node e; floating := floating e; media := media e;
     autoplay := autoplay e; display := display e; opacity := opacity e;
     paused := true |}.

(** [document.createElement('style')], given its [id], appended to
    [document.head] and pushed on [injectedElements]. *)
Definition injectStyle (id : string) (s : Document * Helper) : Document * Helper :=
  let '(doc, helper) := s in
  ({| elements := elements doc;
      head := head doc ++ [(nextNode doc, id)];
      nextNode := Datatypes.S (nextNode doc);
      webkitFontSmoothing := webkitFontSmoothing doc;
      mozOsxFontSmoothing := mozOsxFontSmoothing doc |},
   {| originalStyles := originalStyles helper;
      injectedElements := injectedElements helper ++ [nextNode doc] |}).

(** [hideScrollbars(hide = true)]: [None] stands for [undefined], which
    the default turns into [true]. *)
Definition hideScrollbars (hide : option bool) (s : Document * Helper)
  : Document * Helper :=
  match hide with
  | Some false => s
  | _ => injectStyle "screenshot-extension-scrollbar-hide" s
  end.

(** The first loop of [cleanupPage], over the floating elements in
    document order: an element not yet hidden has its [display] saved and
    is hidden. *)
Fixpoint hideFloating (els : list Element) (saved : list (nat * string))
  : list Element * list (nat * string) :=
  match els with
  | [] => ([], saved)
  | e :: rest =>
      if floating e && negb (display e =? "none")%string then
        let '(rest', saved') :=
          hideFloating rest (mapSet (node e) (display e) saved) in
        (setDisplay "none" e :: rest', saved')
      else
        let '(rest', saved') := hideFloating rest saved in
        (e :: rest', saved')
  end.

(** The second loop of [cleanupPage], over the media elements. *)
Definition silence (e : Element) : Element :=
  if media e && autoplay e then setOpacity "0" (pause e) else e.

Definition cleanupPage (s : Document * Helper) : Document * Helper :=
  let '(doc, helper) := s in
  let '(els, saved) := hideFloating (elements doc) (originalStyles helper) in
  ({| elements := map silence els;
      head := head doc;
      nextNode := nextNode doc;
      webkitFontSmoothing := webkitFontSmoothing doc;
      mozOsxFontSmoothing := mozOsxFontSmoothing doc |},
   {| originalStyles := saved;
      injectedElements := injectedElements helper |}).

(** [prepareForScreenshot(options)]; [waitForImages] is started and not
    awaited, and changes nothing of the page. *)
Definition prepareForScreenshot (hideScrollbar : option bool)
           (s : Document * Helper) : Document * Helper :=
  cleanupPage (hideScrollbars hideScrollbar s).

(** [optimizeForScreenshot()]. *)
Definition optimizeForScreenshot (s : Document * Helper) : Document * Helper :=
  let '(doc, helper) := s in
  injectStyle "screenshot-extension-optimize"
    ({| elements := elements doc;
        head := head doc;
        nextNode := nextNode doc;
        webkitFontSmoothing := "antialiased";
        mozOsxFontSmoothing := "grayscale" |}, helper).

(** [element.parentNode.removeChild(element)] for a child of the head, if
    it is one. *)
Definition removeChild (n : nat) (children : list (nat * string))
  : list (nat * string) :=
  filter (fun c => negb (Nat.eqb (fst c) n)) children.

(** [element.style.display = originalStyle] for the element of identity
    [n]. *)
Definition restoreDisplay (els : list Element) (entry : nat * string)
  : list Element :=
  map (fun e => if Nat.eqb (node e) (fst entry) then setDisplay (snd entry) e else e)
      els.

(** [restorePage()]. *)
Definition restorePage (s : Document * Helper) : Document * Helper :=
  let '(doc, helper) := s in
  let els := fold_left restoreDisplay (originalStyles helper) (elements doc) in
  ({| elements := map (fun e => if media e then setOpacity "" e else e) els;
      head := fold_left (fun children n => removeChild n children)
                        (injectedElements helper) (head doc);
      nextNode := nextNode doc;
      webkitFontSmoothing := webkitFontSmoothing doc;
      mozOsxFontSmoothing := mozOsxFontSmoothing doc |},
   newHelper).

(** What the messages to the content script and the background script's
    injections make the helper do. *)
Inductive action : Type :=
| Prepare (hideScrollbar : option bool)
| Optimize
| Restore.

Definition step (s : Document * Helper) (a : action) : Document * Helper :=
  match a with
  | Prepare hideScrollbar => prepareForScreenshot hideScrollbar s
  | Optimize => optimizeForScreenshot s
  | Restore => restorePage s
  end.

Definition run (acts : list action) (s : Document * Helper) : Document * Helper :=
  fold_left step acts s.

(** The page is well formed: its elements are distinct, and the style
    elements of its head were created before any the helper creates. *)
Definition wellFormed (doc : Document) : Prop :=
  NoDup (map node (elements doc))
  /\ Forall (fun c => (fst c < nextNode doc)%nat) (head doc).

(** The test of the first loop of [cleanupPage], and what the loop does
    to one element. *)
Definition toHide (e : Element) : bool :=
  floating e && negb (display e =? "none")%string.

Definition hidden (e : Element) : Element :=
  if toHide e then setDisplay "none" e else e.

(** What the second loop of [restorePage] does to one element. *)
Definition restored (saved : list (nat * string)) (e : Element) : Element :=
  fold_left
    (fun e entry => if Nat.eqb (node e) (fst entry) then setDisplay (snd entry) e else e)
    saved e.

(** An element [e] of the page against the element [e0] it was before the
    helper touched the page: the same element, and its [display] is the
    one it had unless the helper holds that one in its map, in which case
    the element is hidden. *)
Definition tracked (saved : list (nat * string)) (e e0 : Element) : Prop :=
  node e = node e0
  /\ (~ In (node e) (map fst saved) -> display e = display e0)
  /\ (forall v, In (node e, v) saved -> v = display e0 /\ display e = "none"%string).

(** The helper's record of what it did to the page [doc0]. *)
Definition invariant (doc0 : Document) (s : Document * Helper) : Prop :=
  Forall2 (tracked (originalStyles (snd s))) (elements (fst s)) (elements doc0)
  /\ (exists extra,
         head (fst s) = head doc0 ++ extra
         /\ map fst extra = injectedElements (snd s))
  /\ Forall (fun n => (nextNode doc0 <= n)%nat) (injectedElements (snd s))
  /\ (nextNode doc0 <= nextNode (fst s))%nat.

End Page.

(** * Properties *)

(** ** Tile geometry *)

Lemma indices_In (n i : Z) : In i (indices n) <-> 0 <= i < n.
Proof.
  unfold indices. rewrite in_map_iff. split.
  - intros [k [<- Hk]]. apply in_seq in Hk. lia.
  - intros H. exists (Z.to_nat i). split; [lia|]. apply in_seq. lia.
Qed.

Lemma indices_length (n : Z) : List.length (indices n) = Z.to_nat n.
Proof. unfold indices. now rewrite length_map, length_seq. Qed.

(** On a positive viewport the segment count is the ceiling of the
    quotient, and at least one. *)
Lemma segments_pos_viewport (scroll viewport : Z) :
  0 < viewport ->
  exists n, segments scroll viewport = Fin n /\ 1 <= n
            /\ (0 <= scroll -> scroll <= n * viewport)
            /\ (1 < n -> (n - 1) * viewport < scroll).
Proof.
  intros Hv. unfold segments, floor_div, rem.
  destruct (Z.eqb_spec viewport 0) as [->|_]; [lia|]. cbn.
  eexists; split; [reflexivity|].
  destruct (Z.ltb_spec 0 (Z.rem scroll viewport));
    Z.to_euclidean_division_equations; nia.
Qed.

(** The code's segment count is the specification's, on every input a page
    can give: a scroll extent that is not negative, or a positive
    viewport. *)
Lemma segments_is_spec_columns (scroll viewport : Z) :
  0 <= scroll \/ 0 < viewport ->
  segments scroll viewport = spec_columns scroll viewport.
Proof.
  intros H. unfold segments, spec_columns, floor_div, ceil_div, rem.
  destruct (Z.eqb_spec viewport 0) as [->|Hv].
  - destruct (0 <? scroll), (scroll <? 0); reflexivity.
  - cbn. f_equal.
    destruct (Z.ltb_spec 0 (Z.rem scroll viewport));
      Z.to_euclidean_division_equations; nia.
Qed.

(** C2: the planner computes [max(1, ceil(scroll / viewport))] segments
    along an axis, puts segment [col] at
    [min(col * viewport, max(0, scroll - viewport))] and records
    [min(viewport, scroll - offset)] as its size; for a scroll width of 2500
    and a viewport width of 1000 this gives 3 columns at offsets 0, 1000 and
    1500, each 1000 wide. *)
Theorem planner_formulas (scroll viewport : Z) :
  0 <= scroll \/ 0 < viewport ->
  segments scroll viewport = spec_columns scroll viewport
  /\ (forall col, scrollPos col scroll viewport = spec_offset col scroll viewport)
  /\ (forall col, actualSize col scroll viewport
                  = spec_actual viewport scroll (spec_offset col scroll viewport))
  /\ segments 2500 1000 = Fin 3
  /\ axisPlan 2500 1000 = Some [(0, 1000); (1000, 1000); (1500, 1000)].
Proof.
  intros H. split; [now apply segments_is_spec_columns|].
  repeat split; reflexivity.
Qed.

Lemma planner_formulas_witness :
  segments 2500 1000 = spec_columns 2500 1000
  /\ segments 0 0 = spec_columns 0 0
  /\ segments 700 (-300) = spec_columns 700 (-300).
Proof.
  split; [|split].
  - apply (planner_formulas 2500 1000). left. lia.
  - apply (planner_formulas 0 0). left. lia.
  - apply (planner_formulas 700 (-300)). left. lia.
Defined.

(** Along one axis the segments leave no gap: every pixel of the page is
    in the segment of some index below the count. *)
Lemma axis_no_gap (scroll viewport n p : Z) :
  0 < viewport -> segments scroll viewport = Fin n -> 0 <= p < scroll ->
  exists i, 0 <= i < n
            /\ covers (scrollPos i scroll viewport, actualSize i scroll viewport) p.
Proof.
  intros Hv Hn Hp.
  destruct (segments_pos_viewport scroll viewport Hv) as (n' & Hn' & H1 & Hup & Hlow).
  rewrite Hn in Hn'. injection Hn' as <-.
  unfold covers, actualSize, scrollPos; cbn [fst snd].
  destruct (Z_le_gt_dec scroll viewport) as [Hsmall|Hbig].
  - exists 0. lia.
  - destruct (Z_le_gt_dec ((p / viewport) * viewport) (scroll - viewport)) as [Hin|Hlast].
    + exists (p / viewport).
      assert (0 <= p / viewport) by (apply Z.div_pos; lia).
      pose proof (Z.mul_div_le p viewport Hv).
      pose proof (Z.mod_pos_bound p viewport Hv).
      pose proof (Z.div_mod p viewport ltac:(lia)).
      split; [nia|]. split; lia.
    + exists (n - 1).
      pose proof (Z.mul_div_le p viewport Hv).
      assert (1 < n) by nia.
      split; [lia|]. specialize (Hlow ltac:(lia)). split; nia.
Qed.

(** Along one axis every segment lies within the page. *)
Lemma axis_within (scroll viewport i p : Z) :
  0 < viewport -> 0 <= scroll -> 0 <= i ->
  covers (scrollPos i scroll viewport, actualSize i scroll viewport) p ->
  0 <= p < scroll.
Proof.
  unfold covers, actualSize, scrollPos; cbn [fst snd]. intros Hv Hs Hi H. nia.
Qed.

(** Where the page is wider than the viewport, every segment is as wide as
    the viewport: the last one is not narrower. *)
Lemma actualSize_is_viewport (scroll viewport i : Z) :
  0 < viewport -> viewport <= scroll ->
  actualSize i scroll viewport = viewport.
Proof. unfold actualSize, scrollPos. lia. Qed.

(** Along one axis two different segments share a pixel exactly when the
    page is wider than the viewport and not a multiple of it. *)
Lemma axis_overlap_iff (scroll viewport n : Z) :
  0 < viewport -> 0 <= scroll -> segments scroll viewport = Fin n ->
  (exists i j p, 0 <= i < j /\ j < n
      /\ covers (scrollPos i scroll viewport, actualSize i scroll viewport) p
      /\ covers (scrollPos j scroll viewport, actualSize j scroll viewport) p)
  <-> (viewport < scroll /\ scroll mod viewport <> 0).
Proof.
  intros Hv Hs Hn.
  destruct (segments_pos_viewport scroll viewport Hv) as (n' & Hn' & H1 & Hup & Hlow).
  rewrite Hn in Hn'. injection Hn' as <-. specialize (Hup Hs).
  unfold covers, actualSize, scrollPos; cbn [fst snd]. split.
  - intros (i & j & p & Hij & Hj & Hi & Hjp).
    specialize (Hlow ltac:(lia)).
    assert (Hbig : viewport < scroll) by nia.
    split; [assumption|]. intros Hdiv.
    pose proof (Z.div_mod scroll viewport ltac:(lia)) as Hdm.
    rewrite Hdiv in Hdm.
    assert (n = scroll / viewport) by nia. nia.
  - intros [Hbig Hrem]. assert (1 < n) by nia. specialize (Hlow ltac:(lia)).
    pose proof (Z.div_mod scroll viewport ltac:(lia)) as Hdm.
    pose proof (Z.mod_pos_bound scroll viewport Hv) as Hb.
    assert (Hn2 : n = scroll / viewport + 1) by nia.
    exists (n - 2), (n - 1), (scroll - viewport). nia.
Qed.

Lemma gridPlan_In (m : PageMetrics) (nx ny : Z) (c : Cell) :
  segmentsX m = Fin nx -> segmentsY m = Fin ny ->
  forall cells, gridPlan m = Some cells ->
  (In c cells <-> exists x y, 0 <= x < nx /\ 0 <= y < ny /\ c = cell m x y).
Proof.
  intros Hx Hy cells. unfold gridPlan. rewrite Hx, Hy. intros [= <-].
  rewrite in_flat_map. split.
  - intros (y & Iy & Ic). apply in_map_iff in Ic as (x & <- & Ix).
    apply indices_In in Iy, Ix. now exists x, y.
  - intros (x & y & Ix & Iy & ->). exists y. split; [now apply indices_In|].
    apply in_map_iff. exists x. split; [reflexivity|now apply indices_In].
Qed.

(** The part of the tiling that holds: on a positive viewport the planned
    grid has columns * rows cells, and they show every pixel of the page. *)
Lemma grid_covers_page (m : PageMetrics) :
  0 < viewportWidth m -> 0 < viewportHeight m ->
  exists nx ny cells,
    segmentsX m = Fin nx /\ segmentsY m = Fin ny /\ gridPlan m = Some cells
    /\ Z.of_nat (List.length cells) = nx * ny
    /\ forall px py, 0 <= px < scrollWidth m -> 0 <= py < scrollHeight m ->
         exists c, In c cells /\ shows c px py.
Proof.
  intros Hw Hh.
  destruct (segments_pos_viewport (scrollWidth m) _ Hw) as (nx & Hx & Hx1 & _).
  destruct (segments_pos_viewport (scrollHeight m) _ Hh) as (ny & Hy & Hy1 & _).
  exists nx, ny. eexists. split; [exact Hx|]. split; [exact Hy|].
  split; [unfold gridPlan, segmentsX, segmentsY; rewrite Hx, Hy; reflexivity|].
  split.
  - assert (Hlen : forall l : list Z,
               List.length (flat_map (fun y => map (fun x => cell m x y) (indices nx)) l)
               = (List.length l * Z.to_nat nx)%nat).
    { induction l as [|a l IH]; [reflexivity|].
      cbn [flat_map]. rewrite length_app, IH, length_map, indices_length. cbn. lia. }
    rewrite Hlen, indices_length. lia.
  - intros px py Hpx Hpy.
    destruct (axis_no_gap _ _ _ px Hw Hx Hpx) as (x & Ix & Cx).
    destruct (axis_no_gap _ _ _ py Hh Hy Hpy) as (y & Iy & Cy).
    exists (cell m x y). split; [|split; assumption].
    apply in_flat_map. exists y. split; [now apply indices_In|].
    apply in_map_iff. exists x. split; [reflexivity|now apply indices_In].
Qed.

(** C1: the planned cells are meant to tile the page exactly, without gap
    and without overlap.  The code does not do so: for a page 2500 wide in a
    viewport 1000 wide the last column is scrolled back to 1500 and is
    still recorded 1000 wide, so columns 1 and 2 both show the pixels from
    1500 to 1999 and the recorded widths add up to 3000. *)
Theorem clamped_last_column_overlaps :
  let m := mkMetrics 2500 800 1000 800 in
  let cells := [ mkCell 0 0 0 0 1000 800;
                 mkCell 1 0 1000 0 1000 800;
                 mkCell 2 0 1500 0 1000 800 ] in
  gridPlan m = Some cells
  /\ shows (mkCell 1 0 1000 0 1000 800) 1500 0
  /\ shows (mkCell 2 0 1500 0 1000 800) 1500 0
  /\ fold_right Z.add 0 (map actualWidth cells) = 3000
  /\ ~ tilesExactly cells 2500 800.
Proof.
  cbv zeta. split; [reflexivity|].
  assert (H1 : shows (mkCell 1 0 1000 0 1000 800) 1500 0)
    by (unfold shows, covers; cbn; lia).
  assert (H2 : shows (mkCell 2 0 1500 0 1000 800) 1500 0)
    by (unfold shows, covers; cbn; lia).
  split; [exact H1|]. split; [exact H2|]. split; [reflexivity|].
  intros [_ Hdisjoint].
  specialize (Hdisjoint 1%nat 2%nat _ _ 1500 0 eq_refl eq_refl H1 H2).
  discriminate.
Qed.

(** ** A viewport that is not positive *)

(** The claim C7 fails on the code: a viewport of -1000 by -800 is planned
    as a grid of one cell and the capture of the page returns its one
    segment; nothing rejects the geometry.  With a viewport of 0 by 0 the
    column count is [Infinity]: the loop goes on capturing for as long as
    it is answered, and throws nothing. *)
Lemma negative_viewport_is_captured :
  let m := mkMetrics 2500 1600 (-1000) (-800) in
  let z := mkMetrics 2500 1600 0 0 in
  viewportWidth m <= 0
  /\ gridPlan m = Some [mkCell 0 0 0 0 (-1000) (-800)]
  /\ fst (captureFullPage (quietHost (DimsResult m)) sampleOptions
                          (idle [Resolved pngData]))
     = Returned [Image.mk pngData 0 0 (-1000) (-800)]
  /\ segmentsX z = PInf
  /\ captureFullPage (quietHost (DimsResult z)) sampleOptions
                     (idle [Resolved pngData; Resolved pngData; Resolved pngData])
     = (Pending,
        {| isCapturing := false;
           captures := [];
           trace := [EvScroll 0 0; EvWait 500; EvWait 200; EvCapture "png" 90;
                     EvWait 500;
                     EvScroll 0 0; EvWait 500; EvWait 200; EvCapture "png" 90;
                     EvWait 500;
                     EvScroll 0 0; EvWait 500; EvWait 200; EvCapture "png" 90;
                     EvWait 500;
                     EvScroll 0 0; EvWait 500; EvWait 200; EvCapture "png" 90] |}).
Proof.
  cbv zeta. split; [cbn; lia|]. split; [reflexivity|].
  split; [vm_compute; reflexivity|]. split; [reflexivity|].
  vm_compute. reflexivity.
Qed.

(** C7, amended: the planner has no check of the viewport.  On a page whose
    scroll extent is not negative, a negative viewport extent gives one
    segment along that axis, at scroll position 0 and of the viewport's
    (negative) size; a viewport extent of zero gives a segment count that is
    not a finite number: [Infinity] when the scroll extent is positive,
    [NaN] when it is zero. *)
Theorem nonpositive_viewport_is_planned (scroll viewport : Z) :
  0 <= scroll -> viewport <= 0 ->
  (viewport < 0 ->
     segments scroll viewport = Fin 1
     /\ axisPlan scroll viewport = Some [(0, viewport)])
  /\ (viewport = 0 ->
     segments scroll viewport = (if 0 <? scroll then PInf else NaN)
     /\ axisPlan scroll viewport = None).
Proof.
  intros Hs Hv. split.
  - intros Hneg.
    assert (Hseg : segments scroll viewport = Fin 1).
    { unfold segments, floor_div, rem.
      destruct (Z.eqb_spec viewport 0) as [->|_]; [lia|]. cbn. f_equal.
      destruct (Z.ltb_spec 0 (Z.rem scroll viewport));
        Z.to_euclidean_division_equations; nia. }
    split; [exact Hseg|]. unfold axisPlan. rewrite Hseg.
    change (indices 1) with [0]. cbn [map].
    assert (Hpos : scrollPos 0 scroll viewport = 0) by (unfold scrollPos; lia).
    assert (Hsize : actualSize 0 scroll viewport = viewport)
      by (unfold actualSize; rewrite Hpos; lia).
    now rewrite Hpos, Hsize.
  - intros ->. unfold axisPlan, segments, floor_div, rem. cbn.
    destruct (Z.ltb_spec 0 scroll); cbn; [split; reflexivity|].
    destruct (Z.ltb_spec scroll 0); [lia|]. split; reflexivity.
Qed.

Lemma nonpositive_viewport_is_planned_witness :
  segments 2500 (-1000) = Fin 1 /\ segments 2500 0 = PInf.
Proof.
  split.
  - apply (nonpositive_viewport_is_planned 2500 (-1000)); lia.
  - apply (nonpositive_viewport_is_planned 2500 0); lia.
Defined.

(** ** The rate-limited capture *)

Lemma retryNumbers_cons (r : Z) (k : nat) :
  retryNumbers r (Datatypes.S k) = (r + 1) :: retryNumbers (r + 1) k.
Proof.
  unfold retryNumbers. cbn [seq map]. f_equal.
  rewrite <- seq_shift, map_map. apply map_ext. intros i. lia.
Qed.

Lemma waitsOf_app (a b : list event) : waitsOf (a ++ b) = waitsOf a ++ waitsOf b.
Proof. unfold waitsOf. now rewrite flat_map_app. Qed.

Lemma captureCount_app (a b : list event) :
  captureCount (a ++ b) = (captureCount a + captureCount b)%nat.
Proof. unfold captureCount. now rewrite filter_app, length_app. Qed.

Lemma waitsOf_backoffTrace (q r : Z) (k : nat) :
  waitsOf (backoffTrace q r k) = map waitTime (retryNumbers r k).
Proof.
  unfold backoffTrace. induction (retryNumbers r k) as [|n l IH]; [reflexivity|].
  cbn [flat_map map]. rewrite waitsOf_app, IH. reflexivity.
Qed.

Lemma captureCount_backoffTrace (q r : Z) (k : nat) :
  captureCount (backoffTrace q r k) = k.
Proof.
  revert r. induction k as [|k IH]; intros r; [reflexivity|].
  unfold backoffTrace. rewrite retryNumbers_cons. cbn [flat_map].
  change (flat_map _ (retryNumbers (r + 1) k)) with (backoffTrace q (r + 1) k).
  rewrite captureCount_app, IH. reflexivity.
Qed.

(** A run of rate-limited rejections that stays within the retries is
    retried through: one capture and one wait each. *)
Lemma retryLoop_rate_limited (q maxRetries : Z) (fails : list string) :
  Forall rateLimited fails ->
  forall (tail : list response) (r : Z) (tr : list event),
    r + Z.of_nat (List.length fails) <= maxRetries ->
    retryLoop q maxRetries (map Rejected fails ++ tail) r tr
    = retryLoop q maxRetries tail (r + Z.of_nat (List.length fails))
                (tr ++ backoffTrace q r (List.length fails)).
Proof.
  induction 1 as [|message fails Hm _ IH]; intros tail r tr Hle.
  - cbn. now rewrite Z.add_0_r, app_nil_r.
  - cbn [List.length map app] in *. cbn [retryLoop].
    destruct (Z.ltb_spec r maxRetries); [|lia].
    unfold rateLimited in Hm. rewrite Hm, IH by lia.
    replace (r + Z.of_nat (Datatypes.S (List.length fails)))
      with (r + 1 + Z.of_nat (List.length fails)) by lia.
    unfold backoffTrace at 2. rewrite retryNumbers_cons. cbn [flat_map].
    now rewrite <- app_assoc.
Qed.

Lemma retryLoop_exhausted (q maxRetries : Z) (script : list response)
      (r : Z) (tr : list event) :
  maxRetries <= r ->
  retryLoop q maxRetries script r tr = (Threw CaptureExhausted, script, tr).
Proof.
  intros H. destruct script; cbn [retryLoop];
    destruct (Z.ltb_spec r maxRetries); (lia || reflexivity).
Qed.

(** C4: when the capture primitive is rate limited on the first two
    attempts and succeeds on the third, the capturer returns that result
    after exactly two waits, of 1000 ms and then 2000 ms; in general the
    wait before retry [n] is [min(1000 * n, 3000)] ms. *)
Theorem rate_limited_capture_backs_off (options : Options) (w : World) :
  (forall m1 m2 img rest,
      captures w = Rejected m1 :: Rejected m2 :: Resolved img :: rest ->
      rateLimited m1 -> rateLimited m2 -> truthy img = true ->
      let r := captureScreenshotWithRetry options defaultMaxRetries w in
      fst r = Returned img
      /\ captures (snd r) = rest
      /\ waitsOf (trace (snd r)) = waitsOf (trace w) ++ [1000; 2000]
      /\ captureCount (trace (snd r)) = (captureCount (trace w) + 3)%nat)
  /\ (forall maxRetries fails img rest,
      captures w = map Rejected fails ++ Resolved img :: rest ->
      Forall rateLimited fails -> Z.of_nat (List.length fails) < maxRetries ->
      truthy img = true ->
      let r := captureScreenshotWithRetry options maxRetries w in
      fst r = Returned img
      /\ captures (snd r) = rest
      /\ waitsOf (trace (snd r))
         = waitsOf (trace w)
           ++ map (fun n => Z.min (1000 * n) 3000)
                  (retryNumbers 0 (List.length fails))).
Proof.
  assert (General : forall maxRetries fails img rest,
      captures w = map Rejected fails ++ Resolved img :: rest ->
      Forall rateLimited fails -> Z.of_nat (List.length fails) < maxRetries ->
      truthy img = true ->
      captureScreenshotWithRetry options maxRetries w
      = (Returned img,
         {| isCapturing := isCapturing w;
            captures := rest;
            trace := (trace w ++ backoffTrace (captureQuality options) 0
                                              (List.length fails))
                     ++ [EvCapture "png" (captureQuality options)] |})).
  { intros maxRetries fails img rest Hc Hf Hlen Himg.
    unfold captureScreenshotWithRetry. rewrite Hc.
    rewrite retryLoop_rate_limited by (assumption || lia).
    cbn [retryLoop].
    destruct (Z.ltb_spec (0 + Z.of_nat (List.length fails)) maxRetries); [|lia].
    now rewrite Himg. }
  split.
  - intros m1 m2 img rest Hc H1 H2 Himg.
    rewrite (General defaultMaxRetries [m1; m2] img rest Hc)
      by (repeat constructor; assumption || reflexivity || assumption).
    cbn [fst snd captures trace List.length].
    rewrite !waitsOf_app, !captureCount_app. repeat split.
    + cbn. now rewrite app_nil_r.
    + cbn. lia.
  - intros maxRetries fails img rest Hc Hf Hlen Himg.
    rewrite (General maxRetries fails img rest Hc Hf Hlen Himg).
    cbn [fst snd captures trace]. repeat split.
    rewrite !waitsOf_app, waitsOf_backoffTrace. cbn. now rewrite app_nil_r.
Qed.

Lemma rate_limited_capture_backs_off_witness :
  let r := captureScreenshotWithRetry sampleOptions defaultMaxRetries
             (idle [Rejected quotaMessage; Rejected quotaMessage; Resolved pngData]) in
  fst r = Returned pngData
  /\ captures (snd r) = []
  /\ waitsOf (trace (snd r)) = [1000; 2000]
  /\ captureCount (trace (snd r)) = 3%nat.
Proof.
  apply (proj1 (rate_limited_capture_backs_off sampleOptions
                  (idle [Rejected quotaMessage; Rejected quotaMessage; Resolved pngData]))
               quotaMessage quotaMessage pngData []);
    reflexivity.
Defined.

(** C9: a failure of the capture primitive that is not the rate-limit
    signal reaches the caller at once, without a retry: no further capture
    is issued and no wait follows it; and when all [maxRetries] attempts (3
    by default) are rate limited the capturer fails with
    [CaptureExhausted]. *)
Theorem other_failures_propagate_and_retries_exhaust
        (options : Options) (w : World) :
  (forall maxRetries fails message rest,
      captures w = map Rejected fails ++ Rejected message :: rest ->
      Forall rateLimited fails -> Z.of_nat (List.length fails) < maxRetries ->
      includes rateLimitMarker message = false ->
      let r := captureScreenshotWithRetry options maxRetries w in
      fst r = Threw (HostError message)
      /\ captures (snd r) = rest
      /\ trace (snd r)
         = (trace w ++ backoffTrace (captureQuality options) 0 (List.length fails))
           ++ [EvCapture "png" (captureQuality options)])
  /\ (forall maxRetries fails rest,
      captures w = map Rejected fails ++ rest ->
      Forall rateLimited fails -> Z.of_nat (List.length fails) = maxRetries ->
      let r := captureScreenshotWithRetry options maxRetries w in
      fst r = Threw CaptureExhausted
      /\ captures (snd r) = rest
      /\ captureCount (trace (snd r))
         = (captureCount (trace w) + List.length fails)%nat)
  /\ defaultMaxRetries = 3.
Proof.
  split; [|split; [|reflexivity]].
  - intros maxRetries fails message rest Hc Hf Hlen Hother.
    unfold captureScreenshotWithRetry. rewrite Hc.
    rewrite retryLoop_rate_limited by (assumption || lia).
    cbn [retryLoop].
    destruct (Z.ltb_spec (0 + Z.of_nat (List.length fails)) maxRetries); [|lia].
    rewrite Hother. cbn. repeat split.
  - intros maxRetries fails rest Hc Hf Hlen.
    unfold captureScreenshotWithRetry. rewrite Hc.
    rewrite retryLoop_rate_limited by (assumption || lia).
    rewrite retryLoop_exhausted by lia.
    cbn [fst snd captures trace]. repeat split.
    now rewrite captureCount_app, captureCount_backoffTrace.
Qed.

Lemma other_failures_propagate_and_retries_exhaust_witness :
  (let r := captureScreenshotWithRetry sampleOptions defaultMaxRetries
              (idle [Rejected "Tab is gone"; Resolved pngData]) in
   fst r = Threw (HostError "Tab is gone")
   /\ captures (snd r) = [Resolved pngData]
   /\ trace (snd r) = [EvCapture "png" 90])
  /\ (let r := captureScreenshotWithRetry sampleOptions defaultMaxRetries
              (idle [Rejected quotaMessage; Rejected quotaMessage;
                     Rejected quotaMessage; Resolved pngData]) in
   fst r = Threw CaptureExhausted
   /\ captures (snd r) = [Resolved pngData]
   /\ captureCount (trace (snd r)) = 3%nat).
Proof.
  split.
  - apply (proj1 (other_failures_propagate_and_retries_exhaust sampleOptions
                    (idle [Rejected "Tab is gone"; Resolved pngData]))
                 defaultMaxRetries [] "Tab is gone"%string [Resolved pngData]);
      try reflexivity.
    constructor.
  - apply (proj1 (proj2 (other_failures_propagate_and_retries_exhaust sampleOptions
                    (idle [Rejected quotaMessage; Rejected quotaMessage;
                           Rejected quotaMessage; Resolved pngData])))
                 defaultMaxRetries [quotaMessage; quotaMessage; quotaMessage]
                 [Resolved pngData]);
      try reflexivity.
    repeat constructor.
Defined.

(** ** The single-flight flag *)

(** While the flag is set a call does nothing but throw: it consumes no
    answer, adds nothing to the trace and leaves the flag as it is. *)
Lemma captureScreenshot_busy (host : Host) (options : Options)
      (fullPage : bool) (w : World) :
  isCapturing w = true ->
  captureScreenshot host options fullPage w = (Threw CaptureInProgress, w).
Proof.
  intros H. unfold captureScreenshot, enter, bind, getCapturing, throw.
  now rewrite H.
Qed.

Lemma enter_busy (w : World) :
  isCapturing w = true -> enter w = (Threw CaptureInProgress, w).
Proof.
  intros H. unfold enter, bind, getCapturing, throw. now rewrite H.
Qed.

Lemma enter_idle (w : World) :
  isCapturing w = false ->
  enter w = (Returned tt,
             {| isCapturing := true; captures := captures w; trace := trace w |}).
Proof.
  intros H. unfold enter, bind, getCapturing, setCapturing. now rewrite H.
Qed.

(** Whatever the body does, once [try { body } finally { release }] has
    left the [try] block the flag is down. *)
Lemma try_finally_releases {A} (body : M A) (w : World) :
  fst (try_finally body release w) <> Pending ->
  isCapturing (snd (try_finally body release w)) = false.
Proof.
  unfold try_finally, release, setCapturing.
  destruct (body w) as [[a|e|] w']; cbn; congruence.
Qed.

Module CallsFacts.
Import Calls.

Lemma set_same i p f : set i p f i = p.
Proof. unfold set. now rewrite Nat.eqb_refl. Qed.

Lemma set_other i j p f : j <> i -> set i p f j = f j.
Proof. unfold set. intros H. now apply Nat.eqb_neq in H as ->. Qed.

Lemma init_invariant (w : World) : invariant (init w).
Proof.
  split; cbn.
  - split; [discriminate|]. intros [i Hi]. discriminate.
  - intros i j Hi. discriminate.
Qed.

Lemma step_invariant (s : system) (a : action) :
  invariant s -> invariant (step s a).
Proof.
  intros [Hflag Huniq]. destruct a as [i|i o]; cbn [step].
  - destruct (calls s i) eqn:Ei; try (split; assumption).
    destruct (isCapturing (world s)) eqn:Eflag.
    + rewrite enter_busy by assumption. split; simpl.
      * split; [intros _|intros _; assumption].
        destruct (proj1 Hflag) as [k Hk]; [reflexivity|].
        exists k. rewrite set_other; [assumption|congruence].
      * intros k l Hk Hl.
        destruct (Nat.eq_dec k i) as [->|Hk'];
          [rewrite set_same in Hk; discriminate|].
        destruct (Nat.eq_dec l i) as [->|Hl'];
          [rewrite set_same in Hl; discriminate|].
        rewrite set_other in Hk, Hl by assumption. now apply Huniq.
    + rewrite enter_idle by assumption.
      assert (Hnone : forall k, calls s k <> Running).
      { intros k Hk. assert (false = true)
          by (apply Hflag; now exists k). discriminate. }
      split; simpl.
      * split; [|reflexivity]. intros _. exists i. apply set_same.
      * intros k l Hk Hl.
        destruct (Nat.eq_dec k i) as [->|Hk'];
          [|rewrite set_other in Hk by assumption; now apply Hnone in Hk].
        destruct (Nat.eq_dec l i) as [->|Hl'];
          [reflexivity|rewrite set_other in Hl by assumption; now apply Hnone in Hl].
  - destruct (calls s i) eqn:Ei; try (split; assumption).
    assert (Hgone : forall k, set i (Settled o) (calls s) k <> Running).
    { intros k Hk. destruct (Nat.eq_dec k i) as [->|Hne].
      - rewrite set_same in Hk. discriminate.
      - rewrite set_other in Hk by assumption.
        apply Hne. now apply Huniq. }
    destruct o as [r|e|]; [| |split; assumption];
      (split; simpl;
       [split; [discriminate|intros [k Hk]; now apply Hgone in Hk]
       |intros k l Hk; now apply Hgone in Hk]).
Qed.

Lemma reachable_invariant (s : system) : reachable s -> invariant s.
Proof.
  intros (w & acts & ->). unfold run.
  assert (H : forall acts s0, invariant s0 -> invariant (fold_left step acts s0)).
  { clear. induction acts as [|a acts IH]; intros s0 H0; [exact H0|].
    cbn. apply IH. now apply step_invariant. }
  apply H, init_invariant.
Qed.

Lemma reachable_step (s : system) (a : action) :
  reachable s -> reachable (step s a).
Proof.
  intros (w & acts & ->). exists w, (acts ++ [a]).
  unfold run. now rewrite fold_left_app.
Qed.

End CallsFacts.

(** C3: while a capture run is active a new invocation fails at once with
    [CaptureInProgress]; it is neither queued nor executed, and the run
    that is active goes on.  Of two invocations that overlap exactly one
    proceeds. *)
Theorem second_invocation_fails_fast :
  (forall host options fullPage w,
      isCapturing w = true ->
      captureScreenshot host options fullPage w = (Threw CaptureInProgress, w))
  /\ (forall s i j,
      Calls.reachable s ->
      Calls.calls s j = Calls.Running -> Calls.calls s i = Calls.NotCalled ->
      let s' := Calls.step s (Calls.Call i) in
      Calls.calls s' i = Calls.Settled (Threw CaptureInProgress)
      /\ Calls.calls s' j = Calls.Running
      /\ Calls.world s' = Calls.world s)
  /\ (forall w i j,
      i <> j ->
      let s := Calls.run (Calls.init w) [Calls.Call i; Calls.Call j] in
      Calls.calls s i = Calls.Running
      /\ Calls.calls s j = Calls.Settled (Threw CaptureInProgress)
      /\ forall k, Calls.calls s k = Calls.Running -> k = i).
Proof.
  split; [exact captureScreenshot_busy|]. split.
  - intros s i j Hreach Hj Hi.
    destruct (CallsFacts.reachable_invariant s Hreach) as [Hflag _].
    assert (Hbusy : isCapturing (Calls.world s) = true)
      by (apply Hflag; now exists j).
    cbn [Calls.step]. rewrite Hi, enter_busy by assumption. simpl.
    split; [apply CallsFacts.set_same|]. split; [|reflexivity].
    rewrite CallsFacts.set_other; [assumption|congruence].
  - intros w i j Hij. simpl.
    rewrite CallsFacts.set_other by congruence. simpl.
    split; [|split].
    + rewrite CallsFacts.set_other by assumption. apply CallsFacts.set_same.
    + apply CallsFacts.set_same.
    + intros k Hk. destruct (Nat.eq_dec k j) as [->|Hkj].
      * rewrite CallsFacts.set_same in Hk. discriminate.
      * rewrite CallsFacts.set_other in Hk by assumption.
        destruct (Nat.eq_dec k i) as [->|Hki]; [reflexivity|].
        rewrite CallsFacts.set_other in Hk by assumption. discriminate.
Qed.

Lemma second_invocation_fails_fast_witness :
  let busy := {| isCapturing := true; captures := [Resolved pngData]; trace := [] |} in
  captureScreenshot (quietHost DimsNoResult) sampleOptions true busy
  = (Threw CaptureInProgress, busy)
  /\ (let s := Calls.run (Calls.init (idle [])) [Calls.Call 0%nat; Calls.Call 1%nat] in
      Calls.calls s 0%nat = Calls.Running
      /\ Calls.calls s 1%nat = Calls.Settled (Threw CaptureInProgress)).
Proof.
  split.
  - apply (proj1 second_invocation_fails_fast). reflexivity.
  - destruct (proj2 (proj2 second_invocation_fails_fast) (idle []) 0%nat 1%nat)
      as (H0 & H1 & _); [discriminate|]. split; assumption.
Defined.

(** C8: on every way out of a capture run, whether it returns or throws,
    the flag is released, so that a run started right after it passes the
    guard. *)
Theorem guard_released_on_every_exit :
  (forall host options fullPage w,
      isCapturing w = false ->
      let r := captureScreenshot host options fullPage w in
      fst r <> Pending ->
      isCapturing (snd r) = false
      /\ fst (enter (snd r)) = Returned tt)
  /\ (forall s i o k,
      Calls.reachable s -> Calls.calls s i = Calls.Running -> o <> Pending ->
      Calls.calls s k = Calls.NotCalled ->
      let s1 := Calls.step s (Calls.Finish i o) in
      let s2 := Calls.step s1 (Calls.Call k) in
      Calls.calls s1 i = Calls.Settled o
      /\ isCapturing (Calls.world s1) = false
      /\ Calls.calls s2 k = Calls.Running).
Proof.
  split.
  - intros host options fullPage w Hidle. cbv zeta.
    assert (Hrun : captureScreenshot host options fullPage w
                   = try_finally (captureBody host options fullPage) release
                       {| isCapturing := true; captures := captures w;
                          trace := trace w |}).
    { unfold captureScreenshot. unfold bind at 1. now rewrite enter_idle. }
    rewrite Hrun. intros Hexit.
    pose proof (try_finally_releases _ _ Hexit) as Hdown.
    split; [exact Hdown|]. now rewrite enter_idle.
  - intros s i o k Hreach Hi Ho Hk. cbv zeta.
    assert (Hki : k <> i) by congruence.
    assert (Hs1 : Calls.step s (Calls.Finish i o)
                  = {| Calls.world := snd (release (Calls.world s));
                       Calls.calls := Calls.set i (Calls.Settled o) (Calls.calls s) |}).
    { cbn [Calls.step]. rewrite Hi. destruct o; congruence. }
    rewrite Hs1. split; [apply CallsFacts.set_same|]. split; [reflexivity|].
    cbn [Calls.step]. simpl. rewrite CallsFacts.set_other, Hk by assumption.
    simpl. apply CallsFacts.set_same.
Qed.

Lemma guard_released_on_every_exit_witness :
  let m := mkMetrics 2500 1600 1000 800 in
  let w := idle [Resolved pngData; Rejected "Tab is gone"] in
  let r := captureScreenshot (quietHost (DimsResult m)) sampleOptions true w in
  fst r = Threw (HostError "Tab is gone")
  /\ isCapturing (snd r) = false
  /\ fst (enter (snd r)) = Returned tt.
Proof.
  cbv zeta. split; [vm_compute; reflexivity|].
  apply (proj1 guard_released_on_every_exit).
  - reflexivity.
  - vm_compute. discriminate.
Defined.

(** ** Doubles *)

Module DoubleFacts.
Import Double.
Local Open Scope Q_scope.

Lemma pow2_pos (e : Z) : 0 < pow2 e.
Proof. unfold pow2. apply Qpower_0_lt. reflexivity. Qed.

Lemma pow2_plus (a b : Z) : pow2 (a + b) == pow2 a * pow2 b.
Proof. unfold pow2. apply Qpower_plus. discriminate. Qed.

Lemma pow2_Z (n : Z) : (0 <= n)%Z -> pow2 n == inject_Z (2 ^ n).
Proof. intros H. unfold pow2. now rewrite Zpower_Qpower. Qed.

Lemma pow2_le (a b : Z) : (a <= b)%Z -> pow2 a <= pow2 b.
Proof. intros H. unfold pow2. apply Qpower_le_compat_l; [exact H|discriminate]. Qed.

(** A fraction lies between the powers of two that the sizes of its
    numerator and denominator give. *)
Lemma between_powers (n : Z) (d : positive) :
  (0 < n)%Z ->
  let e := (Z.log2 n - Z.log2 (Z.pos d))%Z in
  pow2 (e - 1) < n # d /\ n # d < pow2 (e + 1).
Proof.
  intros Hn e.
  destruct (Z.log2_spec n Hn) as [Ha1 Ha2].
  destruct (Z.log2_spec (Z.pos d) eq_refl) as [Hb1 Hb2].
  pose proof (Z.log2_nonneg n) as Ha0. pose proof (Z.log2_nonneg (Z.pos d)) as Hb0.
  set (a := Z.log2 n) in *. set (b := Z.log2 (Z.pos d)) in *.
  assert (Hpa : (0 < 2 ^ a)%Z) by (apply Z.pow_pos_nonneg; lia).
  assert (Hpb : (0 < 2 ^ b)%Z) by (apply Z.pow_pos_nonneg; lia).
  rewrite !Z.pow_succ_r in * by lia.
  assert (Hq : n # d == inject_Z n / inject_Z (Z.pos d)) by apply Qmake_Qdiv.
  assert (Hd : 0 < inject_Z (Z.pos d)) by reflexivity.
  assert (Hpb' : 0 < inject_Z (2 ^ b)) by (unfold Qlt, inject_Z; cbn [Qnum Qden]; lia).
  split.
  - replace (e - 1)%Z with (a + - (b + 1))%Z by (unfold e; lia).
    rewrite pow2_plus. unfold pow2 at 2. rewrite Qpower_opp.
    fold (pow2 (b + 1)). rewrite !pow2_Z by lia. rewrite Hq.
    rewrite Z.pow_add_r, Z.pow_1_r by lia.
    apply Qlt_shift_div_l; [exact Hd|].
    unfold Qlt, Qmult, Qinv, inject_Z. cbn [Qnum Qden].
    destruct (2 ^ b * 2)%Z as [|p|p] eqn:Ep; try lia. cbn [Qnum Qden].
    rewrite !Z.mul_1_r. nia.
  - replace (e + 1)%Z with ((a + 1) + - b)%Z by (unfold e; lia).
    rewrite pow2_plus. unfold pow2 at 2. rewrite Qpower_opp.
    fold (pow2 b). rewrite !pow2_Z by lia. rewrite Hq.
    rewrite Z.pow_add_r, Z.pow_1_r by lia.
    apply Qlt_shift_div_r; [exact Hd|].
    unfold Qlt, Qmult, Qinv, inject_Z. cbn [Qnum Qden].
    destruct (2 ^ b)%Z as [|p|p] eqn:Ep; try lia. cbn [Qnum Qden].
    rewrite !Z.mul_1_r. nia.
Qed.

(** [exponent q] is the exponent of the binade of [q]. *)
Lemma exponent_spec (q : Q) :
  0 < q -> pow2 (exponent q) <= q /\ q < pow2 (exponent q + 1).
Proof.
  intros Hq. destruct q as [n d].
  assert (Hn : (0 < n)%Z) by (unfold Qlt in Hq; cbn in Hq; lia).
  destruct (between_powers n d Hn) as [Hlo Hhi]. cbv zeta in Hlo, Hhi.
  unfold exponent. cbn [Qnum Qden].
  set (e := (Z.log2 n - Z.log2 (Z.pos d))%Z) in *.
  destruct (Qle_bool (pow2 e) (n # d)) eqn:Ele.
  - apply Qle_bool_iff in Ele. split; assumption.
  - split; [apply Qlt_le_weak; exact Hlo|].
    replace (e - 1 + 1)%Z with e by lia.
    apply Qnot_le_lt. intros H. apply Qle_bool_iff in H. congruence.
Qed.

(** Rounding to an integer moves a number by at most a half. *)
Lemma roundEven_close (x : Q) :
  x - (1 # 2) <= inject_Z (roundEven x) /\ inject_Z (roundEven x) <= x + (1 # 2).
Proof.
  unfold roundEven.
  pose proof (Qfloor_le x) as Hlo. pose proof (Qlt_floor x) as Hhi.
  rewrite inject_Z_plus in Hhi. change (inject_Z 1) with 1 in Hhi.
  destruct (x - inject_Z (Qfloor x) ?= 1 # 2) eqn:Ec.
  - apply Qeq_alt in Ec. destruct (Z.even (Qfloor x));
      rewrite ?inject_Z_plus; change (inject_Z 1) with 1; split; lra.
  - apply Qlt_alt in Ec. split; lra.
  - apply Qgt_alt in Ec. rewrite inject_Z_plus. change (inject_Z 1) with 1.
    split; lra.
Qed.

Lemma roundEven_nonneg (x : Q) : 0 <= x -> (0 <= roundEven x)%Z.
Proof.
  intros Hx. unfold roundEven.
  assert (H0 : (0 <= Qfloor x)%Z).
  { rewrite <- (Qfloor_Z 0). now apply Qfloor_resp_le. }
  destruct (x - inject_Z (Qfloor x) ?= 1 # 2); [destruct (Z.even _)| |]; lia.
Qed.

Lemma ulp_pos (q : Q) : 0 < ulp q.
Proof. apply pow2_pos. Qed.

(** The spacing of the doubles around [q] is at most [q * 2^-52], or the
    spacing of the subnormal numbers. *)
Lemma ulp_le (q : Q) : 0 < q -> ulp q <= q * pow2 (-52) + pow2 (-1074).
Proof.
  intros Hq. unfold ulp.
  destruct (exponent_spec q Hq) as [Hlo _].
  pose proof (pow2_pos (-52)) as H52. pose proof (pow2_pos (-1074)) as Hmin.
  destruct (Z.max_spec (exponent q - 52) (-1074)) as [[_ ->]|[_ ->]].
  - assert (0 <= q * pow2 (-52)) by (apply Qmult_le_0_compat; lra). lra.
  - replace (exponent q - 52)%Z with (exponent q + -52)%Z by lia.
    rewrite pow2_plus.
    assert (pow2 (exponent q) * pow2 (-52) <= q * pow2 (-52))
      by (apply Qmult_le_compat_r; lra).
    lra.
Qed.

Lemma nearestPos_close (q : Q) :
  0 < q ->
  q - ulp q * (1 # 2) <= nearestPos q /\ nearestPos q <= q + ulp q * (1 # 2).
Proof.
  intros Hq. unfold nearestPos. rewrite Qred_correct.
  pose proof (ulp_pos q) as Hu.
  destruct (roundEven_close (q / ulp q)) as [Hlo Hhi].
  assert (Hx : q / ulp q * ulp q == q) by (field; lra).
  apply (Qmult_le_compat_r _ _ (ulp q)) in Hlo; [|lra].
  apply (Qmult_le_compat_r _ _ (ulp q)) in Hhi; [|lra].
  split; lra.
Qed.

Lemma nearestPos_nonneg (q : Q) : 0 < q -> 0 <= nearestPos q.
Proof.
  intros Hq. unfold nearestPos. rewrite Qred_correct.
  pose proof (ulp_pos q) as Hu.
  apply Qmult_le_0_compat; [|lra].
  change 0 with (inject_Z 0). rewrite <- Zle_Qle. apply roundEven_nonneg.
  apply Qle_shift_div_l; lra.
Qed.

(** The double nearest to a positive number: the relative error is at most
    [2^-53], but for the subnormal numbers, where the error is at most
    [2^-1075]. *)
Lemma nearest_error (q : Q) :
  0 < q ->
  q - (q * pow2 (-53) + pow2 (-1075)) <= nearest q
  /\ nearest q <= q + (q * pow2 (-53) + pow2 (-1075)).
Proof.
  intros Hq. unfold nearest.
  assert (Hc : (q ?= 0) = Gt) by now apply Qgt_alt.
  rewrite Hc. destruct (nearestPos_close q Hq) as [Hlo Hhi].
  pose proof (ulp_le q Hq) as Hu.
  assert (H53 : pow2 (-53) == pow2 (-52) * (1 # 2)) by reflexivity.
  assert (H1075 : pow2 (-1075) == pow2 (-1074) * (1 # 2)) by reflexivity.
  rewrite H53, H1075. split; lra.
Qed.

(** The same, in round figures. *)
Lemma nearest_close (q : Q) :
  0 < q ->
  q - (q + 1) * (1 # 1000000000) <= nearest q
  /\ nearest q <= q + (q + 1) * (1 # 1000000000).
Proof.
  intros Hq. destruct (nearest_error q Hq) as [Hlo Hhi].
  assert (H53 : pow2 (-53) <= 1 # 1000000000) by (vm_compute; discriminate).
  assert (H1075 : pow2 (-1075) <= 1 # 1000000000) by (vm_compute; discriminate).
  assert (q * pow2 (-53) <= q * (1 # 1000000000))
    by (rewrite !(Qmult_comm q); apply Qmult_le_compat_r; lra).
  split; lra.
Qed.

Lemma nearest_nonneg (q : Q) : 0 <= q -> 0 <= nearest q.
Proof.
  intros Hq. unfold nearest. destruct (q ?= 0) eqn:Ec.
  - apply Qle_refl.
  - apply Qlt_alt in Ec. lra.
  - apply Qgt_alt in Ec. now apply nearestPos_nonneg.
Qed.

Lemma nearest_nonpos (q : Q) : q <= 0 -> nearest q <= 0.
Proof.
  intros Hq. unfold nearest. destruct (q ?= 0) eqn:Ec.
  - apply Qle_refl.
  - apply Qlt_alt in Ec.
    assert (0 <= nearestPos (- q)) by (apply nearestPos_nonneg; lra). lra.
  - apply Qgt_alt in Ec. lra.
Qed.

End DoubleFacts.

(** ** The canvas of the compositor *)

Lemma Qltb_lt (a b : Q) : Qltb a b = true <-> (a < b)%Q.
Proof.
  unfold Qltb. rewrite negb_true_iff, <- not_true_iff_false, Qle_bool_iff.
  split; [apply Qnot_le_lt|apply Qlt_not_le].
Qed.

Lemma Qltb_ge (a b : Q) : Qltb a b = false <-> (b <= a)%Q.
Proof.
  unfold Qltb. rewrite negb_false_iff. apply Qle_bool_iff.
Qed.

Lemma scaleFor_nonzero (t : Z) :
  t <> 0 ->
  scaleFor t = Ratio (Double.div (inject_Z MAX_CANVAS_SIZE) (inject_Z t)).
Proof. intros H. unfold scaleFor. now apply Z.eqb_neq in H as ->. Qed.

(** The double [0.1] is a little more than a tenth. *)
Lemma tenth_bounds :
  (1 # 10 <= tenth)%Q /\ (tenth <= 100000001 # 1000000000)%Q.
Proof. split; vm_compute; discriminate. Qed.

Lemma inject_Z_pos (t : Z) : 0 < t -> (0 < inject_Z t)%Q.
Proof. intros H. unfold Qlt. cbn. lia. Qed.

(** The quotient [MAX_CANVAS_SIZE / total] as a double, against the exact
    quotient. *)
Lemma quotient_close (t : Z) :
  0 < t ->
  let a := (32767 / inject_Z t)%Q in
  let sx := Double.div (inject_Z MAX_CANVAS_SIZE) (inject_Z t) in
  (0 < a /\ inject_Z t * a == 32767
   /\ a - (a + 1) * (1 # 1000000000) <= sx
   /\ sx <= a + (a + 1) * (1 # 1000000000))%Q.
Proof.
  intros Ht a sx. pose proof (inject_Z_pos t Ht) as HT.
  assert (Ha : (0 < a)%Q).
  { unfold a. apply Qlt_shift_div_l; [exact HT|]. rewrite Qmult_0_l. reflexivity. }
  split; [exact Ha|]. split; [unfold a; field; lra|].
  apply (DoubleFacts.nearest_close a Ha).
Qed.

(** The double quotient is below the double [0.1] exactly when the total
    exceeds ten times the limit. *)
Lemma ratio_below_tenth (t : Z) :
  0 < t ->
  ((Double.div (inject_Z MAX_CANVAS_SIZE) (inject_Z t) < tenth)%Q
   <-> 10 * MAX_CANVAS_SIZE < t).
Proof.
  intros Ht. destruct (quotient_close t Ht) as (Ha & Hta & Hlo & Hhi).
  destruct tenth_bounds as [Hten Hten'].
  pose proof (inject_Z_pos t Ht) as HT.
  change (10 * MAX_CANVAS_SIZE) with 327670.
  set (a := (32767 / inject_Z t)%Q) in *.
  set (sx := Double.div (inject_Z MAX_CANVAS_SIZE) (inject_Z t)) in *.
  split.
  - intros Hlt. destruct (Z_lt_le_dec 327670 t) as [Hbig|Hle]; [exact Hbig|].
    exfalso. destruct (Z.eq_dec t 327670) as [->|Hne].
    + revert Hlt. vm_compute. discriminate.
    + assert (Hle' : (inject_Z t <= 327669)%Q)
        by (change 327669%Q with (inject_Z 327669); rewrite <- Zle_Qle; lia).
      assert (Hprod : (0 <= (327669 - inject_Z t) * a)%Q)
        by (apply Qmult_le_0_compat; lra).
      lra.
  - intros Hbig.
    assert (Hge : (327671 <= inject_Z t)%Q)
      by (change 327671%Q with (inject_Z 327671); rewrite <- Zle_Qle; lia).
    assert (Hprod : (0 <= (inject_Z t - 327671) * a)%Q)
      by (apply Qmult_le_0_compat; lra).
    lra.
Qed.

(** On totals that are positive, the page is too large exactly when a side
    exceeds ten times the canvas limit. *)
Lemma page_too_large_iff (tw th : Z) :
  0 < tw -> 0 < th ->
  (canvasScale tw th = None <-> 10 * MAX_CANVAS_SIZE < Z.max tw th).
Proof.
  intros Hw Hh. unfold canvasScale.
  destruct ((MAX_CANVAS_SIZE <? tw) || (MAX_CANVAS_SIZE <? th)) eqn:Ebig.
  - rewrite !scaleFor_nonzero by lia. unfold minScale.
    destruct (Qltb _ tenth) eqn:Elt.
    + split; [intros _|reflexivity]. apply Qltb_lt in Elt.
      apply Q.min_lt_iff in Elt as [Elt|Elt];
        [|destruct tenth_bounds; lra].
      apply Q.min_lt_iff in Elt as [Elt|Elt];
        apply ratio_below_tenth in Elt; lia.
    + split; [discriminate|]. intros Hmax. exfalso.
      apply Qltb_ge in Elt. apply Qle_not_lt in Elt. apply Elt.
      apply Q.min_lt_iff. left. apply Q.min_lt_iff.
      destruct (Z_lt_le_dec (10 * MAX_CANVAS_SIZE) tw);
        [left|right]; apply ratio_below_tenth; lia.
  - apply orb_false_iff in Ebig as [Ew Eh]. apply Z.ltb_ge in Ew, Eh.
    split; [discriminate|]. unfold MAX_CANVAS_SIZE in *. lia.
Qed.

(** The floor of a double product whose exact value is at most the limit
    and a half is within the limit. *)
Lemma floor_nearest_fits (x : Q) :
  (x <= 32767 + (1 # 2))%Q -> Qfloor (Double.nearest x) <= MAX_CANVAS_SIZE.
Proof.
  intros Hx. destruct (Qlt_le_dec 0 x) as [Hpos|Hneg].
  - destruct (DoubleFacts.nearest_close x Hpos) as [_ Hhi].
    assert (Hlt : (Double.nearest x < inject_Z 32768)%Q)
      by (change (inject_Z 32768) with 32768%Q; lra).
    pose proof (Qfloor_le (Double.nearest x)) as Hfl.
    assert (H : (inject_Z (Qfloor (Double.nearest x)) < inject_Z 32768)%Q)
      by (eapply Qle_lt_trans; eassumption).
    rewrite <- Zlt_Qlt in H. unfold MAX_CANVAS_SIZE. lia.
  - pose proof (DoubleFacts.nearest_nonpos x Hneg) as H0.
    apply Qfloor_resp_le in H0. change (Qfloor 0) with 0 in H0.
    unfold MAX_CANVAS_SIZE. lia.
Qed.

(** The floor of a double product whose exact value is at least 32766 and
    a half is at least 32766. *)
Lemma floor_nearest_tight (x : Q) :
  (32766 + (1 # 2) <= x)%Q -> 32766 <= Qfloor (Double.nearest x).
Proof.
  intros Hx. assert (Hpos : (0 < x)%Q) by lra.
  destruct (DoubleFacts.nearest_close x Hpos) as [Hlo _].
  rewrite <- (Qfloor_Z 32766). apply Qfloor_resp_le.
  change (inject_Z 32766) with 32766%Q. lra.
Qed.

(** A side scaled by a scale of at least [0.1] that is at most the double
    quotient [MAX_CANVAS_SIZE / side] fits the canvas limit. *)
Lemma scaled_side_fits (t : Z) (s : Q) :
  (tenth <= s)%Q ->
  (0 < t -> (s <= Double.div (inject_Z MAX_CANVAS_SIZE) (inject_Z t))%Q) ->
  Qfloor (Double.mul (inject_Z t) s) <= MAX_CANVAS_SIZE.
Proof.
  intros Hs Hle. unfold Double.mul. apply floor_nearest_fits.
  destruct tenth_bounds as [Hten _].
  destruct (Z_lt_le_dec 0 t) as [Hpos|Hneg].
  - specialize (Hle Hpos).
    destruct (quotient_close t Hpos) as (Ha & Hta & _ & Hhi).
    pose proof (inject_Z_pos t Hpos) as HT.
    assert (Hsmall : t <= 327670).
    { destruct (Z_lt_le_dec 327670 t) as [Hbig|Hok]; [|exact Hok].
      apply (ratio_below_tenth t Hpos) in Hbig. lra. }
    assert (HT' : (inject_Z t <= 327670)%Q)
      by (change 327670%Q with (inject_Z 327670); now rewrite <- Zle_Qle).
    set (a := (32767 / inject_Z t)%Q) in *.
    assert (Hmul : (inject_Z t * s
                    <= inject_Z t * (a + (a + 1) * (1 # 1000000000)))%Q)
      by (apply Qmult_le_l; [exact HT|lra]).
    lra.
  - assert (HT : (inject_Z t <= 0)%Q)
      by (change 0%Q with (inject_Z 0); now rewrite <- Zle_Qle).
    assert (Hprod : (0 <= (- inject_Z t) * s)%Q)
      by (apply Qmult_le_0_compat; lra).
    lra.
Qed.

(** Whenever the compositor lays a canvas out, the canvas fits the limit
    and the scale lies between a tenth and one. *)
Lemma canvas_fits (images : list Image.t) (lay : Layout) :
  canvasLayout images = inr lay ->
  canvasWidth lay <= MAX_CANVAS_SIZE /\ canvasHeight lay <= MAX_CANVAS_SIZE
  /\ (1 # 10 <= scale lay)%Q /\ (scale lay <= 1)%Q.
Proof.
  destruct images as [|first rest]; [discriminate|]. cbn [canvasLayout].
  generalize (totalWidth first rest) as tw, (totalHeight first rest) as th.
  intros tw th.
  destruct (canvasScale tw th) as [s|] eqn:Es; [|discriminate].
  intros [= <-]. cbn [canvasWidth canvasHeight scale].
  destruct tenth_bounds as [Hten _].
  unfold canvasScale in Es.
  destruct ((MAX_CANVAS_SIZE <? tw) || (MAX_CANVAS_SIZE <? th)) eqn:Ebig.
  - destruct (Qltb _ tenth) eqn:Elt; [discriminate|]. injection Es as <-.
    apply Qltb_ge in Elt.
    assert (Hone : (minScale (scaleFor tw) (scaleFor th) <= 1)%Q).
    { unfold minScale. destruct (scaleFor tw), (scaleFor th);
        try apply Q.le_min_r. apply Qle_refl. }
    split; [|split; [|split; [lra|exact Hone]]];
      (apply scaled_side_fits; [exact Elt|]); intros Ht.
    + rewrite (scaleFor_nonzero tw) by lia. unfold minScale.
      destruct (scaleFor th).
      * eapply Qle_trans; [apply Q.le_min_l|apply Q.le_min_l].
      * apply Q.le_min_l.
    + rewrite (scaleFor_nonzero th) by lia. unfold minScale.
      destruct (scaleFor tw).
      * eapply Qle_trans; [apply Q.le_min_l|apply Q.le_min_r].
      * apply Q.le_min_l.
  - injection Es as <-. apply orb_false_iff in Ebig as [Hw Hh].
    apply Z.ltb_ge in Hw, Hh. unfold MAX_CANVAS_SIZE in Hw, Hh.
    assert (Hw' : (inject_Z tw <= 32767)%Q)
      by (change 32767%Q with (inject_Z 32767); now rewrite <- Zle_Qle).
    assert (Hh' : (inject_Z th <= 32767)%Q)
      by (change 32767%Q with (inject_Z 32767); now rewrite <- Zle_Qle).
    split; [|split; [|split; lra]];
      unfold Double.mul; apply floor_nearest_fits; lra.
Qed.

(** The scale the compositor computes, against the exact
    [min(MAX / tw, MAX / th, 1)]. *)
Lemma scale_close (tw th : Z) :
  0 < tw -> 0 < th ->
  let s := Qmin (Qmin (Double.div (inject_Z MAX_CANVAS_SIZE) (inject_Z tw))
                      (Double.div (inject_Z MAX_CANVAS_SIZE) (inject_Z th))) 1 in
  let m := Qmin (Qmin (32767 / inject_Z tw) (32767 / inject_Z th)) 1 in
  (m - (m + 1) * (1 # 1000000000) <= s /\ s <= m + (m + 1) * (1 # 1000000000)
   /\ 0 < m /\ m <= 1)%Q.
Proof.
  intros Hw Hh.
  destruct (quotient_close tw Hw) as (Ha & _ & Hlo & Hhi).
  destruct (quotient_close th Hh) as (Hb & _ & Hlo' & Hhi').
  generalize dependent (Double.div (inject_Z MAX_CANVAS_SIZE) (inject_Z tw)).
  generalize dependent (Double.div (inject_Z MAX_CANVAS_SIZE) (inject_Z th)).
  generalize dependent (32767 / inject_Z tw)%Q.
  generalize dependent (32767 / inject_Z th)%Q.
  intros b Hb a Ha sy Hlo' Hhi' sx Hlo Hhi. cbv zeta.
  destruct (Q.min_spec sx sy) as [[H1 E1]|[H1 E1]];
    destruct (Q.min_spec (Qmin sx sy) 1) as [[H2 E2]|[H2 E2]];
    destruct (Q.min_spec a b) as [[H3 E3]|[H3 E3]];
    destruct (Q.min_spec (Qmin a b) 1) as [[H4 E4]|[H4 E4]];
    rewrite E2, E4; rewrite ?E1, ?E3 in *; repeat split; lra.
Qed.

(** The side along the larger total comes out at the limit, or one pixel
    short of it. *)
Lemma larger_side_tight (t : Z) (s m : Q) :
  32767 < t -> t <= 327670 ->
  (32767 <= inject_Z t * m)%Q ->
  (m - (m + 1) * (1 # 1000000000) <= s)%Q ->
  32766 <= Qfloor (Double.mul (inject_Z t) s).
Proof.
  intros Hbig Hsmall Hm Hs. unfold Double.mul. apply floor_nearest_tight.
  assert (HT : (0 < inject_Z t)%Q) by (apply inject_Z_pos; lia).
  assert (HT' : (inject_Z t <= 327670)%Q)
    by (change 327670%Q with (inject_Z 327670); now rewrite <- Zle_Qle).
  assert (Hmul : (inject_Z t * (m - (m + 1) * (1 # 1000000000))
                  <= inject_Z t * s)%Q)
    by (apply Qmult_le_l; [exact HT|exact Hs]).
  lra.
Qed.

Lemma firstBadData_good (images : list Image.t) :
  Forall (fun img => isImageData (Image.dataUrl img) = true) images ->
  forall k, firstBadData k images = None.
Proof.
  induction 1 as [|img images Hgood _ IH]; intros k; [reflexivity|].
  cbn [firstBadData]. rewrite Hgood. cbn. apply IH.
Qed.

Lemma firstUndecoded_none (host : Host) (images : list Image.t) :
  (forall i, decodes host i = true) ->
  forall k, firstUndecoded host k images = None.
Proof.
  intros Hall. induction images as [|img images IH]; intros k; [reflexivity|].
  cbn [firstUndecoded]. rewrite Hall. apply IH.
Qed.

(** When every image loads, every draw is issued, in the order of the
    images. *)
Lemma drawImages_all (host : Host) (ds : list Draw) :
  (forall i, decodes host i = true) ->
  forall k w,
    drawImages host k ds w
    = (Returned tt,
       {| isCapturing := isCapturing w;
          captures := captures w;
          trace := trace w
                   ++ map (fun d => EvDraw (dx d) (dy d) (dWidth d) (dHeight d)) ds |}).
Proof.
  intros Hall. induction ds as [|d ds IH]; intros k w.
  - cbn. rewrite app_nil_r. now destruct w.
  - cbn [drawImages map]. rewrite Hall. unfold bind at 1. unfold emit at 1.
    rewrite IH. cbn [isCapturing captures trace].
    now rewrite <- app_assoc.
Qed.

(** C5: when the total width or the total height of the composite exceeds
    32767 the compositor takes [min(32767 / totalWidth, 32767 / totalHeight, 1)]
    as the scale, each quotient a double; it fails with [PageTooLarge] when
    that is below 0.1, and otherwise sets the canvas to the totals scaled
    by it and draws every segment at its position and size scaled by it.
    The scale is within a part in a hundred million of the exact minimum,
    no side of the canvas exceeds 32767, and the side along the larger
    total is 32767 or 32766.  A 3 by 3 grid of tiles of 20000 by 20000 has
    a total width of 60000 and is scaled by the double [32767 / 60000],
    which is 0.546 to three places, to a canvas of 32767 by 32767. *)
Theorem oversized_canvas_is_scaled :
  (forall host mime options first rest w,
      let images := first :: rest in
      let tw := totalWidth first rest in
      let th := totalHeight first rest in
      MAX_CANVAS_SIZE < tw \/ MAX_CANVAS_SIZE < th -> tw <> 0 -> th <> 0 ->
      Forall hasImageData images -> canvasContext host = true ->
      let s := Qmin (Qmin (Double.div 32767 (inject_Z tw))
                          (Double.div 32767 (inject_Z th))) 1 in
      ((s < tenth)%Q ->
         composeInContent host mime options images w
         = (Returned (inl (PageTooLarge tw th)), w))
      /\ ((tenth <= s)%Q -> (forall i, decodes host i = true) ->
         composeInContent host mime options images w
         = (Returned (inr (encoded host)),
            {| isCapturing := isCapturing w;
               captures := captures w;
               trace :=
                 trace w
                 ++ EvCanvas (Qfloor (Double.mul (inject_Z tw) s))
                             (Qfloor (Double.mul (inject_Z th) s))
                 :: map (fun img =>
                           EvDraw
                             (Double.mul (Double.mul (inject_Z (Image.x img))
                                                     (inject_Z (Image.width img))) s)
                             (Double.mul (Double.mul (inject_Z (Image.y img))
                                                     (inject_Z (Image.height img))) s)
                             (Double.mul (inject_Z (Image.width img)) s)
                             (Double.mul (inject_Z (Image.height img)) s))
                        images
                 ++ [EvEncode mime (quality options)] |}))
      /\ (0 < tw -> 0 < th ->
          (Qabs (s - Qmin (Qmin (32767 / inject_Z tw) (32767 / inject_Z th)) 1)
           <= 1 # 100000000)%Q
          /\ ((tenth <= s)%Q ->
              Qfloor (Double.mul (inject_Z tw) s) <= 32767
              /\ Qfloor (Double.mul (inject_Z th) s) <= 32767
              /\ 32766 <= Z.max (Qfloor (Double.mul (inject_Z tw) s))
                                (Qfloor (Double.mul (inject_Z th) s)))))
  /\ (exists first rest draws,
         hugeGrid = first :: rest
         /\ totalWidth first rest = 60000
         /\ composeInContent (quietHost DimsNoResult) "image/jpeg" sampleOptions
                             hugeGrid (idle [])
            = (Returned (inr pngData),
               {| isCapturing := false;
                  captures := [];
                  trace := EvCanvas 32767 32767 :: draws
                           ++ [EvEncode "image/jpeg" (9 # 10)] |})
         /\ List.length draws = 9%nat
         /\ canvasScale 60000 60000 = Some (Double.div 32767 60000)
         /\ (546 # 1000 <= Double.div 32767 60000)%Q
         /\ (Double.div 32767 60000 < 547 # 1000)%Q).
Proof.
  split.
  - intros host mime options first rest w images tw th Hbig Hw Hh Hgood Hctx s.
    assert (Hscale : canvasScale tw th
                     = if Qltb s tenth then None else Some s).
    { unfold canvasScale.
      replace ((MAX_CANVAS_SIZE <? tw) || (MAX_CANVAS_SIZE <? th)) with true
        by (symmetry; apply orb_true_iff;
            destruct Hbig; [left|right]; now apply Z.ltb_lt).
      now rewrite !scaleFor_nonzero by assumption. }
    assert (Hrun : composeInContent host mime options images w
                   = match canvasLayout images with
                     | inl e => (Returned (inl e), w)
                     | inr layout =>
                         (emit (EvCanvas (canvasWidth layout) (canvasHeight layout)) ;;
                          drawImages host 0 (draws layout) ;;
                          match firstUndecoded host 0 images with
                          | Some i => ret (inl (TileDecodeFailed i))
                          | None =>
                              emit (EvEncode mime (quality options)) ;;
                              ret (inr (encoded host))
                          end) w
                     end).
    { unfold composeInContent, images.
      rewrite (firstBadData_good _ Hgood), Hctx. cbn [negb].
      now destruct (canvasLayout (first :: rest)). }
    split; [|split].
    + intros Hlt. apply Qltb_lt in Hlt. rewrite Hrun. unfold images.
      cbn [canvasLayout]. fold tw th. now rewrite Hscale, Hlt.
    + intros Hge Hall. apply Qltb_ge in Hge. rewrite Hrun. unfold images.
      cbn [canvasLayout]. fold tw th. rewrite Hscale, Hge.
      cbn [canvasWidth canvasHeight draws].
      rewrite (firstUndecoded_none host _ Hall).
      unfold bind at 1. unfold emit at 1. unfold bind at 1.
      rewrite (drawImages_all host _ Hall). unfold bind, emit, ret.
      cbn [isCapturing captures trace]. rewrite map_map.
      unfold drawOf. cbn [dx dy dWidth dHeight].
      now rewrite <- !app_assoc.
    + intros Hwpos Hhpos.
      destruct (scale_close tw th Hwpos Hhpos) as (Hlo & Hhi & Hm0 & Hm1).
      change (Qmin (Qmin (Double.div (inject_Z MAX_CANVAS_SIZE) (inject_Z tw))
                         (Double.div (inject_Z MAX_CANVAS_SIZE) (inject_Z th))) 1)
        with s in Hlo, Hhi.
      set (m := Qmin (Qmin (32767 / inject_Z tw) (32767 / inject_Z th)) 1) in *.
      split; [apply Qabs_Qle_condition; split; lra|].
      intros Hge.
      assert (Hsx : (s <= Double.div (inject_Z MAX_CANVAS_SIZE) (inject_Z tw))%Q)
        by (eapply Qle_trans; [apply Q.le_min_l|apply Q.le_min_l]).
      assert (Hsy : (s <= Double.div (inject_Z MAX_CANVAS_SIZE) (inject_Z th))%Q)
        by (eapply Qle_trans; [apply Q.le_min_l|apply Q.le_min_r]).
      split; [apply scaled_side_fits; auto|].
      split; [apply scaled_side_fits; auto|].
      assert (Hwsmall : tw <= 327670).
      { destruct (Z_lt_le_dec 327670 tw) as [H|H]; [|exact H].
        apply (ratio_below_tenth tw Hwpos) in H. lra. }
      assert (Hhsmall : th <= 327670).
      { destruct (Z_lt_le_dec 327670 th) as [H|H]; [|exact H].
        apply (ratio_below_tenth th Hhpos) in H. lra. }
      destruct (quotient_close tw Hwpos) as (Ha & Hta & _ & _).
      destruct (quotient_close th Hhpos) as (Hb & Htb & _ & _).
      pose proof (inject_Z_pos tw Hwpos) as HTw.
      pose proof (inject_Z_pos th Hhpos) as HTh.
      assert (Hcases : (m == 32767 / inject_Z tw \/ m == 32767 / inject_Z th
                        \/ m == 1)%Q).
      { unfold m.
        destruct (Q.min_spec (Qmin (32767 / inject_Z tw) (32767 / inject_Z th)) 1)
          as [[_ ->]|[_ ->]]; [|now right; right].
        destruct (Q.min_spec (32767 / inject_Z tw) (32767 / inject_Z th))
          as [[_ ->]|[_ ->]]; [now left|now right; left]. }
      unfold MAX_CANVAS_SIZE in Hbig.
      destruct (Z_le_gt_dec th tw) as [Hle|Hgt].
      * assert (Htwbig : 32767 < tw) by lia.
        apply Z.le_trans with (Qfloor (Double.mul (inject_Z tw) s));
          [|apply Z.le_max_l].
        apply (larger_side_tight tw s m Htwbig Hwsmall); [|exact Hlo].
        assert (Hord : (inject_Z th <= inject_Z tw)%Q) by now rewrite <- Zle_Qle.
        assert (Hbig' : (32767 < inject_Z tw)%Q)
          by (change 32767%Q with (inject_Z 32767); now rewrite <- Zlt_Qlt).
        assert (Hprod : (0 <= (inject_Z tw - inject_Z th) * (32767 / inject_Z th))%Q)
          by (apply Qmult_le_0_compat; lra).
        destruct Hcases as [->|[->| ->]]; lra.
      * assert (Hthbig : 32767 < th) by lia.
        apply Z.le_trans with (Qfloor (Double.mul (inject_Z th) s));
          [|apply Z.le_max_r].
        apply (larger_side_tight th s m Hthbig Hhsmall); [|exact Hlo].
        assert (Hord : (inject_Z tw <= inject_Z th)%Q)
          by (rewrite <- Zle_Qle; lia).
        assert (Hbig' : (32767 < inject_Z th)%Q)
          by (change 32767%Q with (inject_Z 32767); now rewrite <- Zlt_Qlt).
        assert (Hprod : (0 <= (inject_Z th - inject_Z tw) * (32767 / inject_Z tw))%Q)
          by (apply Qmult_le_0_compat; lra).
        destruct Hcases as [->|[->| ->]]; lra.
  - eexists _, _, (map (fun d => EvDraw (dx d) (dy d) (dWidth d) (dHeight d))
                       (map (drawOf (Double.div 32767 60000)) hugeGrid)).
    split; [reflexivity|]. split; [reflexivity|].
    split; [vm_compute; reflexivity|]. split; [reflexivity|].
    split; [vm_compute; reflexivity|].
    split; vm_compute; [discriminate|reflexivity].
Qed.

Lemma oversized_canvas_is_scaled_witness :
  composeInContent (quietHost DimsNoResult) "image/png" sampleOptions
                   [Image.mk pngData 0 0 1000 400000] (idle [])
  = (Returned (inl (PageTooLarge 1000 400000)), idle [])
  /\ composeInContent (quietHost DimsNoResult) "image/png" sampleOptions
                      [Image.mk pngData 0 0 1000 32979] (idle [])
     = (Returned (inr pngData),
        {| isCapturing := false;
           captures := [];
           trace := [EvCanvas 993 32766;
                     EvDraw 0 0
                            (Double.mul 1000 (Double.div 32767 32979))
                            (Double.mul 32979 (Double.div 32767 32979));
                     EvEncode "image/png" (9 # 10)] |}).
Proof.
  split.
  - apply (proj1 (proj1 oversized_canvas_is_scaled
                    (quietHost DimsNoResult) "image/png"%string sampleOptions
                    (Image.mk pngData 0 0 1000 400000) [] (idle [])
                    ltac:(right; reflexivity) ltac:(discriminate)
                    ltac:(discriminate) ltac:(repeat constructor) eq_refl)).
    vm_compute. reflexivity.
  - pose proof (proj1 (proj2 (proj1 oversized_canvas_is_scaled
                    (quietHost DimsNoResult) "image/png"%string sampleOptions
                    (Image.mk pngData 0 0 1000 32979) [] (idle [])
                    ltac:(right; reflexivity) ltac:(discriminate)
                    ltac:(discriminate) ltac:(repeat constructor) eq_refl))
                 ltac:(vm_compute; discriminate) (fun _ => eq_refl)) as H.
    rewrite H. vm_compute. reflexivity.
Defined.

(** ** Bad image data and the sort *)


Lemma insertImage_perm (a : Image.t) (l : list Image.t) :
  Permutation (a :: l) (insertImage a l).
Proof.
  induction l as [|b l IH]; [reflexivity|]. cbn [insertImage].
  destruct (compareImages a b <=? 0); [reflexivity|].
  rewrite perm_swap. now constructor.
Qed.


(** ** What a run asks of the capture primitive *)

Section Adds.

Variable P : event -> Prop.

Lemma adds_ret {A} (a : A) : adds P (ret a).
Proof. intros w. exists []. now rewrite app_nil_r. Qed.

Lemma adds_throw {A} (e : error) : adds P (@throw A e).
Proof. intros w. exists []. now rewrite app_nil_r. Qed.

Lemma adds_emit (e : event) : P e -> adds P (emit e).
Proof. intros He w. exists [e]. split; [reflexivity|now constructor]. Qed.

Lemma adds_setCapturing (b : bool) : adds P (setCapturing b).
Proof. intros w. exists []. now rewrite app_nil_r. Qed.

Lemma adds_bind {A B} (c : M A) (k : A -> M B) :
  adds P c -> (forall a, adds P (k a)) -> adds P (bind c k).
Proof.
  intros Hc Hk w. unfold bind.
  destruct (Hc w) as (added & Etr & Hall).
  destruct (c w) as [[a|e|] w']; cbn [snd] in *;
    try (exists added; now split).
  destruct (Hk a w') as (added' & Etr' & Hall').
  exists (added ++ added'). rewrite Etr', Etr, app_assoc.
  split; [reflexivity|now apply Forall_app].
Qed.

Lemma adds_try_catch {A} (c : M A) (handler : error -> M A) :
  adds P c -> (forall e, adds P (handler e)) -> adds P (try_catch c handler).
Proof.
  intros Hc Hh w. unfold try_catch.
  destruct (Hc w) as (added & Etr & Hall).
  destruct (c w) as [[a|e|] w']; cbn [snd] in *;
    try (exists added; now split).
  destruct (Hh e w') as (added' & Etr' & Hall').
  exists (added ++ added'). rewrite Etr', Etr, app_assoc.
  split; [reflexivity|now apply Forall_app].
Qed.

Lemma adds_try_finally {A} (c : M A) (cleanup : M unit) :
  adds P c -> adds P cleanup -> adds P (try_finally c cleanup).
Proof.
  intros Hc Hf w. unfold try_finally.
  destruct (Hc w) as (added & Etr & Hall).
  destruct (c w) as [[a|e|] w']; cbn [snd] in *;
    try (exists added; now split);
    destruct (Hf w') as (added' & Etr' & Hall');
    (exists (added ++ added');
     split; [|now apply Forall_app]);
    destruct (cleanup w') as [[u|e'|] w'']; cbn [snd] in *;
    now rewrite Etr', Etr, app_assoc.
Qed.

Lemma adds_foldM {S I} (body : I -> S -> M S) (l : list I) :
  (forall i s, adds P (body i s)) -> forall s, adds P (foldM body l s).
Proof.
  intros Hbody. induction l as [|i l IH]; intros s; cbn [foldM].
  - apply adds_ret.
  - apply adds_bind; [apply Hbody|exact IH].
Qed.

Lemma adds_forever {S} (body : Z -> S -> M S) (fuel : nat) :
  (forall i s, adds P (body i s)) -> forall i s, adds P (forever fuel i body s).
Proof.
  intros Hbody. induction fuel as [|fuel IH]; intros i s; cbn [forever].
  - intros w. exists []. now rewrite app_nil_r.
  - apply adds_bind; [apply Hbody|intros s'; apply IH].
Qed.

Lemma adds_for_upto {S} (bound : jsnum) (body : Z -> S -> M S) (s : S) :
  (forall i s, adds P (body i s)) -> adds P (for_upto bound body s).
Proof.
  intros Hbody. destruct bound; cbn [for_upto].
  - now apply adds_foldM.
  - intros w. now apply adds_forever.
  - apply adds_ret.
  - apply adds_ret.
Qed.

Lemma adds_drawImages (host : Host) :
  (forall a b c d, P (EvDraw a b c d)) ->
  forall ds i, adds P (drawImages host i ds).
Proof.
  intros Hdraw. induction ds as [|d ds IH]; intros i; cbn [drawImages].
  - apply adds_ret.
  - apply adds_bind; [|intros _; apply IH].
    destruct (decodes host i); [apply adds_emit; apply Hdraw|apply adds_ret].
Qed.

(** The function injected into the page sets up a canvas only as laid out,
    draws on it and encodes it. *)
Lemma adds_composeInContent (host : Host) (mime : string) (options : Options)
      (images : list Image.t) :
  (forall lay, canvasLayout images = inr lay ->
               P (EvCanvas (canvasWidth lay) (canvasHeight lay))) ->
  (forall a b c d, P (EvDraw a b c d)) ->
  P (EvEncode mime (quality options)) ->
  adds P (composeInContent host mime options images).
Proof.
  intros Hcanvas Hdraw Hencode. unfold composeInContent.
  destruct images as [|first rest]; [apply adds_ret|].
  destruct (firstBadData 0 (first :: rest)); [apply adds_ret|].
  destruct (negb (canvasContext host)); [apply adds_ret|].
  destruct (canvasLayout (first :: rest)) as [e|lay] eqn:Elay; [apply adds_ret|].
  apply adds_bind; [apply adds_emit; now apply Hcanvas|intros _].
  apply adds_bind; [now apply adds_drawImages|intros _].
  destruct (firstUndecoded host 0 (first :: rest)); [apply adds_ret|].
  apply adds_bind; [now apply adds_emit|intros _; apply adds_ret].
Qed.

End Adds.

(** The retry loop adds captures of the format ["png"] at the one quality,
    and waits. *)
Lemma retryLoop_adds (P : event -> Prop) (q maxRetries : Z) :
  P (EvCapture "png" q) -> (forall ms, P (EvWait ms)) ->
  forall script r tr,
  exists added,
    snd (retryLoop q maxRetries script r tr) = tr ++ added /\ Forall P added.
Proof.
  intros Hcap Hwait. induction script as [|a script IH]; intros r tr;
    cbn [retryLoop]; destruct (r <? maxRetries).
  - exists [EvCapture "png" q]. split; [reflexivity|now constructor].
  - exists []. now rewrite app_nil_r.
  - destruct a as [screenshot|message].
    + destruct (truthy screenshot).
      * exists [EvCapture "png" q]. split; [reflexivity|now constructor].
      * destruct (IH r (tr ++ [EvCapture "png" q])) as (added & -> & Hall).
        exists (EvCapture "png" q :: added).
        split; [now rewrite <- app_assoc|now constructor].
    + destruct (includes rateLimitMarker message).
      * destruct (IH (r + 1) (tr ++ [EvCapture "png" q; EvWait (waitTime (r + 1))]))
          as (added & -> & Hall).
        exists (EvCapture "png" q :: EvWait (waitTime (r + 1)) :: added).
        split; [now rewrite <- app_assoc|]. constructor; [assumption|].
        constructor; [apply Hwait|assumption].
      * exists [EvCapture "png" q]. split; [reflexivity|now constructor].
  - exists []. now rewrite app_nil_r.
Qed.

Lemma captureScreenshotWithRetry_adds (options : Options) (maxRetries : Z) :
  adds (requestsPng options) (captureScreenshotWithRetry options maxRetries).
Proof.
  intros w. unfold captureScreenshotWithRetry.
  destruct (retryLoop_adds (requestsPng options) (captureQuality options)
              maxRetries (conj eq_refl eq_refl) (fun _ => I)
              (captures w) 0 (trace w)) as (added & Etr & Hall).
  destruct (retryLoop _ _ _ _ _) as [[o rest] tr]. cbn [snd trace] in *.
  exists added. now split.
Qed.

(** Closes the goals [adds P c] that follow the structure of [c]. *)
Ltac adds_step :=
  match goal with
  | |- adds _ (ret _) => apply adds_ret
  | |- adds _ (throw _) => apply adds_throw
  | |- adds _ (setCapturing _) => apply adds_setCapturing
  | |- adds _ (sleep _) => apply adds_emit; exact I
  | |- adds _ (emit (EvScroll _ _)) => apply adds_emit; exact I
  | |- adds _ (emit (EvDownload _ _)) => apply adds_emit; exact I
  | |- adds _ (captureScreenshotWithRetry _ _) =>
      apply captureScreenshotWithRetry_adds
  | |- adds _ (bind _ _) => apply adds_bind; [|intros ?]
  | |- adds _ (try_catch _ _) => apply adds_try_catch; [|intros ?]
  | |- adds _ (if ?b then _ else _) => destruct b
  | |- adds _ (match ?x with _ => _ end) => destruct x
  end.

Lemma captureSegment_adds (options : Options) (m : PageMetrics) (y x : Z)
      (st : list Image.t * Z) :
  adds (requestsPng options) (captureSegment options m y x st).
Proof.
  unfold captureSegment. destruct st as [images segmentIndex].
  repeat adds_step.
Qed.

Lemma captureFullPage_adds (host : Host) (options : Options) :
  adds (requestsPng options) (captureFullPage host options).
Proof.
  unfold captureFullPage. apply adds_bind.
  - unfold getDimensions. repeat adds_step.
  - intros m. apply adds_bind.
    + unfold captureLoop. apply adds_for_upto. intros y st.
      apply adds_for_upto. intros x st'. apply captureSegment_adds.
    + intros st. unfold validateImages. repeat adds_step.
Qed.

Lemma inject_adds (host : Host) (options : Options) (images : list Image.t) :
  adds (requestsPng options)
       (inject host (if (format options =? "pdf")%string then "image/png"
                     else "image/" ++ format options)%string options images).
Proof.
  unfold inject. repeat adds_step.
  apply adds_composeInContent; [intros lay _; exact I|intros; exact I|].
  split; reflexivity.
Qed.

Lemma processImages_adds (host : Host) (options : Options)
      (images : list Image.t) :
  adds (requestsPng options) (processImages host images options).
Proof.
  unfold processImages, createPDF, combineImages.
  pose proof (inject_adds host options images) as Hinject.
  destruct (format options =? "pdf")%string;
    (apply adds_bind; [exact Hinject|intros r]);
    unfold download, generateAndDownloadPDF; repeat adds_step.
Qed.

Lemma processSingleImage_adds (host : Host) (options : Options)
      (image : string) :
  adds (requestsPng options) (processSingleImage host image options).
Proof.
  unfold processSingleImage, createSingleImagePDF, saveSingleImage,
    download, generateAndDownloadPDF.
  repeat adds_step.
Qed.

(** C10: every call of the capture primitive asks for the format ["png"]
    and the quality [Math.round(options.quality * 100)], the quality and
    its product with 100 being doubles, whatever format the options
    request; the requested format is used only where the canvas is encoded
    again. *)
Theorem capture_requests_png (host : Host) (options : Options)
        (fullPage : bool) (w : World) :
  exists added,
    trace (snd (captureScreenshot host options fullPage w)) = trace w ++ added
    /\ Forall (fun e =>
                 match e with
                 | EvCapture fmt q =>
                     fmt = "png"%string
                     /\ q = round (Double.mul (Double.nearest (quality options)) 100)
                 | EvEncode mime q =>
                     mime = (if (format options =? "pdf")%string then "image/png"
                             else "image/" ++ format options)%string
                     /\ q = quality options
                 | _ => True
                 end) added.
Proof.
  assert (H : adds (requestsPng options) (captureScreenshot host options fullPage)).
  { unfold captureScreenshot, enter, getCapturing.
    apply adds_bind.
    - apply adds_bind; [intros w0; exists []; now rewrite app_nil_r|].
      intros busy. repeat adds_step.
    - intros _. apply adds_try_finally; [|apply adds_setCapturing].
      unfold captureBody, preparePage, captureVisibleArea.
      apply adds_bind; [apply adds_ret|]. intros _. destruct fullPage.
      + apply adds_bind; [apply captureFullPage_adds|].
        intros images. apply processImages_adds.
      + apply adds_bind; [apply captureScreenshotWithRetry_adds|].
        intros image. apply processSingleImage_adds. }
  exact (H w).
Qed.

(** The quality asked for is the rounded double product: for the
    qualities 0.285 and 0.045 it is 28 and 5, where the product of the
    decimal fractions by 100, 28.5 and 4.5, would round to 29 and 5; and
    for every quality of two decimals between 0 and 1 it is the number of
    hundredths. *)
Lemma quality_is_rounded_as_a_double :
  captureQuality (mkOptions (285 # 1000) "png" "medium") = 28
  /\ captureQuality (mkOptions (45 # 1000) "png" "medium") = 5
  /\ forall k fmt speed,
      0 <= k <= 100 ->
      captureQuality (mkOptions (inject_Z k / 100) fmt speed) = k.
Proof.
  split; [vm_compute; reflexivity|]. split; [vm_compute; reflexivity|].
  intros k fmt speed Hk. unfold captureQuality. cbn [quality].
  assert (Hall : forallb (fun k => round (Double.mul (Double.nearest (inject_Z k / 100)) 100)
                                   =? k)
                         (map Z.of_nat (seq 0 101)) = true)
    by (vm_compute; reflexivity).
  rewrite forallb_forall in Hall. apply Z.eqb_eq, Hall.
  apply in_map_iff. exists (Z.to_nat k). split; [lia|].
  apply in_seq. lia.
Qed.

(** A run for a jpeg of a page of two segments: both captures ask for png
    at quality 90, and jpeg appears when the canvas is encoded. *)
Example jpeg_run_captures_png :
  let m := mkMetrics 1000 1600 1000 800 in
  let r := captureScreenshot (quietHost (DimsResult m)) sampleOptions true
             (idle [Resolved pngData; Resolved pngData]) in
  fst r = Returned (Saved "jpeg")
  /\ filter (fun e => match e with
                      | EvCapture _ _ | EvEncode _ _ => true
                      | _ => false
                      end) (trace (snd r))
     = [EvCapture "png" 90; EvCapture "png" 90; EvEncode "image/jpeg" (9 # 10)].
Proof. cbv zeta. split; vm_compute; reflexivity. Qed.

(** ** The capture loop delivers the planned grid *)

Lemma hasSegment_before (images : list Image.t) (x y : Z) :
  Forall (before x y) images -> hasSegment images x y = false.
Proof.
  unfold hasSegment. induction 1 as [|img images Hb _ IH]; [reflexivity|].
  cbn [existsb]. rewrite IH, orb_false_r. unfold before in Hb.
  apply andb_false_iff.
  destruct Hb as [Hy|[_ Hx]]; [right|left]; apply Z.eqb_neq; lia.
Qed.

(** One turn of the loop whose capture is answered at once with image
    data: the segment is appended with the geometry of its cell. *)
Lemma captureSegment_good (options : Options) (m : PageMetrics) (y x : Z)
      (images : list Image.t) (idx : Z) (d : string) (script : list response)
      (w : World) :
  captures w = Resolved d :: script -> isImageData d = true ->
  Forall (before x y) images ->
  exists w',
    captureSegment options m y x (images, idx) w
    = (Returned (images ++ [Image.mk d x y (actualWidth (cell m x y))
                                     (actualHeight (cell m x y))], idx + 1), w')
    /\ captures w' = script /\ isCapturing w' = isCapturing w.
Proof.
  intros Hc Hd Hb.
  assert (Htruthy : truthy d = true)
    by (unfold isImageData in Hd; now apply andb_true_iff in Hd).
  unfold captureSegment, try_catch, bind, sleep, emit, captureScreenshotWithRetry.
  cbn [captures trace isCapturing]. rewrite Hc. cbn [retryLoop].
  change (0 <? defaultMaxRetries) with true. cbn iota. rewrite Htruthy.
  rewrite Hd, (hasSegment_before _ _ _ Hb). cbn [negb].
  destruct (JS.lt (idx + 1) (totalSegments m)); cbn; eexists; repeat split.
Qed.

(** A row whose captures are all answered at once with image data. *)
Lemma row_captured (options : Options) (m : PageMetrics) (y : Z) :
  forall (k a : nat) (images : list Image.t) (idx : Z) (ds : list string)
         (rest : list response) (w : World),
    (k <= List.length ds)%nat -> Forall (fun d => isImageData d = true) ds ->
    captures w = map Resolved ds ++ rest ->
    Forall (before (Z.of_nat a) y) images -> Forall hasImageData images ->
    exists images' w',
      foldM (captureSegment options m y) (map Z.of_nat (seq a k)) (images, idx) w
      = (Returned (images', idx + Z.of_nat k), w')
      /\ captures w' = map Resolved (skipn k ds) ++ rest
      /\ isCapturing w' = isCapturing w
      /\ map geometry images'
         = map geometry images
           ++ map (fun x => planned (cell m x y)) (map Z.of_nat (seq a k))
      /\ Forall hasImageData images'
      /\ Forall (before (Z.of_nat (a + k)) y) images'.
Proof.
  induction k as [|k IH]; intros a images idx ds rest w Hlen Hds Hc Hb Hgood.
  - exists images, w. cbn [seq map foldM skipn]. unfold ret.
    rewrite Z.add_0_r, Nat.add_0_r, app_nil_r. repeat split; assumption.
  - destruct ds as [|d ds]; [cbn in Hlen; lia|].
    inversion Hds as [|? ? Hd Hds']; subst.
    cbn [seq map foldM]. unfold bind at 1.
    destruct (captureSegment_good options m y (Z.of_nat a) images idx d
                (map Resolved ds ++ rest) w Hc Hd Hb) as (w1 & -> & Hc1 & Hf1).
    set (img := Image.mk d (Z.of_nat a) y _ _).
    destruct (IH (Datatypes.S a) (images ++ [img]) (idx + 1) ds rest w1)
      as (images' & w' & Hrun & Hc' & Hf' & Hgeo & Hgood' & Hb');
      try assumption.
    + cbn in Hlen. lia.
    + apply Forall_app. split.
      * eapply Forall_impl; [|exact Hb]. intros i Hi. unfold before in *. lia.
      * constructor; [|constructor]. unfold before, img. cbn. lia.
    + apply Forall_app. split; [assumption|]. constructor; [exact Hd|constructor].
    + exists images', w'. rewrite Hrun. cbn [skipn].
      replace (idx + Z.of_nat (Datatypes.S k)) with (idx + 1 + Z.of_nat k) by lia.
      replace (a + Datatypes.S k)%nat with (Datatypes.S a + k)%nat by lia.
      repeat split; try assumption; try congruence.
      rewrite Hgeo, map_app, <- app_assoc. reflexivity.
Qed.

Lemma Forall_skipn_of {A} (P : A -> Prop) (n : nat) (l : list A) :
  Forall P l -> Forall P (skipn n l).
Proof.
  intros H. rewrite <- (firstn_skipn n l) in H.
  now apply Forall_app in H as [_ H].
Qed.

(** Rows whose captures are all answered at once with image data. *)
Lemma rows_captured (options : Options) (m : PageMetrics) (nx : Z) :
  forall (k b : nat) (images : list Image.t) (idx : Z) (ds : list string)
         (rest : list response) (w : World),
    (k * Z.to_nat nx <= List.length ds)%nat ->
    Forall (fun d => isImageData d = true) ds ->
    captures w = map Resolved ds ++ rest ->
    Forall (before 0 (Z.of_nat b)) images -> Forall hasImageData images ->
    exists images' w',
      foldM (fun y st => foldM (captureSegment options m y) (indices nx) st)
            (map Z.of_nat (seq b k)) (images, idx) w
      = (Returned (images', idx + Z.of_nat (k * Z.to_nat nx)), w')
      /\ captures w' = map Resolved (skipn (k * Z.to_nat nx) ds) ++ rest
      /\ isCapturing w' = isCapturing w
      /\ map geometry images'
         = map geometry images
           ++ flat_map (fun y => map (fun x => planned (cell m x y)) (indices nx))
                       (map Z.of_nat (seq b k))
      /\ Forall hasImageData images'.
Proof.
  induction k as [|k IH]; intros b images idx ds rest w Hlen Hds Hc Hb Hgood.
  - exists images, w. cbn [seq map foldM skipn flat_map Nat.mul]. unfold ret.
    rewrite Z.add_0_r, app_nil_r. repeat split; assumption.
  - destruct (row_captured options m (Z.of_nat b) (Z.to_nat nx) 0 images idx
                ds rest w) as (images1 & w1 & Hrow & Hc1 & Hf1 & Hgeo1 & Hgood1 & Hb1);
      try assumption; [cbn in Hlen; lia|].
    fold (indices nx) in Hrow, Hgeo1.
    cbn [seq map flat_map]. cbn [foldM]. unfold bind at 1. rewrite Hrow.
    destruct (IH (Datatypes.S b) images1 (idx + Z.of_nat (Z.to_nat nx))
                 (skipn (Z.to_nat nx) ds) rest w1)
      as (images' & w' & Hrun & Hc' & Hf' & Hgeo & Hgood');
      try assumption.
    + rewrite length_skipn. cbn in Hlen. lia.
    + now apply Forall_skipn_of.
    + eapply Forall_impl; [|exact Hb1]. intros i Hi. unfold before in *. lia.
    + exists images', w'. rewrite Hrun, Hc', skipn_skipn, Hgeo, Hgeo1, <- app_assoc.
      replace (idx + Z.of_nat (Datatypes.S k * Z.to_nat nx))
        with (idx + Z.of_nat (Z.to_nat nx) + Z.of_nat (k * Z.to_nat nx)) by lia.
      replace (Datatypes.S k * Z.to_nat nx)%nat
        with (k * Z.to_nat nx + Z.to_nat nx)%nat by lia.
      repeat split; try assumption; try congruence.
Qed.

Lemma map_over_flat_map {A B C} (g : B -> C) (f : A -> list B) (l : list A) :
  map g (flat_map f l) = flat_map (fun a => map g (f a)) l.
Proof.
  induction l as [|a l IH]; [reflexivity|].
  cbn [flat_map]. now rewrite map_app, IH.
Qed.

Lemma length_grid {B} (f : Z -> Z -> B) (nx : Z) (l : list Z) :
  List.length (flat_map (fun y => map (fun x => f x y) (indices nx)) l)
  = (List.length l * Z.to_nat nx)%nat.
Proof.
  induction l as [|a l IH]; [reflexivity|].
  cbn [flat_map]. rewrite length_app, IH, length_map, indices_length. cbn. lia.
Qed.

(** When every capture of a finite grid is answered at once with image
    data, the capture of the page returns one segment for every planned
    cell, with the geometry of the plan, and the count check finds nothing
    to warn about. *)
Lemma captureFullPage_delivers_the_plan (host : Host) (options : Options)
      (m : PageMetrics) (nx ny : Z) (cells : list Cell) (ds : list string)
      (rest : list response) (w : World) :
  dimensions host = DimsResult m ->
  segmentsX m = Fin nx -> segmentsY m = Fin ny -> gridPlan m = Some cells ->
  0 < nx -> 0 < ny ->
  List.length ds = List.length cells ->
  Forall (fun d => isImageData d = true) ds ->
  captures w = map Resolved ds ++ rest ->
  exists images w',
    captureFullPage host options w = (Returned (sortImages images), w')
    /\ captures w' = rest
    /\ map geometry images = map planned cells
    /\ Z.of_nat (List.length images) = nx * ny
    /\ countWarning (totalSegments m) images = None.
Proof.
  intros Hdim Hx Hy Hplan Hnx Hny Hlen Hds Hc.
  unfold gridPlan in Hplan. rewrite Hx, Hy in Hplan. injection Hplan as <-.
  rewrite length_grid, indices_length in Hlen.
  destruct (rows_captured options m nx (Z.to_nat ny) 0 [] 0 ds rest w)
    as (images & w' & Hrun & Hc' & _ & Hgeo & Hgood);
    try assumption; try constructor; [lia|].
  fold (indices ny) in Hrun, Hgeo. cbn [map app] in Hgeo.
  assert (Hcount : Z.of_nat (List.length images) = nx * ny).
  { rewrite <- (length_map geometry), Hgeo, length_grid, indices_length. nia. }
  exists images, w'.
  unfold captureFullPage, getDimensions. rewrite Hdim.
  unfold bind at 1. unfold ret at 1. unfold bind at 1.
  unfold captureLoop. rewrite Hx, Hy. cbn [for_upto].
  rewrite Hrun. cbn [fst].
  rewrite -> skipn_all2 in Hc' by lia. split; [|split; [exact Hc'|]].
  - destruct images as [|img images']; [cbn in Hcount; nia|].
    unfold validateImages, checkImages.
    rewrite (firstBadData_good _ Hgood). reflexivity.
  - split; [|split; [exact Hcount|]].
    + rewrite Hgeo, map_over_flat_map. apply flat_map_ext. intros y. now rewrite map_map.
    + unfold countWarning, totalSegments. rewrite Hx, Hy, Hcount. cbn.
      now rewrite Z.eqb_refl.
Qed.

(** A page of 2500 by 1600 in a viewport of 1000 by 800: six captures, six
    segments, in the order of the plan. *)
Example six_segments_captured :
  let m := mkMetrics 2500 1600 1000 800 in
  exists images w',
    captureFullPage (quietHost (DimsResult m)) sampleOptions
                    (idle (map Resolved (repeat pngData 6)))
    = (Returned (sortImages images), w')
    /\ captures w' = []
    /\ map geometry images
       = [(0, 0, 1000, 800); (1, 0, 1000, 800); (2, 0, 1000, 800);
          (0, 1, 1000, 800); (1, 1, 1000, 800); (2, 1, 1000, 800)]
    /\ Z.of_nat (List.length images) = 3 * 2
    /\ countWarning (totalSegments m) images = None.
Proof.
  cbv zeta.
  destruct (captureFullPage_delivers_the_plan
              (quietHost (DimsResult (mkMetrics 2500 1600 1000 800))) sampleOptions
              (mkMetrics 2500 1600 1000 800) 3 2 _ (repeat pngData 6) []
              (idle (map Resolved (repeat pngData 6)))
              eq_refl eq_refl eq_refl eq_refl eq_refl eq_refl eq_refl)
    as (images & w' & Hrun & Hrest & Hgeo & Hcount & Hwarn).
  - repeat constructor.
  - reflexivity.
  - exists images, w'. repeat split; assumption.
Qed.

(** ** The checks after the capture loop *)

Lemma segments_at_least_one (scroll viewport n : Z) :
  segments scroll viewport = Fin n -> 1 <= n.
Proof.
  unfold segments.
  destruct (JS.add _ _) as [z| | |]; cbn; intros H; try discriminate;
    injection H as <-; lia.
Qed.










(** ** More on the planned grid *)

Lemma indices_NoDup (n : Z) : NoDup (indices n).
Proof.
  unfold indices. apply Finite.Injective_map_NoDup; [|apply seq_NoDup].
  intros a b H. lia.
Qed.

Lemma gridPlan_NoDup (m : PageMetrics) (cells : list Cell) :
  gridPlan m = Some cells -> NoDup cells.
Proof.
  unfold gridPlan. destruct (segmentsX m) as [nx| | |]; try discriminate.
  destruct (segmentsY m) as [ny| | |]; try discriminate. intros [= <-].
  pose proof (indices_NoDup ny) as Hy. revert Hy.
  generalize (indices ny) as ys. induction ys as [|y ys IH]; intros Hy.
  - constructor.
  - cbn [flat_map]. inversion Hy as [|? ? Hnotin Hys]; subst.
    apply NoDup_app.
    + apply Finite.Injective_map_NoDup; [|apply indices_NoDup].
      intros a b H. now injection H.
    + now apply IH.
    + intros c Hrow Hrest. apply in_map_iff in Hrow as (x & <- & _).
      apply in_flat_map in Hrest as (y' & Hy' & Hc).
      apply in_map_iff in Hc as (x' & Heq & _). injection Heq as _ ->.
      contradiction.
Qed.

(** X1: on a positive viewport and a page whose extents are not negative,
    the union of the planned cells is the page: every pixel of the page is
    shown by some cell, and every pixel a cell shows is a pixel of the
    page. *)
Theorem grid_shows_exactly_the_page (m : PageMetrics) :
  0 < viewportWidth m -> 0 < viewportHeight m ->
  0 <= scrollWidth m -> 0 <= scrollHeight m ->
  exists cells,
    gridPlan m = Some cells
    /\ forall px py,
        (0 <= px < scrollWidth m /\ 0 <= py < scrollHeight m)
        <-> exists c, In c cells /\ shows c px py.
Proof.
  intros Hw Hh Hsw Hsh.
  destruct (grid_covers_page m Hw Hh)
    as (nx & ny & cells & Hx & Hy & Hplan & _ & Hcover).
  exists cells. split; [exact Hplan|]. intros px py. split.
  - intros [Hpx Hpy]. now apply Hcover.
  - intros (c & Hin & Hcx & Hcy).
    apply (gridPlan_In m nx ny c Hx Hy cells Hplan) in Hin
      as (x & y & Ix & Iy & ->).
    cbn [cell scrollX scrollY actualWidth actualHeight] in Hcx, Hcy.
    split.
    + apply (axis_within (scrollWidth m) (viewportWidth m) x px);
        assumption || lia.
    + apply (axis_within (scrollHeight m) (viewportHeight m) y py);
        assumption || lia.
Qed.

Lemma grid_shows_exactly_the_page_witness :
  exists cells,
    gridPlan (mkMetrics 2500 1600 1000 800) = Some cells
    /\ forall px py,
        (0 <= px < 2500 /\ 0 <= py < 1600)
        <-> exists c, In c cells /\ shows c px py.
Proof.
  apply (grid_shows_exactly_the_page (mkMetrics 2500 1600 1000 800)); cbn; lia.
Defined.

(** Two segments of one axis that share a pixel are the same segment,
    when the page is no wider than the viewport or a multiple of it. *)
Lemma axis_disjoint (scroll viewport n i j p : Z) :
  0 < viewport -> 0 <= scroll -> segments scroll viewport = Fin n ->
  scroll <= viewport \/ scroll mod viewport = 0 ->
  0 <= i < n -> 0 <= j < n ->
  covers (scrollPos i scroll viewport, actualSize i scroll viewport) p ->
  covers (scrollPos j scroll viewport, actualSize j scroll viewport) p ->
  i = j.
Proof.
  intros Hv Hs Hn Hdiv Hi Hj Ci Cj.
  destruct (Z.lt_trichotomy i j) as [Hlt|[Heq|Hgt]]; [exfalso|exact Heq|exfalso].
  - assert (H : viewport < scroll /\ scroll mod viewport <> 0)
      by (apply (axis_overlap_iff scroll viewport n Hv Hs Hn);
          exists i, j, p; split; [lia|split; [lia|split; assumption]]).
    lia.
  - assert (H : viewport < scroll /\ scroll mod viewport <> 0)
      by (apply (axis_overlap_iff scroll viewport n Hv Hs Hn);
          exists j, i, p; split; [lia|split; [lia|split; assumption]]).
    lia.
Qed.

(** X2: on a positive viewport and a page of positive extents, the planned
    cells tile the page exactly (no gap, no overlap) if and only if, along
    each axis, the page is no larger than the viewport or a whole multiple
    of it. *)
Theorem exact_tiling_iff (m : PageMetrics) (cells : list Cell) :
  0 < viewportWidth m -> 0 < viewportHeight m ->
  0 < scrollWidth m -> 0 < scrollHeight m ->
  gridPlan m = Some cells ->
  (tilesExactly cells (scrollWidth m) (scrollHeight m)
   <-> (scrollWidth m <= viewportWidth m
        \/ scrollWidth m mod viewportWidth m = 0)
       /\ (scrollHeight m <= viewportHeight m
           \/ scrollHeight m mod viewportHeight m = 0)).
Proof.
  intros Hw Hh Hsw Hsh Hplan.
  destruct (grid_covers_page m Hw Hh)
    as (nx & ny & cells' & Hx & Hy & Hplan' & _ & Hcover).
  rewrite Hplan in Hplan'. injection Hplan' as <-.
  pose proof (gridPlan_In m nx ny) as HIn.
  destruct (segments_pos_viewport (scrollWidth m) _ Hw) as (nx' & Hx' & Hnx & _).
  destruct (segments_pos_viewport (scrollHeight m) _ Hh) as (ny' & Hy' & Hny & _).
  unfold segmentsX in Hx. unfold segmentsY in Hy.
  rewrite Hx in Hx'. rewrite Hy in Hy'.
  injection Hx' as <-. injection Hy' as <-.
  assert (Hrow0 : covers (scrollPos 0 (scrollHeight m) (viewportHeight m),
                          actualSize 0 (scrollHeight m) (viewportHeight m)) 0)
    by (unfold covers, actualSize, scrollPos; cbn [fst snd]; lia).
  assert (Hcol0 : covers (scrollPos 0 (scrollWidth m) (viewportWidth m),
                          actualSize 0 (scrollWidth m) (viewportWidth m)) 0)
    by (unfold covers, actualSize, scrollPos; cbn [fst snd]; lia).
  split.
  - intros [_ Hdisjoint].
    assert (Hsame : forall c1 c2 px py,
               In c1 cells -> In c2 cells ->
               shows c1 px py -> shows c2 px py -> c1 = c2).
    { intros c1 c2 px py H1 H2 S1 S2.
      apply In_nth_error in H1 as [i Hi]. apply In_nth_error in H2 as [j Hj].
      assert (i = j) by (eapply Hdisjoint; eassumption). subst j. congruence. }
    split.
    + destruct (Z_le_gt_dec (scrollWidth m) (viewportWidth m)) as [|Hbig];
        [now left|right].
      destruct (Z.eq_dec (scrollWidth m mod viewportWidth m) 0) as [|Hrem];
        [assumption|exfalso].
      destruct (proj2 (axis_overlap_iff (scrollWidth m) (viewportWidth m) nx Hw
                         (Z.lt_le_incl _ _ Hsw) Hx))
        as (i & j & p & Hij & Hj & Ci & Cj); [split; [lia|assumption]|].
      assert (Heq : cell m i 0 = cell m j 0).
      { apply (Hsame _ _ p 0).
        - apply (HIn _ Hx Hy cells Hplan). exists i, 0. repeat split; lia.
        - apply (HIn _ Hx Hy cells Hplan). exists j, 0. repeat split; lia.
        - split; assumption.
        - split; assumption. }
      injection Heq; intros; lia.
    + destruct (Z_le_gt_dec (scrollHeight m) (viewportHeight m)) as [|Hbig];
        [now left|right].
      destruct (Z.eq_dec (scrollHeight m mod viewportHeight m) 0) as [|Hrem];
        [assumption|exfalso].
      destruct (proj2 (axis_overlap_iff (scrollHeight m) (viewportHeight m) ny Hh
                         (Z.lt_le_incl _ _ Hsh) Hy))
        as (i & j & p & Hij & Hj & Ci & Cj); [split; [lia|assumption]|].
      assert (Heq : cell m 0 i = cell m 0 j).
      { apply (Hsame _ _ 0 p).
        - apply (HIn _ Hx Hy cells Hplan). exists 0, i. repeat split; lia.
        - apply (HIn _ Hx Hy cells Hplan). exists 0, j. repeat split; lia.
        - split; assumption.
        - split; assumption. }
      injection Heq; intros; lia.
  - intros [Hdw Hdh]. split; [exact Hcover|].
    intros i j ci cj px py Hi Hj [Cix Ciy] [Cjx Cjy].
    assert (Hini : In ci cells) by (eapply nth_error_In; eassumption).
    assert (Hinj : In cj cells) by (eapply nth_error_In; eassumption).
    apply (HIn _ Hx Hy cells Hplan) in Hini as (x1 & y1 & Ix1 & Iy1 & ->).
    apply (HIn _ Hx Hy cells Hplan) in Hinj as (x2 & y2 & Ix2 & Iy2 & ->).
    cbn [cell scrollX scrollY actualWidth actualHeight] in Cix, Ciy, Cjx, Cjy.
    assert (x1 = x2)
      by (eapply (axis_disjoint (scrollWidth m) (viewportWidth m) nx);
          try eassumption; lia).
    assert (y1 = y2)
      by (eapply (axis_disjoint (scrollHeight m) (viewportHeight m) ny);
          try eassumption; lia).
    subst x2 y2.
    apply (proj1 (NoDup_nth_error cells) (gridPlan_NoDup m cells Hplan)).
    + apply nth_error_Some. congruence.
    + congruence.
Qed.

Lemma exact_tiling_iff_witness :
  tilesExactly [ mkCell 0 0 0 0 1000 800; mkCell 1 0 1000 0 1000 800;
                 mkCell 2 0 2000 0 1000 800; mkCell 0 1 0 800 1000 800;
                 mkCell 1 1 1000 800 1000 800; mkCell 2 1 2000 800 1000 800 ]
               3000 1600.
Proof.
  apply (proj2 (exact_tiling_iff (mkMetrics 3000 1600 1000 800) _
                  ltac:(cbn; lia) ltac:(cbn; lia) ltac:(cbn; lia)
                  ltac:(cbn; lia) eq_refl)).
  cbn. lia.
Defined.

(** ** More on the rate-limited capture *)

Lemma retryLoop_waits_bounded (q maxRetries : Z) :
  forall script r tr,
    0 <= r ->
    exists added,
      snd (retryLoop q maxRetries script r tr) = tr ++ added
      /\ Z.of_nat (List.length (waitsOf added)) <= Z.max 0 (maxRetries - r)
      /\ Forall (fun ms => 1000 <= ms <= 3000) (waitsOf added).
Proof.
  induction script as [|a script IH]; intros r tr Hr; cbn [retryLoop];
    destruct (Z.ltb_spec r maxRetries).
  - exists [EvCapture "png" q]. cbn. repeat split; [lia|constructor].
  - exists []. rewrite app_nil_r. cbn. repeat split; [lia|constructor].
  - destruct a as [screenshot|message].
    + destruct (truthy screenshot).
      * exists [EvCapture "png" q]. cbn. repeat split; [lia|constructor].
      * destruct (IH r (tr ++ [EvCapture "png" q]) Hr) as (added & -> & Hn & Hall).
        exists (EvCapture "png" q :: added).
        rewrite <- app_assoc. repeat split; assumption.
    + destruct (includes rateLimitMarker message).
      * destruct (IH (r + 1) (tr ++ [EvCapture "png" q; EvWait (waitTime (r + 1))])
                     ltac:(lia)) as (added & -> & Hn & Hall).
        exists (EvCapture "png" q :: EvWait (waitTime (r + 1)) :: added).
        rewrite <- app_assoc. split; [reflexivity|].
        change (waitsOf (EvCapture "png" q :: EvWait (waitTime (r + 1)) :: added))
          with (waitTime (r + 1) :: waitsOf added).
        cbn [List.length]. split; [lia|].
        constructor; [unfold waitTime; lia|assumption].
      * exists [EvCapture "png" q]. cbn. repeat split; [lia|constructor].
  - exists []. rewrite app_nil_r. cbn. repeat split; [lia|constructor].
Qed.

(** X3: whatever the capture primitive answers, one call of the
    rate-limited capturer waits at most [maxRetries] times, and every wait
    lasts between 1000 and 3000 ms; the time it spends backing off is at
    most 3000 ms times [maxRetries]. *)
Theorem backoff_is_bounded (options : Options) (maxRetries : Z) (w : World) :
  exists added,
    trace (snd (captureScreenshotWithRetry options maxRetries w))
    = trace w ++ added
    /\ Z.of_nat (List.length (waitsOf added)) <= Z.max 0 maxRetries
    /\ Forall (fun ms => 1000 <= ms <= 3000) (waitsOf added)
    /\ fold_right Z.add 0 (waitsOf added) <= 3000 * Z.max 0 maxRetries.
Proof.
  unfold captureScreenshotWithRetry.
  destruct (retryLoop_waits_bounded (captureQuality options) maxRetries
              (captures w) 0 (trace w) ltac:(lia)) as (added & Etr & Hn & Hall).
  destruct (retryLoop _ _ _ _ _) as [[o rest] tr]. cbn [snd trace] in *.
  exists added. rewrite Z.sub_0_r in Hn. repeat split; try assumption.
  revert Hn. generalize (Z.max 0 maxRetries) as bound.
  induction Hall as [|ms l Hms _ IH]; intros bound Hn; cbn [fold_right List.length] in *.
  - lia.
  - specialize (IH (bound - 1) ltac:(lia)). lia.
Qed.

(** X4: a capture that resolves with an empty value is tried again at
    once: it is followed by no wait and is not counted as a retry, so any
    number of empty answers, also more than [maxRetries], is passed over
    until an answer carries data. *)
Theorem empty_answers_are_not_counted (options : Options) (maxRetries : Z)
        (k : nat) (img : string) (rest : list response) (w : World) :
  0 < maxRetries -> truthy img = true ->
  captures w = repeat (Resolved "") k ++ Resolved img :: rest ->
  captureScreenshotWithRetry options maxRetries w
  = (Returned img,
     {| isCapturing := isCapturing w;
        captures := rest;
        trace := trace w
                 ++ repeat (EvCapture "png" (captureQuality options))
                           (Datatypes.S k) |}).
Proof.
  intros Hmax Himg Hc. unfold captureScreenshotWithRetry. rewrite Hc.
  generalize (trace w) as tr. clear Hc.
  induction k as [|k IH]; intros tr; cbn [repeat app retryLoop];
    (destruct (Z.ltb_spec 0 maxRetries); [|lia]).
  - now rewrite Himg.
  - cbn [truthy String.eqb negb]. rewrite IH, <- app_assoc. reflexivity.
Qed.

Lemma empty_answers_are_not_counted_witness :
  captureScreenshotWithRetry sampleOptions defaultMaxRetries
    (idle [Resolved ""; Resolved ""; Resolved ""; Resolved ""; Resolved "";
           Resolved pngData])
  = (Returned pngData,
     {| isCapturing := false;
        captures := [];
        trace := repeat (EvCapture "png" 90) 6 |}).
Proof.
  apply (empty_answers_are_not_counted sampleOptions defaultMaxRetries 5
           pngData [] (idle (repeat (Resolved "") 5 ++ [Resolved pngData])));
    reflexivity.
Defined.

(** ** The capture loop, turn by turn *)



Lemma capturedImages_geometry (cells : list Cell) (ds : list string) :
  List.length cells = List.length ds ->
  map geometry (capturedImages cells ds) = map planned cells.
Proof.
  revert ds. induction cells as [|c cells IH]; intros [|d ds] Hlen;
    try discriminate; [reflexivity|].
  cbn [capturedImages map]. f_equal. apply IH. now injection Hlen.
Qed.








(** ** The sort after the loop *)



(** ** The effects of a loop that meets no failure *)






Lemma gridPlan_rows (m : PageMetrics) (cells : list Cell) :
  gridPlan m = Some cells ->
  exists nx ny,
    segmentsX m = Fin nx /\ segmentsY m = Fin ny /\ 1 <= nx /\ 1 <= ny
    /\ cells = rowsCells m nx (indices ny)
    /\ List.length cells = (Z.to_nat ny * Z.to_nat nx)%nat.
Proof.
  unfold gridPlan.
  destruct (segmentsX m) as [nx| | |] eqn:Hx; try discriminate.
  destruct (segmentsY m) as [ny| | |] eqn:Hy; try discriminate.
  intros [= <-]. exists nx, ny.
  repeat split; try reflexivity.
  - now apply (segments_at_least_one (scrollWidth m) (viewportWidth m)).
  - now apply (segments_at_least_one (scrollHeight m) (viewportHeight m)).
  - now rewrite length_grid, indices_length.
Qed.



(** ** A capture that fails *)




(** ** What a run saves *)

Lemma downloadsOf_app (a b : list event) :
  downloadsOf (a ++ b) = downloadsOf a ++ downloadsOf b.
Proof. unfold downloadsOf. now rewrite flat_map_app. Qed.

Lemma downloadsOf_none (l : list event) :
  Forall noDownload l -> downloadsOf l = [].
Proof.
  induction 1 as [|e l He _ IH]; [reflexivity|].
  unfold downloadsOf in *. cbn [flat_map]. rewrite IH.
  destruct e; try reflexivity. destruct He.
Qed.

Lemma captureScreenshotWithRetry_saves_nothing (options : Options) (maxRetries : Z) :
  adds noDownload (captureScreenshotWithRetry options maxRetries).
Proof.
  intros w. unfold captureScreenshotWithRetry.
  destruct (retryLoop_adds noDownload (captureQuality options) maxRetries
              I (fun _ => I) (captures w) 0 (trace w)) as (added & Etr & Hall).
  destruct (retryLoop _ _ _ _ _) as [[o rest] tr]. cbn [snd trace] in *.
  exists added. now split.
Qed.

(** Closes the goals [adds noDownload c] that follow the structure of [c]. *)
Ltac saves_nothing :=
  repeat match goal with
  | |- adds _ (ret _) => apply adds_ret
  | |- adds _ (throw _) => apply adds_throw
  | |- adds _ (sleep _) => apply adds_emit; exact I
  | |- adds _ (emit (EvScroll _ _)) => apply adds_emit; exact I
  | |- adds _ (emit (EvEncode _ _)) => apply adds_emit; exact I
  | |- adds _ (captureScreenshotWithRetry _ _) =>
      apply captureScreenshotWithRetry_saves_nothing
  | |- adds _ (bind _ _) => apply adds_bind; [|intros ?]
  | |- adds _ (try_catch _ _) => apply adds_try_catch; [|intros ?]
  | |- adds _ (if ?b then _ else _) => destruct b
  | |- adds _ (match ?x with _ => _ end) => destruct x
  end.

Lemma captureFullPage_saves_nothing (host : Host) (options : Options) :
  adds noDownload (captureFullPage host options).
Proof.
  unfold captureFullPage. apply adds_bind.
  - unfold getDimensions. saves_nothing.
  - intros m. apply adds_bind.
    + unfold captureLoop. apply adds_for_upto. intros y st.
      apply adds_for_upto. intros x [images idx]. unfold captureSegment.
      saves_nothing.
    + intros st. unfold validateImages. saves_nothing.
Qed.

Lemma inject_saves_nothing (host : Host) (mime : string) (options : Options)
      (images : list Image.t) :
  adds noDownload (inject host mime options images).
Proof.
  unfold inject. saves_nothing.
  apply adds_composeInContent; [intros lay _; exact I|intros; exact I|exact I].
Qed.

(** A computation whose downloads and outcome are related by [Q]. *)
Lemma saves_bind {A B} (Q : outcome B -> list (string * string) -> Prop)
      (c : M A) (k : A -> M B) :
  adds noDownload c ->
  (forall e, Q (Threw e) []) -> Q Pending [] ->
  (forall a w, exists added,
        trace (snd (k a w)) = trace w ++ added
        /\ Q (fst (k a w)) (downloadsOf added)) ->
  forall w, exists added,
    trace (snd (bind c k w)) = trace w ++ added
    /\ Q (fst (bind c k w)) (downloadsOf added).
Proof.
  intros Hc Hthrow Hpend Hk w. unfold bind.
  destruct (Hc w) as (pre & Etr & Hpre). apply downloadsOf_none in Hpre.
  destruct (c w) as [[a|e|] w']; cbn [fst snd] in *.
  - destruct (Hk a w') as (added & Etr' & HQ).
    exists (pre ++ added). rewrite Etr', Etr, app_assoc, downloadsOf_app, Hpre.
    now split.
  - exists pre. rewrite Hpre. now split.
  - exists pre. rewrite Hpre. now split.
Qed.

Lemma download_saves (host : Host) (options : Options) (url : string) (w : World) :
  exists added,
    trace (snd ((download host url (format options) ;; ret (Saved (format options))) w))
    = trace w ++ added
    /\ outcomeDownloads host options
         (fst ((download host url (format options) ;; ret (Saved (format options))) w))
         (downloadsOf added).
Proof.
  exists [EvDownload url (format options)].
  unfold download, bind, emit, ret, throw. cbn [fst snd trace].
  destruct (downloadRejects host) as [message|] eqn:E; cbn [fst snd trace];
    (split; [reflexivity|]); cbn.
  - right. exists message, url. now rewrite E.
  - split; [reflexivity|]. now exists url.
Qed.

Lemma processImages_saves (host : Host) (options : Options)
      (images : list Image.t) (w : World) :
  exists added,
    trace (snd (processImages host images options w)) = trace w ++ added
    /\ outcomeDownloads host options (fst (processImages host images options w))
                        (downloadsOf added).
Proof.
  unfold processImages. destruct (format options =? "pdf")%string.
  - unfold createPDF.
    apply (saves_bind (outcomeDownloads host options));
      [apply inject_saves_nothing|now left|reflexivity|].
    intros [e|url] w'.
    + exists []. rewrite app_nil_r. split; [reflexivity|now left].
    + exists []. rewrite app_nil_r. unfold generateAndDownloadPDF.
      destruct (truthy url), (pdfTabRejects host); cbn;
        (split; [reflexivity|]); (now left) || reflexivity.
  - unfold combineImages.
    apply (saves_bind (outcomeDownloads host options));
      [apply inject_saves_nothing|now left|reflexivity|].
    intros [e|url] w'.
    + exists []. rewrite app_nil_r. split; [reflexivity|now left].
    + destruct (truthy url); cbn [negb].
      * apply download_saves.
      * exists []. rewrite app_nil_r. split; [reflexivity|now left].
Qed.

Lemma processSingleImage_saves (host : Host) (options : Options)
      (image : string) (w : World) :
  exists added,
    trace (snd (processSingleImage host image options w)) = trace w ++ added
    /\ outcomeDownloads host options
         (fst (processSingleImage host image options w)) (downloadsOf added).
Proof.
  unfold processSingleImage. destruct (format options =? "pdf")%string.
  - exists []. rewrite app_nil_r. unfold createSingleImagePDF, generateAndDownloadPDF.
    split; [destruct (injectionRejects host), (injectionEmpty host),
              (pdfTabRejects host); reflexivity|].
    destruct (injectionRejects host), (injectionEmpty host), (pdfTabRejects host);
      cbn; (now left) || reflexivity.
  - unfold saveSingleImage. apply download_saves.
Qed.

(** X7: no partial artifact.  A run that resolves with a file name has
    saved exactly one file, whose extension is the requested format; a run
    that opens the print tab has saved none; a run that throws has saved
    nothing, unless it is the download itself that was rejected; a run still
    waiting has saved nothing. *)
Theorem downloads_follow_the_outcome (host : Host) (options : Options)
        (fullPage : bool) (w : World) :
  exists added,
    trace (snd (captureScreenshot host options fullPage w)) = trace w ++ added
    /\ match fst (captureScreenshot host options fullPage w) with
       | Returned (Saved ext) =>
           ext = format options /\ exists url, downloadsOf added = [(url, ext)]
       | Returned PdfTab => downloadsOf added = []
       | Threw e =>
           downloadsOf added = []
           \/ exists message url,
               downloadRejects host = Some message /\ e = HostError message
               /\ downloadsOf added = [(url, format options)]
       | Pending => downloadsOf added = []
       end.
Proof.
  change (exists added,
             trace (snd (captureScreenshot host options fullPage w)) = trace w ++ added
             /\ outcomeDownloads host options
                  (fst (captureScreenshot host options fullPage w))
                  (downloadsOf added)).
  unfold captureScreenshot.
  apply (saves_bind (outcomeDownloads host options));
    [|now left|reflexivity|].
  { unfold enter, getCapturing. apply adds_bind.
    - intros w0. exists []. now rewrite app_nil_r.
    - intros [|]; [apply adds_throw|apply adds_setCapturing]. }
  intros _ w1.
  assert (Hbody : exists added,
             trace (snd (captureBody host options fullPage w1)) = trace w1 ++ added
             /\ outcomeDownloads host options
                  (fst (captureBody host options fullPage w1)) (downloadsOf added)).
  { unfold captureBody, preparePage.
    apply (saves_bind (outcomeDownloads host options));
      [apply adds_ret|now left|reflexivity|].
    intros _ w2. destruct fullPage.
    - apply (saves_bind (outcomeDownloads host options));
        [apply captureFullPage_saves_nothing|now left|reflexivity|].
      intros images w3. apply processImages_saves.
    - apply (saves_bind (outcomeDownloads host options));
        [apply captureScreenshotWithRetry_saves_nothing|now left|reflexivity|].
      intros image w3. apply processSingleImage_saves. }
  destruct Hbody as (added & Etr & HQ). exists added.
  unfold try_finally, release, setCapturing.
  destruct (captureBody host options fullPage w1) as [[r|e|] w']; cbn [fst snd trace] in *;
    split; assumption.
Qed.

(** X8: a capture of the visible area that is not for pdf saves the data
    URL the capture primitive resolved with, as it is: the data is not
    checked to be an image, the canvas is not involved, and the file gets
    the extension of the requested format although the capture asked for
    png. *)
Theorem visible_capture_is_saved_as_captured
        (host : Host) (options : Options) (image : string)
        (rest : list response) (w : World) :
  isCapturing w = false ->
  captures w = Resolved image :: rest -> truthy image = true ->
  (format options =? "pdf")%string = false ->
  downloadRejects host = None ->
  captureScreenshot host options false w
  = (Returned (Saved (format options)),
     {| isCapturing := false;
        captures := rest;
        trace := trace w ++ [EvCapture "png" (captureQuality options);
                             EvDownload image (format options)] |}).
Proof.
  intros Hidle Hc Himg Hfmt Hdl.
  unfold captureScreenshot. unfold bind at 1. rewrite enter_idle by assumption.
  unfold try_finally, captureBody, preparePage, captureVisibleArea,
    processSingleImage, saveSingleImage, download, release, setCapturing.
  unfold bind, ret, emit, captureScreenshotWithRetry.
  cbn [captures trace isCapturing]. rewrite Hc. cbn [retryLoop].
  change (0 <? defaultMaxRetries) with true. cbn iota.
  rewrite Himg, Hfmt, Hdl. cbn. now rewrite <- app_assoc.
Qed.

Lemma visible_capture_is_saved_as_captured_witness :
  captureScreenshot (quietHost DimsNoResult) sampleOptions false
                    (idle [Resolved "not an image"])
  = (Returned (Saved "jpeg"),
     {| isCapturing := false;
        captures := [];
        trace := [EvCapture "png" 90; EvDownload "not an image" "jpeg"] |}).
Proof.
  apply (visible_capture_is_saved_as_captured (quietHost DimsNoResult)
           sampleOptions "not an image" [] (idle [Resolved "not an image"]));
    reflexivity.
Defined.

(** ** More on the canvas *)

(** The events of a run: captures of png at the one quality, waits,
    scrolls, canvases within the limit, draws, encodings at the quality of
    the options, and downloads. *)
Lemma captureScreenshot_adds (P : event -> Prop) (host : Host)
      (options : Options) (fullPage : bool) :
  P (EvCapture "png" (captureQuality options)) ->
  (forall ms, P (EvWait ms)) ->
  (forall x y, P (EvScroll x y)) ->
  (forall width height,
      width <= MAX_CANVAS_SIZE -> height <= MAX_CANVAS_SIZE ->
      P (EvCanvas width height)) ->
  (forall a b c d, P (EvDraw a b c d)) ->
  (forall mime, P (EvEncode mime (quality options))) ->
  (forall url extension, P (EvDownload url extension)) ->
  adds P (captureScreenshot host options fullPage).
Proof.
  intros Hcapture Hwait Hscroll Hcanvas Hdraw Hencode Hdownload.
  assert (Hretry : forall maxRetries,
             adds P (captureScreenshotWithRetry options maxRetries)).
  { intros maxRetries w. unfold captureScreenshotWithRetry.
    destruct (retryLoop_adds P (captureQuality options) maxRetries
                Hcapture Hwait (captures w) 0 (trace w)) as (added & Etr & Hall).
    destruct (retryLoop _ _ _ _ _) as [[o rest] tr]. cbn [snd trace] in *.
    exists added. now split. }
  assert (Hcompose : forall mime images,
             adds P (composeInContent host mime options images)).
  { intros mime images. apply adds_composeInContent; auto.
    intros lay Hlay. destruct (canvas_fits images lay Hlay) as (Hw & Hh & _).
    now apply Hcanvas. }
  unfold captureScreenshot, enter, getCapturing.
  apply adds_bind.
  { apply adds_bind; [intros w0; exists []; now rewrite app_nil_r|].
    intros busy. destruct busy; [apply adds_throw|apply adds_setCapturing]. }
  intros _. apply adds_try_finally; [|apply adds_setCapturing].
  unfold captureBody, preparePage, captureFullPage, getDimensions, captureLoop,
    validateImages, processImages, createPDF, combineImages, inject, download,
    generateAndDownloadPDF, captureVisibleArea, processSingleImage,
    createSingleImagePDF, saveSingleImage.
  repeat match goal with
  | |- adds _ (ret _) => apply adds_ret
  | |- adds _ (throw _) => apply adds_throw
  | |- adds _ (sleep _) => apply adds_emit; apply Hwait
  | |- adds _ (emit _) => apply adds_emit; auto
  | |- adds _ (captureScreenshotWithRetry _ _) => apply Hretry
  | |- adds _ (composeInContent _ _ _ _) => apply Hcompose
  | |- adds _ (for_upto _ _ _) => apply adds_for_upto; intros ? ?
  | |- adds _ (captureSegment _ _ _ _ _) => unfold captureSegment
  | |- adds _ (generateAndDownloadPDF _) => unfold generateAndDownloadPDF
  | |- adds _ (download _ _ _) => unfold download
  | |- adds _ (bind _ _) => apply adds_bind; [|intros ?]
  | |- adds _ (try_catch _ _) => apply adds_try_catch; [|intros ?]
  | |- adds _ (if ?b then _ else _) => destruct b
  | |- adds _ (match ?x with _ => _ end) => destruct x
  | |- adds _ (let (_, _) := ?x in _) => destruct x
  end.
Qed.

(** X9: no run sets a canvas up beyond the limit: whatever a run of
    [captureScreenshot] meets, every canvas it sets up has both sides
    within 32767 pixels.  And whenever the compositor lays a canvas out,
    the scale lies between 0.1 and 1 and there is one draw for every
    segment. *)
Theorem laid_out_canvas_fits :
  (forall host options fullPage w,
      exists added,
        trace (snd (captureScreenshot host options fullPage w)) = trace w ++ added
        /\ Forall canvasFits added)
  /\ (forall images lay,
        canvasLayout images = inr lay ->
        canvasWidth lay <= 32767 /\ canvasHeight lay <= 32767
        /\ (1 # 10 <= scale lay)%Q /\ (scale lay <= 1)%Q
        /\ List.length (draws lay) = List.length images).
Proof.
  split.
  - intros host options fullPage.
    apply (captureScreenshot_adds canvasFits host options fullPage);
      try (intros; exact I).
    intros width height Hw Hh. split; assumption.
  - intros images lay H.
    destruct (canvas_fits images lay H) as (Hw & Hh & Hlo & Hhi).
    split; [exact Hw|]. split; [exact Hh|]. split; [exact Hlo|].
    split; [exact Hhi|]. clear Hw Hh Hlo Hhi.
    destruct images as [|first rest]; [discriminate|]. cbn [canvasLayout] in H.
    destruct (canvasScale _ _); [|discriminate]. injection H as <-.
    cbn [draws List.length]. f_equal. apply length_map.
Qed.

Lemma laid_out_canvas_fits_witness :
  exists lay,
    canvasLayout [Image.mk pngData 0 0 1000 32979] = inr lay
    /\ canvasWidth lay = 993 /\ canvasHeight lay = 32766
    /\ canvasWidth lay <= 32767 /\ canvasHeight lay <= 32767
    /\ (1 # 10 <= scale lay)%Q /\ (scale lay <= 1)%Q
    /\ List.length (draws lay) = 1%nat.
Proof.
  eexists. split; [vm_compute; reflexivity|].
  split; [reflexivity|]. split; [reflexivity|].
  apply (proj2 laid_out_canvas_fits [Image.mk pngData 0 0 1000 32979]).
  vm_compute. reflexivity.
Defined.

(** X10: for segments whose totals are positive, the compositor fails with
    [PageTooLarge] exactly when the total width or the total height exceeds
    327670 pixels, ten times the canvas limit. *)
Theorem page_is_too_large_iff (first : Image.t) (rest : list Image.t) :
  0 < totalWidth first rest -> 0 < totalHeight first rest ->
  (canvasLayout (first :: rest)
   = inl (PageTooLarge (totalWidth first rest) (totalHeight first rest))
   <-> 327670 < Z.max (totalWidth first rest) (totalHeight first rest)).
Proof.
  intros Hw Hh. cbn [canvasLayout].
  pose proof (page_too_large_iff _ _ Hw Hh) as Hiff.
  change (10 * MAX_CANVAS_SIZE) with 327670 in Hiff.
  destruct (canvasScale _ _) as [s|].
  - split; [discriminate|]. intros H. apply Hiff in H. discriminate.
  - split; [intros _; now apply Hiff|reflexivity].
Qed.

Lemma page_is_too_large_iff_witness :
  canvasLayout [Image.mk pngData 0 0 1000 327671]
  = inl (PageTooLarge 1000 327671)
  /\ canvasLayout [Image.mk pngData 0 0 1000 327670]
     <> inl (PageTooLarge 1000 327670).
Proof.
  split.
  - apply (proj2 (page_is_too_large_iff (Image.mk pngData 0 0 1000 327671) []
                    eq_refl eq_refl)). reflexivity.
  - intros H.
    apply (proj1 (page_is_too_large_iff (Image.mk pngData 0 0 1000 327670) []
                    eq_refl eq_refl)) in H. discriminate.
Defined.

(** ** The sort, on any list *)

Lemma imageLe_compare (a b : Image.t) :
  imageLe a b <-> compareImages a b <= 0.
Proof.
  unfold imageLe, compareImages.
  destruct (Z.eqb_spec (Image.y a) (Image.y b)); cbn [negb]; lia.
Qed.

Lemma insertImage_sorted (a : Image.t) (l : list Image.t) :
  Sorted imageLe l -> Sorted imageLe (insertImage a l).
Proof.
  induction 1 as [|b l Hl IH Hb]; cbn [insertImage].
  - repeat constructor.
  - destruct (Z.leb_spec (compareImages a b) 0) as [Hle|Hgt].
    + constructor; [now constructor|]. constructor. now apply imageLe_compare.
    + constructor; [exact IH|].
      assert (Hba : imageLe b a).
      { apply imageLe_compare. unfold compareImages in *.
        destruct (Z.eqb_spec (Image.y a) (Image.y b)) as [E|E];
          cbn [negb] in *.
        - rewrite E, Z.eqb_refl. cbn. lia.
        - destruct (Z.eqb_spec (Image.y b) (Image.y a)); cbn; lia. }
      destruct l as [|c l]; cbn [insertImage].
      * constructor. exact Hba.
      * destruct (compareImages a c <=? 0); constructor; [exact Hba|].
        now inversion Hb.
Qed.

(** X11: the sort after the capture loop returns the same segments, none
    lost and none added, ordered by row and, within a row, by column. *)
Theorem images_are_sorted_by_row_then_column (images : list Image.t) :
  Permutation images (sortImages images)
  /\ Sorted imageLe (sortImages images).
Proof.
  split.
  - induction images as [|a l IH]; [constructor|].
    cbn [sortImages fold_right]. fold (sortImages l).
    rewrite <- insertImage_perm. now constructor.
  - induction images as [|a l IH]; [constructor|].
    cbn [sortImages fold_right]. fold (sortImages l).
    now apply insertImage_sorted.
Qed.

(** ** Any number of invocations *)

(** X12: however many invocations of [captureScreenshot] are made and
    however their calls and endings interleave, at every moment at most one
    of them is inside its [try] block, and the flag is up exactly while one
    is. *)
Theorem at_most_one_run_is_active (w : World) (acts : list Calls.action) :
  let s := Calls.run (Calls.init w) acts in
  (isCapturing (Calls.world s) = true <-> exists i, Calls.calls s i = Calls.Running)
  /\ (forall i j,
         Calls.calls s i = Calls.Running -> Calls.calls s j = Calls.Running ->
         i = j).
Proof.
  apply (CallsFacts.reachable_invariant (Calls.run (Calls.init w) acts)).
  now exists w, acts.
Qed.

(** ** The composite of a captured page *)

Lemma fold_left_max_bounds (l : list Z) :
  forall a,
    In (fold_left Z.max l a) (a :: l)
    /\ forall z, In z (a :: l) -> z <= fold_left Z.max l a.
Proof.
  induction l as [|b l IH]; intros a; cbn [fold_left].
  - split; [now left|]. intros z [Hz|[]]. lia.
  - destruct (IH (Z.max a b)) as [Hin Hge]. split.
    + destruct Hin as [Heq|Hin]; [|now right; right].
      rewrite <- Heq. destruct (Z.max_spec a b) as [[_ ->]|[_ ->]];
        [right; now left|now left].
    + intros z Hz. pose proof (Hge (Z.max a b) (or_introl eq_refl)) as Hm.
      destruct Hz as [Hz|[Hz|Hz]]; [lia|lia|apply Hge; now right].
Qed.

Lemma maxOf_is (f : Image.t -> Z) (first : Image.t) (rest : list Image.t) (M : Z) :
  (forall i, In i (first :: rest) -> f i <= M) ->
  (exists i, In i (first :: rest) /\ f i = M) ->
  maxOf f first rest = M.
Proof.
  intros Hle (i & Hi & Hfi). unfold maxOf.
  destruct (fold_left_max_bounds (map f rest) (f first)) as [Hin Hge].
  change (f first :: map f rest) with (map f (first :: rest)) in Hin, Hge.
  apply in_map_iff in Hin as (j & Hfj & Hj).
  apply Z.le_antisymm; [rewrite <- Hfj; now apply Hle|].
  rewrite <- Hfi. apply Hge. now apply in_map.
Qed.

(** X13: the canvas of a captured page spans whole viewports.  For a page
    captured on a positive viewport, the total width the compositor
    computes is the number of columns times the smaller of viewport width
    and page width, and likewise for the height; it is never less than the
    page, and equals the page width exactly when the page is no wider than
    the viewport or a whole multiple of it. *)
Theorem composite_spans_whole_viewports (m : PageMetrics) (cells : list Cell)
        (ds : list string) :
  0 < viewportWidth m -> 0 < viewportHeight m ->
  0 <= scrollWidth m -> 0 <= scrollHeight m ->
  gridPlan m = Some cells -> List.length ds = List.length cells ->
  exists nx ny first rest,
    segmentsX m = Fin nx /\ segmentsY m = Fin ny
    /\ capturedImages cells ds = first :: rest
    /\ totalWidth first rest = nx * Z.min (viewportWidth m) (scrollWidth m)
    /\ totalHeight first rest = ny * Z.min (viewportHeight m) (scrollHeight m)
    /\ scrollWidth m <= totalWidth first rest
    /\ scrollHeight m <= totalHeight first rest
    /\ (totalWidth first rest = scrollWidth m
        <-> scrollWidth m <= viewportWidth m
            \/ scrollWidth m mod viewportWidth m = 0).
Proof.
  intros Hw Hh Hsw Hsh Hplan Hlen.
  destruct (gridPlan_rows m cells Hplan)
    as (nx & ny & Hx & Hy & Hnx & Hny & Hcells & Hcount).
  destruct (segments_pos_viewport (scrollWidth m) _ Hw) as (nx' & Hx' & _ & Hupx & Hlowx).
  destruct (segments_pos_viewport (scrollHeight m) _ Hh) as (ny' & Hy' & _ & Hupy & Hlowy).
  unfold segmentsX in Hx. unfold segmentsY in Hy.
  rewrite Hx in Hx'. rewrite Hy in Hy'. injection Hx' as <-. injection Hy' as <-.
  specialize (Hupx Hsw). specialize (Hupy Hsh).
  pose proof (capturedImages_geometry cells ds (eq_sym Hlen)) as Hgeo.
  pose proof (gridPlan_In m nx ny) as HIn.
  (* the first segment is the one of cell (0, 0) *)
  assert (Hhead : exists d ds' cells', ds = d :: ds' /\ cells = cell m 0 0 :: cells').
  { subst cells. unfold rowsCells, rowCells, indices in *.
    destruct (Z.to_nat ny) as [|ky] eqn:Eny; [lia|].
    destruct (Z.to_nat nx) as [|kx] eqn:Enx; [lia|].
    cbn [seq map flat_map app] in *.
    destruct ds as [|d ds']; [discriminate|]. now eexists _, _, _. }
  destruct Hhead as (d & ds' & cells' & -> & Ecells).
  rewrite Ecells in Hgeo |- *. cbn [capturedImages] in Hgeo |- *.
  set (first := Image.mk d _ _ _ _) in *.
  set (rest := capturedImages cells' ds') in *.
  assert (Himg : forall i, In i (first :: rest) ->
                           exists x y, 0 <= x < nx /\ 0 <= y < ny
                                       /\ geometry i = planned (cell m x y)).
  { intros i Hi. apply (in_map geometry) in Hi.
    rewrite Hgeo, <- Ecells in Hi. apply in_map_iff in Hi as (c & Hc & Hin).
    apply (HIn c Hx Hy cells Hplan) in Hin as (x & y & Ix & Iy & ->).
    now exists x, y. }
  assert (Hhas : forall x y, 0 <= x < nx -> 0 <= y < ny ->
                             exists i, In i (first :: rest)
                                       /\ geometry i = planned (cell m x y)).
  { intros x y Ix Iy.
    assert (Hin : In (cell m x y) cells)
      by (apply (HIn _ Hx Hy cells Hplan); now exists x, y).
    apply (in_map planned) in Hin. rewrite Ecells, <- Hgeo in Hin.
    apply in_map_iff in Hin as (i & Hi & Hin). now exists i. }
  assert (HmaxX : maxOf Image.x first rest = nx - 1).
  { apply maxOf_is.
    - intros i Hi. destruct (Himg i Hi) as (x & y & Ix & Iy & Hg).
      unfold geometry, planned in Hg. cbn in Hg. injection Hg as -> _ _ _. lia.
    - destruct (Hhas (nx - 1) 0 ltac:(lia) ltac:(lia)) as (i & Hi & Hg).
      exists i. split; [exact Hi|].
      unfold geometry, planned in Hg. cbn in Hg. now injection Hg as -> _ _ _. }
  assert (HmaxY : maxOf Image.y first rest = ny - 1).
  { apply maxOf_is.
    - intros i Hi. destruct (Himg i Hi) as (x & y & Ix & Iy & Hg).
      unfold geometry, planned in Hg. cbn in Hg. injection Hg as _ -> _ _. lia.
    - destruct (Hhas 0 (ny - 1) ltac:(lia) ltac:(lia)) as (i & Hi & Hg).
      exists i. split; [exact Hi|].
      unfold geometry, planned in Hg. cbn in Hg. now injection Hg as _ -> _ _. }
  assert (Hwidth : Image.width first = Z.min (viewportWidth m) (scrollWidth m))
    by (unfold first; cbn; unfold actualSize, scrollPos; lia).
  assert (Hheight : Image.height first = Z.min (viewportHeight m) (scrollHeight m))
    by (unfold first; cbn; unfold actualSize, scrollPos; lia).
  exists nx, ny, first, rest. unfold totalWidth, totalHeight, segmentsX, segmentsY.
  rewrite HmaxX, HmaxY, Hwidth, Hheight.
  replace (nx - 1 + 1) with nx by lia. replace (ny - 1 + 1) with ny by lia.
  split; [exact Hx|]. split; [exact Hy|]. split; [reflexivity|].
  split; [reflexivity|]. split; [reflexivity|].
  split; [nia|]. split; [nia|].
  destruct (Z_le_gt_dec (scrollWidth m) (viewportWidth m)) as [Hsmall|Hbig].
  - split; [now left|]. intros _.
    assert (nx = 1) by nia. subst nx. lia.
  - rewrite Z.min_l by lia. split.
    + intros Heq. right. rewrite <- Heq. apply Z.mod_mul. lia.
    + intros [Hle|Hmod]; [lia|].
      pose proof (Z.div_mod (scrollWidth m) (viewportWidth m) ltac:(lia)) as Hdm.
      rewrite Hmod in Hdm. assert (1 < nx) by nia. specialize (Hlowx ltac:(lia)).
      revert Hdm. generalize (scrollWidth m / viewportWidth m) as k. intros k Hdm.
      assert (nx - 1 < k) by nia. assert (k <= nx) by nia.
      assert (k = nx) by lia. subst k. lia.
Qed.

Lemma composite_spans_whole_viewports_witness :
  exists first rest,
    capturedImages [ mkCell 0 0 0 0 1000 800; mkCell 1 0 1000 0 1000 800;
                     mkCell 2 0 1500 0 1000 800 ]
                   (repeat pngData 3) = first :: rest
    /\ totalWidth first rest = 3 * 1000
    /\ 2500 <= totalWidth first rest.
Proof.
  destruct (composite_spans_whole_viewports (mkMetrics 2500 800 1000 800)
              [ mkCell 0 0 0 0 1000 800; mkCell 1 0 1000 0 1000 800;
                mkCell 2 0 1500 0 1000 800 ]
              (repeat pngData 3)
              ltac:(cbn; lia) ltac:(cbn; lia) ltac:(cbn; lia) ltac:(cbn; lia)
              eq_refl eq_refl)
    as (nx & ny & first & rest & Hx & _ & Himg & Hw & _ & Hle & _).
  injection Hx as <-. exists first, rest.
  split; [exact Himg|]. split; [exact Hw|exact Hle].
Defined.

(** ** Progress and file names *)

Lemma progressAfter_pos (idx : Z) (p : positive) :
  progressAfter idx (Zpos p) = (160 * idx + Zpos p) / (2 * Zpos p) + 20.
Proof.
  unfold progressAfter, round, Qfloor, Qdiv, Qinv, Qmult, Qplus, inject_Z.
  cbn [Qnum Qden]. f_equal. f_equal; lia.
Qed.

(** X14: while a page of [n] segments is captured, the progress reported
    after segment [i] lies between 20 and 100, does not decrease from one
    segment to the next, and is 100 after the last segment. *)
Theorem progress_is_bounded_and_monotone (n i j : Z) :
  0 < n -> 1 <= i <= j -> j <= n ->
  20 <= progressAfter i n
  /\ progressAfter i n <= progressAfter j n
  /\ progressAfter j n <= 100
  /\ progressAfter n n = 100.
Proof.
  intros Hn Hij Hj. destruct n as [|p|p]; try lia.
  rewrite !progressAfter_pos.
  assert (Hlast : (160 * Z.pos p + Z.pos p) / (2 * Z.pos p) = 80)
    by (symmetry; apply (Z.div_unique_pos _ _ 80 (Z.pos p)); lia).
  assert (Hlow : 0 <= (160 * i + Z.pos p) / (2 * Z.pos p))
    by (apply Z.div_pos; lia).
  assert (Hmono : (160 * i + Z.pos p) / (2 * Z.pos p)
                  <= (160 * j + Z.pos p) / (2 * Z.pos p))
    by (apply Z.div_le_mono; lia).
  assert (Hhigh : (160 * j + Z.pos p) / (2 * Z.pos p)
                  <= (160 * Z.pos p + Z.pos p) / (2 * Z.pos p))
    by (apply Z.div_le_mono; lia).
  lia.
Qed.

Lemma progress_is_bounded_and_monotone_witness :
  20 <= progressAfter 1 6
  /\ progressAfter 1 6 <= progressAfter 4 6
  /\ progressAfter 4 6 <= 100
  /\ progressAfter 6 6 = 100.
Proof. apply (progress_is_bounded_and_monotone 6 1 4); lia. Defined.

Lemma replaceColons_app (a b : string) :
  replaceColons (a ++ b) = (replaceColons a ++ replaceColons b)%string.
Proof. induction a as [|c a IH]; cbn; [reflexivity|now rewrite IH]. Qed.

Lemma replaceColons_id (s : string) :
  hasColon s = false -> replaceColons s = s.
Proof.
  induction s as [|c s IH]; cbn; [reflexivity|]. intros H.
  apply orb_false_iff in H as [-> Hs]. now rewrite IH.
Qed.

Lemma replaceColons_clean (s : string) : hasColon (replaceColons s) = false.
Proof.
  induction s as [|c s IH]; cbn; [reflexivity|]. rewrite IH, orb_false_r.
  destruct (Ascii.eqb_spec c ":") as [->|Hc]; [reflexivity|].
  now apply Ascii.eqb_neq.
Qed.

Lemma hasColon_app (a b : string) :
  hasColon (a ++ b) = hasColon a || hasColon b.
Proof.
  induction a as [|c a IH]; cbn; [reflexivity|]. now rewrite IH, orb_assoc.
Qed.

Lemma string_length_app (a b : string) :
  String.length (a ++ b) = (String.length a + String.length b)%nat.
Proof. induction a as [|c a IH]; cbn; [reflexivity|now rewrite IH]. Qed.

Lemma string_app_assoc (a b c : string) :
  ((a ++ b) ++ c = a ++ (b ++ c))%string.
Proof. induction a as [|x a IH]; cbn; [reflexivity|now rewrite IH]. Qed.

Lemma substring_prefix (a b : string) :
  substring 0 (String.length a) (a ++ b) = a.
Proof. induction a as [|c a IH]; cbn; [now destruct b|now rewrite IH]. Qed.

(** X15: the file name of a screenshot never contains a colon before its
    extension, whatever the clock gives; and for a time stamp of the form
    of [toISOString], date [T] hours [:] minutes [:] seconds and then the
    fraction, it is [screenshot_], the date, [T] and the time with dashes
    for colons, a dot and the extension. *)
Theorem filename_has_no_colon (iso extension : string) :
  (hasColon extension = false -> hasColon (screenshotFilename iso extension) = false)
  /\ (forall date hh mm ss fraction,
         iso = (date ++ "T" ++ hh ++ ":" ++ mm ++ ":" ++ ss ++ fraction)%string ->
         String.length date = 10%nat -> String.length hh = 2%nat ->
         String.length mm = 2%nat -> String.length ss = 2%nat ->
         hasColon date = false -> hasColon hh = false ->
         hasColon mm = false -> hasColon ss = false ->
         screenshotFilename iso extension
         = ("screenshot_" ++ date ++ "T" ++ hh ++ "-" ++ mm ++ "-" ++ ss
            ++ "." ++ extension)%string).
Proof.
  split.
  - intros Hext. unfold screenshotFilename.
    rewrite !hasColon_app, replaceColons_clean, Hext. reflexivity.
  - intros date hh mm ss fraction -> Hd Hh Hm Hs Cd Ch Cm Cs.
    unfold screenshotFilename. f_equal.
    transitivity (((date ++ "T" ++ hh ++ "-" ++ mm ++ "-" ++ ss)
                   ++ "." ++ extension)%string);
      [f_equal|now rewrite !string_app_assoc].
    set (stamp := (date ++ "T" ++ hh ++ ":" ++ mm ++ ":" ++ ss)%string).
    assert (Hlen : String.length stamp = 19%nat).
    { unfold stamp. rewrite !string_length_app. cbn [String.length]. lia. }
    replace (date ++ "T" ++ hh ++ ":" ++ mm ++ ":" ++ ss ++ fraction)%string
      with (stamp ++ fraction)%string
      by (unfold stamp; now rewrite !string_app_assoc).
    rewrite <- Hlen, substring_prefix. unfold stamp.
    rewrite !replaceColons_app, (replaceColons_id date), (replaceColons_id hh),
      (replaceColons_id mm), (replaceColons_id ss) by assumption.
    reflexivity.
Qed.

Lemma filename_has_no_colon_witness :
  screenshotFilename "2024-01-15T10:30:45.123Z" "png"
  = "screenshot_2024-01-15T10-30-45.png"%string.
Proof.
  apply (proj2 (filename_has_no_colon "2024-01-15T10:30:45.123Z" "png")
               "2024-01-15"%string "10"%string "30"%string "45"%string
               ".123Z"%string); reflexivity.
Defined.

(** ** The popup *)

Lemma receive_keeps_buttons (notices : list Popup.notice) (ui : Popup.UI) :
  Popup.captureBtnDisabled (fold_left Popup.receive notices ui)
  = Popup.captureBtnDisabled ui
  /\ Popup.captureVisibleBtnDisabled (fold_left Popup.receive notices ui)
     = Popup.captureVisibleBtnDisabled ui.
Proof.
  revert ui. induction notices as [|n notices IH]; intros ui; [now split|].
  cbn [fold_left]. destruct (IH (Popup.receive ui n)) as [-> ->].
  destruct n; now split.
Qed.

(** X16: the buttons of the popup are disabled while a capture runs and
    are enabled again whenever its [captureScreenshot] ends, however it
    ends and whatever was notified meanwhile.  After a failure the status
    shows [Error: ] and the message, with the class [status error], and the
    progress bar is hidden; after a success it shows the success text and
    the bar is at 100.  If the background script never answers, the buttons
    stay disabled. *)
Theorem popup_buttons_are_enabled_again
        (messageOf : error -> string) (host : Host) (options : Options)
        (fullPage : bool) (w : World) (notices : list Popup.notice)
        (ui : Popup.UI) :
  let o := fst (captureScreenshot host options fullPage w) in
  let ui' := Popup.captureScreenshot Popup.TabFound notices
               (respond messageOf o) ui in
  match o with
  | Returned _ =>
      Popup.captureBtnDisabled ui' = false
      /\ Popup.captureVisibleBtnDisabled ui' = false
      /\ Popup.statusText ui' = "Screenshot captured successfully!"%string
      /\ Popup.statusClass ui' = "status success"%string
      /\ Popup.progressPercent ui' = 100
  | Threw e =>
      Popup.captureBtnDisabled ui' = false
      /\ Popup.captureVisibleBtnDisabled ui' = false
      /\ Popup.statusText ui'
         = ("Error: " ++ (if truthy (messageOf e) then messageOf e
                          else "Failed to capture screenshot"))%string
      /\ Popup.statusClass ui' = "status error"%string
      /\ Popup.progressDisplay ui' = "none"%string
  | Pending =>
      Popup.captureBtnDisabled ui' = true
      /\ Popup.captureVisibleBtnDisabled ui' = true
  end.
Proof.
  cbv zeta. destruct (fst (captureScreenshot host options fullPage w)) as [r|e|];
    cbn [respond Popup.captureScreenshot].
  - repeat split.
  - repeat split.
  - apply receive_keeps_buttons.
Qed.

(** ** The content script *)

Module PageFacts.
Import Page.

Lemma mapSet_In (key : nat) (value : string) (entries : list (nat * string))
      (k : nat) (v : string) :
  In (k, v) (mapSet key value entries) ->
  (k = key /\ v = value) \/ In (k, v) entries.
Proof.
  induction entries as [|[k0 v0] rest IH]; cbn [mapSet].
  - intros [Heq|[]]. injection Heq; intros; subst; left; split; reflexivity.
  - destruct (Nat.eqb_spec k0 key) as [->|Hne]; cbn [In].
    + intros [Heq|Hin]; [injection Heq; intros; subst; left; split; reflexivity|].
      right; right; exact Hin.
    + intros [Heq|Hin]; [right; left; exact Heq|].
      destruct (IH Hin) as [H|H]; [left; exact H|right; right; exact H].
Qed.

Lemma mapSet_keys (key : nat) (value : string) (entries : list (nat * string))
      (k : nat) :
  In k (map fst (mapSet key value entries)) <->
  k = key \/ In k (map fst entries).
Proof.
  induction entries as [|[k0 v0] rest IH]; cbn [mapSet map fst In].
  - intuition congruence.
  - destruct (Nat.eqb_spec k0 key) as [->|Hne]; cbn [map fst In].
    + intuition congruence.
    + rewrite IH. intuition congruence.
Qed.

(** The loop over the floating elements hides each of them on its own. *)
Lemma hideFloating_elements (els : list Element) (saved : list (nat * string)) :
  fst (hideFloating els saved) = map hidden els.
Proof.
  revert saved. induction els as [|e rest IH]; intro saved; [reflexivity|].
  cbn [hideFloating map]. unfold hidden at 1. fold (toHide e).
  destruct (toHide e).
  - specialize (IH (mapSet (node e) (display e) saved)).
    destruct (hideFloating rest (mapSet (node e) (display e) saved)).
    cbn [fst] in *. now rewrite IH.
  - specialize (IH saved). destruct (hideFloating rest saved).
    cbn [fst] in *. now rewrite IH.
Qed.

Lemma hideFloating_In (els : list Element) (saved : list (nat * string))
      (k : nat) (v : string) :
  In (k, v) (snd (hideFloating els saved)) ->
  In (k, v) saved
  \/ exists e, In e els /\ node e = k /\ display e = v /\ toHide e = true.
Proof.
  revert saved. induction els as [|e rest IH]; intro saved.
  - cbn. intro H; left; exact H.
  - cbn [hideFloating]. fold (toHide e). destruct (toHide e) eqn:Hh.
    + specialize (IH (mapSet (node e) (display e) saved)).
      destruct (hideFloating rest (mapSet (node e) (display e) saved)).
      cbn [snd] in *. intro Hin. destruct (IH Hin) as [H|(e' & He' & H)].
      * apply mapSet_In in H. destruct H as [[-> ->]|H]; [|left; exact H].
        right. exists e. cbn [In]. auto.
      * right. exists e'. cbn [In]. auto.
    + specialize (IH saved). destruct (hideFloating rest saved).
      cbn [snd] in *. intro Hin. destruct (IH Hin) as [H|(e' & He' & H)].
      * left; exact H.
      * right. exists e'. cbn [In]. auto.
Qed.

Lemma hideFloating_keys (els : list Element) (saved : list (nat * string))
      (k : nat) :
  In k (map fst (snd (hideFloating els saved))) <->
  In k (map fst saved)
  \/ exists e, In e els /\ node e = k /\ toHide e = true.
Proof.
  revert saved. induction els as [|e rest IH]; intro saved.
  - cbn. split; [intro H; left; exact H|]. intros [H|(e & [] & _)]; exact H.
  - cbn [hideFloating]. fold (toHide e). destruct (toHide e) eqn:Hh.
    + specialize (IH (mapSet (node e) (display e) saved)).
      destruct (hideFloating rest (mapSet (node e) (display e) saved)).
      cbn [snd] in *. rewrite IH, mapSet_keys. cbn [In]. split.
      * intros [[->|H]|(e' & He' & H)].
        -- right. exists e. auto.
        -- left; exact H.
        -- right. exists e'. auto.
      * intros [H|(e' & [<-|He'] & Hn & Ht)].
        -- left; right; exact H.
        -- left; left; symmetry; exact Hn.
        -- right. exists e'. auto.
    + specialize (IH saved). destruct (hideFloating rest saved).
      cbn [snd] in *. rewrite IH. cbn [In]. split.
      * intros [H|(e' & He' & H)]; [left; exact H|right; exists e'; auto].
      * intros [H|(e' & [<-|He'] & Hn & Ht)].
        -- left; exact H.
        -- congruence.
        -- right. exists e'. auto.
Qed.

Lemma Forall2_map_In {A B : Type} (R S : A -> B -> Prop) (f : A -> A)
      (l : list A) (l0 : list B) :
  Forall2 R l l0 ->
  (forall a b, In a l -> R a b -> S (f a) b) ->
  Forall2 S (map f l) l0.
Proof.
  induction 1 as [|a b l l0 Hab _ IH]; intro H; cbn [map]; constructor.
  - apply H; [left; reflexivity|exact Hab].
  - apply IH. intros a' b' Hin. apply H. right; exact Hin.
Qed.

Lemma tracked_nodes (saved : list (nat * string)) (els els0 : list Element) :
  Forall2 (tracked saved) els els0 -> map node els = map node els0.
Proof.
  induction 1 as [|e e0 els els0 (Hn & _) _ IH]; cbn [map]; congruence.
Qed.

Lemma same_node (els : list Element) (e e' : Element) :
  NoDup (map node els) -> In e els -> In e' els -> node e = node e' -> e = e'.
Proof.
  induction els as [|a rest IH]; cbn [map In]; [intros _ []|].
  intros Hnd [<-|He] [<-|He'] Hn.
  - reflexivity.
  - inversion Hnd as [|? ? Hnot _]; subst. exfalso. apply Hnot.
    rewrite Hn. apply in_map. exact He'.
  - inversion Hnd as [|? ? Hnot _]; subst. exfalso. apply Hnot.
    rewrite <- Hn. apply in_map. exact He.
  - inversion Hnd; subst. apply IH; assumption.
Qed.

Lemma toHide_display (e : Element) : toHide e = true -> display e <> "none"%string.
Proof.
  unfold toHide. intros H Heq. rewrite Heq, String.eqb_refl in H.
  now rewrite andb_false_r in H.
Qed.

Lemma hidden_node (e : Element) : node (hidden e) = node e.
Proof. unfold hidden. now destruct (toHide e). Qed.

Lemma silence_node (e : Element) : node (silence e) = node e.
Proof. unfold silence. now destruct (media e && autoplay e). Qed.

Lemma silence_display (e : Element) : display (silence e) = display e.
Proof. unfold silence. now destruct (media e && autoplay e). Qed.

(** [cleanupPage] keeps the helper's record of the page. *)
Lemma cleanupPage_invariant (doc0 : Document) (s : Document * Helper) :
  NoDup (map node (elements doc0)) ->
  invariant doc0 s -> invariant doc0 (cleanupPage s).
Proof.
  intros Hnd (Hels & Hhead & Hinj & Hnext). destruct s as [doc helper].
  cbn [fst snd] in *. unfold cleanupPage.
  pose proof (hideFloating_elements (elements doc) (originalStyles helper)) as Hfst.
  pose proof (hideFloating_In (elements doc) (originalStyles helper)) as Hin.
  pose proof (hideFloating_keys (elements doc) (originalStyles helper)) as Hkeys.
  destruct (hideFloating (elements doc) (originalStyles helper)) as [els saved].
  cbn [fst snd] in *. subst els.
  assert (Hnd' : NoDup (map node (elements doc)))
    by (rewrite (tracked_nodes _ _ _ Hels); exact Hnd).
  unfold invariant; cbn [fst snd elements head nextNode originalStyles injectedElements].
  split; [|split; [exact Hhead|split; [exact Hinj|exact Hnext]]].
  rewrite map_map.
  apply (Forall2_map_In (tracked (originalStyles helper))); [exact Hels|].
  intros e e0 He (Hn & Hfree & Hheld).
  unfold tracked. rewrite silence_node, silence_display, hidden_node.
  split; [exact Hn|split].
  - intro Hnot.
    assert (Hh : toHide e = false).
    { destruct (toHide e) eqn:Hh; [|reflexivity]. exfalso. apply Hnot.
      apply Hkeys. right. exists e. auto. }
    unfold hidden. rewrite Hh. apply Hfree.
    intro Hk. apply Hnot. apply Hkeys. left; exact Hk.
  - intros v Hv. destruct (Hin _ _ Hv) as [Hold|(e' & He' & Hn' & Hd & Ht)].
    + destruct (Hheld v Hold) as [Hv0 Hnone]. split; [exact Hv0|].
      unfold hidden. destruct (toHide e) eqn:Hh; [reflexivity|exact Hnone].
    + assert (e' = e) by (apply (same_node (elements doc)); assumption). subst e'.
      assert (Hfresh : ~ In (node e) (map fst (originalStyles helper))).
      { intro Hk. apply in_map_iff in Hk. destruct Hk as ([k u] & Hfst & Hku).
        cbn [fst] in Hfst. subst k. destruct (Hheld u Hku) as [_ Hnone].
        exact (toHide_display e Ht Hnone). }
      split; [rewrite <- Hd; apply Hfree; exact Hfresh|].
      unfold hidden. now rewrite Ht.
Qed.

Lemma injectStyle_invariant (doc0 : Document) (id : string) (s : Document * Helper) :
  invariant doc0 s -> invariant doc0 (injectStyle id s).
Proof.
  intros (Hels & (extra & Hhead & Hextra) & Hinj & Hnext). destruct s as [doc helper].
  cbn [fst snd] in *. unfold invariant, injectStyle.
  cbn [fst snd elements head nextNode originalStyles injectedElements].
  split; [exact Hels|split; [|split]].
  - exists (extra ++ [(nextNode doc, id)]). rewrite Hhead, <- app_assoc.
    split; [reflexivity|]. rewrite map_app, Hextra. reflexivity.
  - apply Forall_app. split; [exact Hinj|]. constructor; [exact Hnext|constructor].
  - lia.
Qed.

Lemma restored_spec (saved : list (nat * string)) (e : Element) :
  (~ In (node e) (map fst saved) /\ restored saved e = e)
  \/ exists v, In (node e, v) saved /\ restored saved e = setDisplay v e.
Proof.
  unfold restored. induction saved as [|[k u] rest IH] using rev_ind.
  - left. split; [intros []|reflexivity].
  - rewrite fold_left_app. cbn [fold_left fst snd].
    set (r := fold_left _ rest e) in *.
    assert (Hr : node r = node e).
    { destruct IH as [[_ ->]|(v & _ & ->)]; reflexivity. }
    rewrite Hr. destruct (Nat.eqb_spec (node e) k) as [<-|Hne].
    + right. exists u. split; [apply in_or_app; right; left; reflexivity|].
      destruct IH as [[_ ->]|(v & _ & ->)]; reflexivity.
    + destruct IH as [[Hnot ->]|(v & Hv & ->)].
      * left. split; [|reflexivity]. rewrite map_app, in_app_iff. cbn.
        intros [H|[H|[]]]; [exact (Hnot H)|congruence].
      * right. exists v. split; [apply in_or_app; left; exact Hv|reflexivity].
Qed.

Lemma restoreDisplay_elements (saved : list (nat * string)) (els : list Element) :
  fold_left restoreDisplay saved els = map (restored saved) els.
Proof.
  revert els. induction saved as [|entry rest IH]; intro els.
  - cbn. now rewrite map_id.
  - cbn [fold_left]. rewrite IH. unfold restoreDisplay at 1. rewrite map_map.
    reflexivity.
Qed.

Lemma removeChild_all (ns : list nat) (children : list (nat * string)) :
  fold_left (fun children n => removeChild n children) ns children
  = filter (fun c => negb (existsb (Nat.eqb (fst c)) ns)) children.
Proof.
  revert children. induction ns as [|n rest IH]; intro children.
  - cbn. induction children as [|c cs IHc]; [reflexivity|]. cbn. now rewrite <- IHc.
  - cbn [fold_left]. rewrite IH. unfold removeChild.
    induction children as [|c cs IHc]; [reflexivity|]. cbn [filter existsb].
    destruct (Nat.eqb (fst c) n); cbn [negb orb].
    + exact IHc.
    + cbn [filter]. destruct (negb (existsb (Nat.eqb (fst c)) rest)); [f_equal|]; exact IHc.
Qed.

Lemma filter_all {A : Type} (f : A -> bool) (l : list A) :
  Forall (fun a => f a = true) l -> filter f l = l.
Proof.
  induction 1 as [|a l Ha _ IH]; [reflexivity|]. cbn. now rewrite Ha, IH.
Qed.

Lemma filter_none {A : Type} (f : A -> bool) (l : list A) :
  Forall (fun a => f a = false) l -> filter f l = [].
Proof.
  induction 1 as [|a l Ha _ IH]; [reflexivity|]. cbn. now rewrite Ha, IH.
Qed.

(** [restorePage] puts back what the helper recorded: the [display] of
    every element and the children of the head. *)
Lemma restorePage_restores (doc0 : Document) (s : Document * Helper) :
  Forall (fun c => (fst c < nextNode doc0)%nat) (head doc0) ->
  invariant doc0 s ->
  map display (elements (fst (restorePage s))) = map display (elements doc0)
  /\ map node (elements (fst (restorePage s))) = map node (elements doc0)
  /\ head (fst (restorePage s)) = head doc0
  /\ (nextNode doc0 <= nextNode (fst (restorePage s)))%nat.
Proof.
  intros Hold (Hels & (extra & Hhead & Hextra) & Hinj & Hnext).
  destruct s as [doc helper]. cbn [fst snd] in *. unfold restorePage.
  cbn [fst elements head nextNode].
  rewrite restoreDisplay_elements, removeChild_all, Hhead, filter_app.
  rewrite !map_map.
  split; [|split; [|split; [|exact Hnext]]].
  - clear - Hels. induction Hels as [|e e0 els els0 (Hn & Hfree & Hheld) _ IH];
      [reflexivity|]. cbn [map]. f_equal; [|exact IH].
    assert (Hd : display (restored (originalStyles helper) e) = display e0).
    { destruct (restored_spec (originalStyles helper) e) as [[Hnot ->]|(v & Hv & ->)].
      - apply Hfree, Hnot.
      - cbn. exact (proj1 (Hheld v Hv)). }
    destruct (media (restored (originalStyles helper) e)); exact Hd.
  - clear - Hels. induction Hels as [|e e0 els els0 (Hn & _) _ IH];
      [reflexivity|]. cbn [map]. f_equal; [|exact IH].
    assert (Hd : node (restored (originalStyles helper) e) = node e0).
    { destruct (restored_spec (originalStyles helper) e) as [[_ ->]|(v & _ & ->)];
        exact Hn. }
    destruct (media (restored (originalStyles helper) e)); exact Hd.
  - rewrite filter_all, filter_none; [apply app_nil_r| |].
    + rewrite <- Hextra. apply Forall_forall. intros c Hc.
      apply negb_false_iff, existsb_exists. exists (fst c).
      split; [apply in_map; exact Hc|apply Nat.eqb_refl].
    + apply Forall_forall. intros c Hc. apply negb_true_iff.
      destruct (existsb (Nat.eqb (fst c)) (injectedElements helper)) eqn:Hex;
        [|reflexivity].
      apply existsb_exists in Hex. destruct Hex as (n & Hn & Heq).
      apply Nat.eqb_eq in Heq.
      rewrite Forall_forall in Hold, Hinj.
      specialize (Hold c Hc). specialize (Hinj n Hn). lia.
Qed.

Lemma restorePage_invariant (doc0 : Document) (s : Document * Helper) :
  Forall (fun c => (fst c < nextNode doc0)%nat) (head doc0) ->
  invariant doc0 s -> invariant doc0 (restorePage s).
Proof.
  intros Hold Hinv.
  destruct (restorePage_restores doc0 s Hold Hinv) as (Hd & Hn & Hh & Hnext).
  assert (Hhelper : snd (restorePage s) = newHelper) by (destruct s; reflexivity).
  unfold invariant. rewrite Hhelper.
  cbn [newHelper originalStyles injectedElements].
  split; [|split; [|split; [constructor|exact Hnext]]].
  - revert Hd Hn. generalize (elements (fst (restorePage s))) as els.
    generalize (elements doc0) as els0.
    induction els0 as [|e0 els0 IH]; intros [|e els]; cbn [map]; try discriminate.
    + constructor.
    + intros Hd Hn. injection Hd as Hd1 Hd2. injection Hn as Hn1 Hn2.
      constructor; [|apply IH; assumption].
      split; [exact Hn1|split; [intros _; exact Hd1|intros v []]].
  - exists []. rewrite app_nil_r. split; [exact Hh|reflexivity].
Qed.

Lemma fresh_helper_invariant (doc : Document) : invariant doc (doc, newHelper).
Proof.
  unfold invariant. cbn [fst snd newHelper originalStyles injectedElements].
  split; [|split; [|split; [constructor|lia]]].
  - induction (elements doc) as [|e els IH]; [constructor|constructor; [|exact IH]].
    split; [reflexivity|split; [reflexivity|intros v []]].
  - exists []. now rewrite app_nil_r.
Qed.

Lemma action_invariant (doc0 : Document) (s : Document * Helper) (a : action) :
  wellFormed doc0 -> invariant doc0 s -> invariant doc0 (step s a).
Proof.
  intros [Hnd Hold] Hinv. destruct a as [hide| |]; cbn [step].
  - unfold prepareForScreenshot. apply cleanupPage_invariant; [exact Hnd|].
    unfold hideScrollbars. destruct hide as [[|]|];
      [apply injectStyle_invariant| |apply injectStyle_invariant]; exact Hinv.
  - unfold optimizeForScreenshot. destruct s as [doc helper].
    apply injectStyle_invariant. exact Hinv.
  - apply restorePage_invariant; assumption.
Qed.

Lemma run_invariant (doc0 : Document) (acts : list action) (s : Document * Helper) :
  wellFormed doc0 -> invariant doc0 s -> invariant doc0 (run acts s).
Proof.
  intro Hwf. revert s. induction acts as [|a rest IH]; intros s Hinv; [exact Hinv|].
  cbn [run fold_left]. apply IH. apply action_invariant; assumption.
Qed.

(** No action of the helper changes whether an element plays: the only
    call on a media element is [pause]. *)
Lemma step_keeps_paused (s : Document * Helper) (a : action) :
  Forall2 (fun e' e => node e' = node e /\ media e' = media e
                       /\ autoplay e' = autoplay e
                       /\ (paused e = true -> paused e' = true))
          (elements (fst (step s a))) (elements (fst s)).
Proof.
  destruct s as [doc helper]. destruct a as [hide| |]; cbn [step].
  - unfold prepareForScreenshot.
    assert (Hels : elements (fst (hideScrollbars hide (doc, helper))) = elements doc)
      by (destruct hide as [[|]|]; reflexivity).
    destruct (hideScrollbars hide (doc, helper)) as [doc1 helper1].
    cbn [fst] in Hels. unfold cleanupPage.
    pose proof (hideFloating_elements (elements doc1) (originalStyles helper1)) as Hfst.
    destruct (hideFloating (elements doc1) (originalStyles helper1)) as [els saved].
    cbn [fst elements] in *. subst els. rewrite Hels, map_map. clear Hels.
    induction (elements doc) as [|e els IH]; [constructor|constructor; [|exact IH]].
    unfold silence, hidden.
    destruct (toHide e); destruct (media _ && autoplay _); cbn; intuition auto.
  - cbn [optimizeForScreenshot injectStyle fst elements].
    induction (elements doc) as [|e els IH]; constructor; intuition auto.
  - unfold restorePage. cbn [fst elements].
    rewrite restoreDisplay_elements, map_map.
    induction (elements doc) as [|e els IH]; [constructor|constructor; [|exact IH]].
    destruct (restored_spec (originalStyles helper) e) as [[_ ->]|(v & _ & ->)];
      [destruct (media e) eqn:Hm|cbn [media setDisplay]; destruct (media e) eqn:Hm];
      cbn; intuition auto.
Qed.

End PageFacts.

Module PageRuns.
Import Page.

Lemma run_app (acts acts' : list action) (s : Document * Helper) :
  run (acts ++ acts') s = run acts' (run acts s).
Proof. unfold run. apply fold_left_app. Qed.

Lemma Forall2_compose {A : Type} (R : A -> A -> Prop) (l1 l2 l3 : list A) :
  (forall a b c, R a b -> R b c -> R a c) ->
  Forall2 R l1 l2 -> Forall2 R l2 l3 -> Forall2 R l1 l3.
Proof.
  intros Htrans H12. revert l3.
  induction H12 as [|a b l1 l2 Hab _ IH]; intros l3 H23; inversion H23; subst;
    constructor; eauto.
Qed.

Lemma Forall2_same {A : Type} (R : A -> A -> Prop) (l : list A) :
  (forall a, R a a) -> Forall2 R l l.
Proof. intro Hrefl. induction l; constructor; auto. Qed.

Lemma run_keeps_paused (acts : list action) (s : Document * Helper) :
  Forall2 (fun e' e => node e' = node e /\ media e' = media e
                       /\ autoplay e' = autoplay e
                       /\ (paused e = true -> paused e' = true))
          (elements (fst (run acts s))) (elements (fst s)).
Proof.
  revert s. induction acts as [|a rest IH]; intro s.
  - apply Forall2_same. intuition auto.
  - cbn [run fold_left]. eapply Forall2_compose; [|apply IH|apply PageFacts.step_keeps_paused].
    cbn beta. intros x y z (H1 & H2 & H3 & H4) (H1' & H2' & H3' & H4').
    repeat split; try congruence. auto.
Qed.

Lemma cleanupPage_elements (s : Document * Helper) :
  elements (fst (cleanupPage s))
  = map (fun e => silence (hidden e)) (elements (fst s)).
Proof.
  destruct s as [doc helper]. unfold cleanupPage.
  pose proof (PageFacts.hideFloating_elements (elements doc) (originalStyles helper)) as Hfst.
  destruct (hideFloating (elements doc) (originalStyles helper)) as [els saved].
  cbn [fst elements] in *. subst els. now rewrite map_map.
Qed.

Lemma hideScrollbars_elements (hide : option bool) (s : Document * Helper) :
  elements (fst (hideScrollbars hide s)) = elements (fst s).
Proof. destruct s as [doc helper]. destruct hide as [[|]|]; reflexivity. Qed.

End PageRuns.

(** X17: whatever the helper was asked to do to a well-formed page since
    it was created (prepare, optimise and restore, in any order and any
    number of times), [restorePage] leaves every element with the
    [display] it had at first and the head with the children it had at
    first, and empties the helper's map and list. *)
Theorem restore_undoes_preparation
        (doc : Page.Document) (acts : list Page.action) :
  Page.wellFormed doc ->
  let s' := Page.run (acts ++ [Page.Restore]) (doc, Page.newHelper) in
  map Page.node (Page.elements (fst s')) = map Page.node (Page.elements doc)
  /\ map Page.display (Page.elements (fst s')) = map Page.display (Page.elements doc)
  /\ Page.head (fst s') = Page.head doc
  /\ snd s' = Page.newHelper.
Proof.
  intros Hwf s'. subst s'. rewrite PageRuns.run_app. cbn [Page.run fold_left Page.step].
  pose proof (PageFacts.run_invariant doc acts (doc, Page.newHelper) Hwf
                (PageFacts.fresh_helper_invariant doc)) as Hinv.
  destruct (PageFacts.restorePage_restores doc _ (proj2 Hwf) Hinv)
    as (Hd & Hn & Hh & _).
  split; [exact Hn|split; [exact Hd|split; [exact Hh|]]].
  destruct (Page.run acts (doc, Page.newHelper)). reflexivity.
Qed.

Lemma restore_undoes_preparation_witness :
  let doc :=
    Page.mkDocument
      [Page.mkElement 10 true false false "block" "" false;
       Page.mkElement 11 true true true "" "0.5" false;
       Page.mkElement 12 false false false "flex" "" false]
      [(0%nat, "site"%string)] 1 "" "" in
  let s' := Page.run ([Page.Prepare None; Page.Optimize] ++ [Page.Restore])
                     (doc, Page.newHelper) in
  map Page.display (Page.elements (fst (Page.run [Page.Prepare None; Page.Optimize]
                                                 (doc, Page.newHelper))))
  = ["none"; "none"; "flex"]%string
  /\ map Page.node (Page.elements (fst s')) = [10; 11; 12]%nat
  /\ map Page.display (Page.elements (fst s')) = ["block"; ""; "flex"]%string
  /\ Page.head (fst s') = [(0%nat, "site"%string)]
  /\ snd s' = Page.newHelper.
Proof.
  intros doc s'. split; [reflexivity|].
  apply (restore_undoes_preparation doc [Page.Prepare None; Page.Optimize]).
  split.
  - cbn. repeat constructor; cbn; intuition discriminate.
  - cbn. repeat constructor.
Defined.

(** X18: [prepareForScreenshot] leaves every floating element hidden and
    every other element's [display] as it was; the elements themselves
    stay the same, in the same order. *)
Theorem preparation_hides_floating_elements
        (hideScrollbar : option bool) (s : Page.Document * Page.Helper) :
  Forall2 (fun e' e =>
             Page.node e' = Page.node e
             /\ (Page.floating e = true -> Page.display e' = "none"%string)
             /\ (Page.floating e = false -> Page.display e' = Page.display e))
          (Page.elements (fst (Page.prepareForScreenshot hideScrollbar s)))
          (Page.elements (fst s)).
Proof.
  unfold Page.prepareForScreenshot.
  rewrite PageRuns.cleanupPage_elements, PageRuns.hideScrollbars_elements.
  induction (Page.elements (fst s)) as [|e els IH]; [constructor|].
  cbn [map]. constructor; [|exact IH].
  rewrite PageFacts.silence_node, PageFacts.silence_display, PageFacts.hidden_node.
  split; [reflexivity|]. unfold Page.hidden, Page.toHide.
  destruct (Page.floating e); cbn [andb].
  - split; [intros _|discriminate].
    destruct (String.eqb_spec (Page.display e) "none") as [Heq|Hne]; cbn [negb];
      [exact Heq|reflexivity].
  - split; [discriminate|reflexivity].
Qed.

(** X19: once the page was prepared, nothing the helper does plays a media
    element again or gives it back the opacity it had: after a later
    [restorePage] every [video] and [audio] element has the empty opacity,
    and those with [autoplay] are still paused. *)
Theorem restore_does_not_resume_media
        (hideScrollbar : option bool) (acts : list Page.action)
        (s : Page.Document * Page.Helper) :
  Forall (fun e =>
            Page.media e = true ->
            Page.opacity e = ""%string
            /\ (Page.autoplay e = true -> Page.paused e = true))
         (Page.elements
            (fst (Page.run (Page.Prepare hideScrollbar :: acts ++ [Page.Restore]) s))).
Proof.
  change (Page.Prepare hideScrollbar :: acts ++ [Page.Restore])
    with ((Page.Prepare hideScrollbar :: acts) ++ [Page.Restore]).
  rewrite PageRuns.run_app.
  pose proof (PageRuns.run_keeps_paused
                (acts ++ [Page.Restore]) (Page.step s (Page.Prepare hideScrollbar)))
    as Hkept.
  rewrite PageRuns.run_app in Hkept.
  change (Page.run (Page.Prepare hideScrollbar :: acts) s)
    with (Page.run acts (Page.step s (Page.Prepare hideScrollbar))).
  set (s1 := Page.step s (Page.Prepare hideScrollbar)) in *.
  assert (Hpaused : Forall (fun e => Page.media e = true -> Page.autoplay e = true ->
                                     Page.paused e = true)
                           (Page.elements (fst s1))).
  { subst s1. cbn [Page.step]. unfold Page.prepareForScreenshot.
    rewrite PageRuns.cleanupPage_elements. apply Forall_forall. intros e He.
    apply in_map_iff in He. destruct He as (e0 & <- & _).
    unfold Page.silence.
    destruct (Page.media (Page.hidden e0) && Page.autoplay (Page.hidden e0)) eqn:Hb.
    - reflexivity.
    - intros Hm Ha. rewrite Hm, Ha in Hb. discriminate. }
  assert (Hop : Forall (fun e => Page.media e = true -> Page.opacity e = ""%string)
                       (Page.elements (fst (Page.run [Page.Restore] (Page.run acts s1))))).
  { cbn [Page.run fold_left Page.step]. fold (Page.run acts s1).
    destruct (Page.run acts s1) as [doc helper].
    unfold Page.restorePage. cbn [fst Page.elements].
    apply Forall_forall. intros e He. apply in_map_iff in He.
    destruct He as (e0 & <- & _).
    destruct (Page.media e0) eqn:Hm; [reflexivity|congruence]. }
  revert Hkept Hop Hpaused.
  generalize (Page.elements (fst (Page.run [Page.Restore] (Page.run acts s1)))) as els'.
  generalize (Page.elements (fst s1)) as els.
  intros els els' Hkept. induction Hkept as [|e' e els' els (_ & Hm & Ha & Hp) _ IH];
    intros Hop Hpaused; [constructor|].
  inversion Hop; subst. inversion Hpaused; subst.
  constructor; [|apply IH; assumption].
  intro Hm'. split; [auto|]. intro Ha'. apply Hp.
  rewrite Hm in Hm'. rewrite Ha in Ha'. auto.
Qed.
